(** * KILT SDK: light DID codec, DID resolver and public-credential
      reconstruction

    A shallow embedding of
    - [LightDidDetailsV2.ts] (createLightDidDocument,
      parseDocumentFromLightDid and their helpers),
    - [DidResolverV2.ts] (resolve, resolveRepresentation, dereference),
    - [PublicCredential.chain.ts] (credentialFromChain and its helpers),
    followed by the properties the specification states about them.

    Exceptions are values of [Result]; asynchronous chain queries run in
    the [Chain] monad, which threads the log of the queries issued so far
    and answers them from a [ChainApi].  Functions that the three files
    import from elsewhere are the fields of the classes [Codecs],
    [DidUtils], [Representations] and [CredentialUtils]; module [Demo]
    instantiates them so that the embedding runs on examples. *)

From Stdlib Require Import String Ascii List ZArith NArith Bool Lia.
From Stdlib Require Import Strings.Byte.
From Ceres Require Import Ceres.
Import ListNotations.
Local Open Scope string_scope.

Set Warnings "-register-all".

(* ================================================================== *)
(** * Exceptions *)
(* ================================================================== *)

(** The classes of [SDKErrors] the three files throw, the [TypeError] of
    the JavaScript runtime, and [ForeignError] for whatever an imported
    library or the chain connection raises. *)
Inductive SDKError : Type :=
| UnsupportedKeyError (keyType : string)
| DidError (message : string)
| PublicCredentialError (message : string)
| TypeError (message : string)
| ForeignError (message : string).

Inductive Result (A : Type) : Type :=
| Ok (a : A)
| Throw (e : SDKError).
Arguments Ok {A} a.
Arguments Throw {A} e.

Definition rbind {A B} (m : Result A) (k : A -> Result B) : Result B :=
  match m with
  | Ok a => k a
  | Throw e => Throw e
  end.

Declare Scope result_scope.
Delimit Scope result_scope with R.
Notation "x <- m ;; k" := (rbind m (fun x => k))
  (at level 61, m at next level, right associativity) : result_scope.
Notation "m ;;; k" := (rbind m (fun _ => k))
  (at level 61, right associativity) : result_scope.

Definition isOk {A} (r : Result A) : bool :=
  match r with Ok _ => true | Throw _ => false end.

(** [xs.forEach(f)] for an [f] that may throw: stops at the first
    exception. *)
Fixpoint forEach {A} (f : A -> Result unit) (xs : list A) : Result unit :=
  match xs with
  | [] => Ok tt
  | x :: xs' => (f x ;;; forEach f xs')%R
  end.

(** [xs.map(f)] for an [f] that may throw. *)
Fixpoint mapR {A B} (f : A -> Result B) (xs : list A) : Result (list B) :=
  match xs with
  | [] => Ok []
  | x :: xs' => (y <- f x ;; ys <- mapR f xs' ;; Ok (y :: ys))%R
  end.

(** A double quote, for the messages that quote a value. *)
Definition dquote : string := String (ascii_of_nat 34) EmptyString.
Definition quoted (s : string) : string := dquote ++ s ++ dquote.

(** JavaScript truthiness of an optional string: [undefined] and the
    empty string are falsy. *)
Definition truthy (s : option string) : bool :=
  match s with
  | None => false
  | Some EmptyString => false
  | Some _ => true
  end.

(** [a ?? b] *)
Definition nullish {A} (a b : option A) : option A :=
  match a with
  | Some _ => a
  | None => b
  end.

(* ================================================================== *)
(** * Data model *)
(* ================================================================== *)

Definition Bytes := list byte.

(** [DidKeyType] *)
Inductive DidKeyType : Type := ed25519 | sr25519 | ecdsa | x25519.

Definition DidKeyType_eqb (a b : DidKeyType) : bool :=
  match a, b with
  | ed25519, ed25519 | sr25519, sr25519 | ecdsa, ecdsa | x25519, x25519 => true
  | _, _ => false
  end.

Definition keyTypeName (k : DidKeyType) : string :=
  match k with
  | ed25519 => "ed25519"
  | sr25519 => "sr25519"
  | ecdsa => "ecdsa"
  | x25519 => "x25519"
  end.

(** [DidDocumentV2.VerificationMethod]; a [NewVerificationMethod] is the
    same object without [controller]. *)
Record VerificationMethod : Type := {
  vm_id : string;
  vm_controller : option string;
  vm_type : string;
  publicKeyMultibase : string
}.

(** What [decodeMultikeyVerificationMethod] returns. *)
Record DecodedVerificationMethod : Type := {
  keyType : DidKeyType;
  publicKey : Bytes
}.

(** [NewServiceEndpoint].  The two arrays are optional here because
    [deserializeAdditionalLightDidDetails] builds them with the unchecked
    casts [(type ?? types) as string[]] and
    [(serviceEndpoint ?? urls) as string[]], which are [undefined] when
    the decoded entry carries neither key. *)
Record Service : Type := {
  svc_id : string;
  svc_type : option (list string);
  serviceEndpoint : option (list string)
}.

(** [DidDocumentV2.DidDocument].  Everything but [id] is optional: the
    resolver answers a migrated light DID with the document [{ id: did }]. *)
Record DidDocument : Type := {
  doc_id : string;
  authentication : option (list string);
  verificationMethod : option (list VerificationMethod);
  keyAgreement : option (list string);
  assertionMethod : option (list string);
  capabilityDelegation : option (list string);
  service : option (list Service)
}.

(** [CreateDocumentInput]: [authentication] is a one-element tuple,
    [keyAgreement] an optional one-element tuple. *)
Record CreateDocumentInput : Type := {
  in_authentication : VerificationMethod;
  in_keyAgreement : option VerificationMethod;
  in_service : option (list Service)
}.

(** An entry of [SerializableStructure['s']]: the id without its [#],
    the current keys [type] and [serviceEndpoint], and the keys [types]
    and [urls] of light DIDs serialized before the SDK refactor. *)
Record SerializedService : Type := {
  ss_id : string;
  ss_type : option (list string);
  ss_serviceEndpoint : option (list string);
  ss_types : option (list string);
  ss_urls : option (list string)
}.

(** [SerializableStructure]: key ['e'] and key ['s']. *)
Record SerializableStructure : Type := {
  ser_e : option VerificationMethod;
  ser_s : option (list SerializedService)
}.

Inductive DidType : Type := light | full.

(** What [parse] of [Did2.utils] returns. *)
Record ParsedUri : Type := {
  p_did : string;
  p_address : string;
  p_version : option nat;
  p_encodedDetails : option string;
  p_fragment : option string;
  p_type : DidType;
  p_authKeyTypeEncoding : option string
}.

(** The second argument of [validateUri]. *)
Inductive ExpectType : Type := ExpectDid | ExpectResourceUri.

(** ** Resolution results *)

(** [ResolutionDocumentMetadata] *)
Record ResolutionDocumentMetadata : Type := {
  deactivated : option bool;
  canonicalId : option string
}.

Definition emptyDocumentMetadata : ResolutionDocumentMetadata :=
  {| deactivated := None; canonicalId := None |}.

(** The error codes of [didResolutionMetadata] and
    [dereferencingMetadata]. *)
Inductive ResolutionError : Type :=
| invalidDid
| notFound
| representationNotSupported
| invalidDidUrl.

(** [InternalResolutionResult] *)
Record InternalResolutionResult : Type := {
  document : option DidDocument;
  documentMetadata : ResolutionDocumentMetadata
}.

(** [ResolutionResult]; [didResolutionMetadata] has the one field
    [error]. *)
Record ResolutionResult : Type := {
  didResolutionMetadata : option ResolutionError;
  didDocumentMetadata : ResolutionDocumentMetadata;
  didDocument : option DidDocument
}.

(** [RepresentationResolutionResult] *)
Record RepresentationResolutionResult : Type := {
  rr_didResolutionMetadata : option ResolutionError;
  rr_didDocumentMetadata : ResolutionDocumentMetadata;
  didDocumentStream : option Bytes
}.

(** What a DID URL can point at. *)
Inductive Resource : Type :=
| ResDocument (d : DidDocument)
| ResVerificationMethod (m : VerificationMethod)
| ResService (s : Service).

(** The content stream [dereference] hands out: the resource itself, the
    resource with an added ["@context"], or its CBOR bytes. *)
Inductive DereferenceContentStream : Type :=
| Plain (r : Resource)
| WithContext (r : Resource) (context : list string)
| CborBuffer (b : Bytes).

(** [InternalDereferenceResult] *)
Record InternalDereferenceResult : Type := {
  i_contentStream : option Resource;
  i_contentMetadata : ResolutionDocumentMetadata
}.

(** [dereferencingMetadata] *)
Record DereferencingMetadata : Type := {
  dm_error : option ResolutionError;
  dm_contentType : option string
}.

(** [DereferenceResult] *)
Record DereferenceResult : Type := {
  dereferencingMetadata : DereferencingMetadata;
  contentMetadata : ResolutionDocumentMetadata;
  contentStream : option DereferenceContentStream
}.

(** ** Chain data *)

(** [RawDidLinkedInfo]; the two fields whose types come from the chain
    metadata are kept as their encoded bytes. *)
Record RawDidLinkedInfo : Type := {
  identifier : string;
  accounts : list string;
  w3n : option string;
  serviceEndpoints : list Bytes;
  details : Bytes
}.

(** A decoded CBOR value. *)
Inductive Json : Type :=
| JNull
| JBool (b : bool)
| JNumber (z : Z)
| JString (s : string)
| JArray (items : list Json)
| JObject (members : list (string * Json)).

(** [PublicCredentialsCredentialsCredential], the argument of
    [publicCredentials.add]; hashes are kept as their hex strings. *)
Record EncodedCredential : Type := {
  ec_ctypeHash : string;
  ec_subject : string;
  ec_claims : Bytes;
  ec_authorization : option string
}.

Inductive BatchKind : Type := batch | batchAll | forceBatch.

(** The calls the reconstruction tells apart with [api.tx.*.is]. *)
Inductive Call : Type :=
| Utility (kind : BatchKind) (calls : list Call)
| SubmitDidCall (did : string) (call : Call)
| PublicCredentialsAdd (credential : EncodedCredential)
| OtherCall (name : string).

Inductive Event : Type :=
| CredentialStored (subjectId credentialId : string)
| OtherEvent (name : string).

(** An entry of [SignedBlockExtended.extrinsics]. *)
Record TxWithEvent : Type := {
  extrinsic : Call;
  events : list Event;
  dispatchError : option string
}.

Record SignedBlockExtended : Type := {
  extrinsics : list TxWithEvent
}.

(** [PublicCredentialsCredentialsCredentialEntry] *)
Record CredentialEntry : Type := {
  blockNumber : N;
  revoked : bool
}.

(** [IPublicCredentialInput] *)
Record IPublicCredentialInput : Type := {
  claims : Json;
  cTypeHash : string;
  delegationId : option string;
  subject : string
}.

(** [IPublicCredential] *)
Record IPublicCredential : Type := {
  pc_claims : Json;
  pc_cTypeHash : string;
  pc_delegationId : option string;
  pc_subject : string;
  pc_attester : string;
  pc_id : string;
  pc_blockNumber : N;
  pc_revoked : bool
}.

(* ================================================================== *)
(** * The chain connection *)
(* ================================================================== *)

(** The queries the two asynchronous files send to the chain. *)
Inductive Query : Type :=
| QueryDid (identifier : string)
| QueryDidBlacklist (identifier : string)
| QueryBlockByNumber (blockNumber : N).

(** What the connected chain answers; a rejected promise is a [Throw]. *)
Record ChainApi : Type := {
  (** [api.call.did.query] *)
  call_did_query : string -> Result (option RawDidLinkedInfo);
  (** [api.query.did.didBlacklist] *)
  query_did_didBlacklist : string -> Result (option unit);
  (** [api.derive.chain.getBlockByNumber] *)
  derive_chain_getBlockByNumber : N -> Result SignedBlockExtended
}.

(** An asynchronous computation: it extends the log of the queries sent
    and ends in a value or in an exception. *)
Definition Chain (A : Type) : Type := list Query -> Result A * list Query.

Definition cret {A} (a : A) : Chain A := fun log => (Ok a, log).

Definition cthrow {A} (e : SDKError) : Chain A := fun log => (Throw e, log).

Definition cbind {A B} (m : Chain A) (k : A -> Chain B) : Chain B :=
  fun log =>
    match m log with
    | (Ok a, log') => k a log'
    | (Throw e, log') => (Throw e, log')
    end.

(** A synchronous step inside an asynchronous function. *)
Definition liftR {A} (r : Result A) : Chain A := fun log => (r, log).

(** [promise.catch(handler)] *)
Definition catch {A} (m : Chain A) (handler : SDKError -> Chain A) : Chain A :=
  fun log =>
    match m log with
    | (Ok a, log') => (Ok a, log')
    | (Throw e, log') => handler e log'
    end.

(** Sending query [q], which the chain answers with [answer]. *)
Definition send {A} (q : Query) (answer : Result A) : Chain A :=
  fun log => (answer, (log ++ [q])%list).

Declare Scope chain_scope.
Delimit Scope chain_scope with C.
Notation "x <- m ;; k" := (cbind m (fun x => k))
  (at level 61, m at next level, right associativity) : chain_scope.

(* ================================================================== *)
(** * Imported functions that are not part of the three files *)
(* ================================================================== *)

(** [@polkadot/util-crypto] and the [cbor] wrapper of
    [@kiltprotocol/utils]. *)
Class Codecs : Type := {
  (** [decodeAddress(address, false, ss58Format)] *)
  decodeAddress : string -> Result Bytes;
  (** [base58Encode(bytes, true)] and [base58Decode(text, true)] *)
  base58Encode : Bytes -> string;
  base58Decode : string -> Result Bytes;
  (** [cbor.encode] and [cbor.decode] on a [SerializableStructure] *)
  cbor_encode : SerializableStructure -> Bytes;
  cbor_decode : Bytes -> Result SerializableStructure
}.

(** [Did2.utils], [Did2.chain] and [@kiltprotocol/types]. *)
Class DidUtils : Type := {
  parse : string -> Result ParsedUri;
  validateUri : string -> option ExpectType -> Result unit;
  getFullDidUri : string -> string;
  (** [toChain]: the identifier under which the chain stores a DID *)
  toChain : string -> string;
  decodeMultikeyVerificationMethod :
    VerificationMethod -> Result DecodedVerificationMethod;
  encodeVerificationMethodToMultiKey :
    string -> string -> DecodedVerificationMethod -> VerificationMethod;
  getAddressByVerificationMethod : VerificationMethod -> string;
  validateNewService : Service -> Result unit;
  encryptionKeyTypes : list DidKeyType;
  (** [linkedInfoFromChain] of [Did2.rpc]; only the [document] of its
      result is read *)
  linkedInfoFromChain : option RawDidLinkedInfo -> Result DidDocument
}.

(** What [DidResolverV2.ts] imports to write a document out. *)
Class Representations : Type := {
  W3C_DID_CONTEXT_URL : string;
  KILT_DID_CONTEXT_URL : string;
  (** [Buffer.from(JSON.stringify(doc))], the document optionally
      extended with ["@context"] *)
  JSON_stringify : DidDocument -> option (list string) -> Bytes;
  (** [Buffer.from(cbor.encode(value))] *)
  cbor_encode_resource : Resource -> Bytes
}.

(** What [PublicCredential.chain.ts] imports. *)
Class CredentialUtils : Type := {
  (** [decode] of the [cbor] package *)
  cborDecode : Bytes -> Result Json;
  (** [validateUri] of [@kiltprotocol/asset-did] *)
  validateAssetUri : string -> Result unit;
  (** [fromChain] of [@kiltprotocol/did] *)
  didFromChain : string -> string;
  (** [getIdForCredential] of [PublicCredential.ts] *)
  getIdForCredential : IPublicCredentialInput -> string -> string
}.

(** Modelled from the spec: [fragmentIdToChain] of [Did2.chain] is
    missing; the spec says that service ids are stripped of their DID-URL
    fragment prefix before serialization. *)
Definition fragmentIdToChain (id : string) : string :=
  match id with
  | String "#"%char rest => rest
  | _ => id
  end.

(* ================================================================== *)
(** * LightDidDetailsV2.ts *)
(* ================================================================== *)

Module LightDid.
Section LightDid.
Context {codecs : Codecs} {utils : DidUtils}.

Definition authenticationKeyId : string := "#authentication".
Definition encryptionKeyId : string := "#encryption".

(** The record [verificationKeyTypeToLightDidEncoding]; a key type
    without an entry reads [undefined]. *)
Definition verificationKeyTypeToLightDidEncoding (k : DidKeyType)
  : option string :=
  match k with
  | sr25519 => Some "00"
  | ed25519 => Some "01"
  | _ => None
  end.

(** The record [lightDidEncodingToVerificationKeyType]. *)
Definition lightDidEncodingToVerificationKeyType (e : string)
  : option DidKeyType :=
  if String.eqb e "00" then Some sr25519
  else if String.eqb e "01" then Some ed25519
  else None.

Definition reservedServiceId (id : string) : bool :=
  String.eqb id "#authentication" || String.eqb id "#encryption".

Definition validateCreateDocumentInput (input : CreateDocumentInput)
  : Result unit :=
  (auth <- decodeMultikeyVerificationMethod (in_authentication input) ;;
   match verificationKeyTypeToLightDidEncoding (keyType auth) with
   | None => Throw (UnsupportedKeyError (vm_type (in_authentication input)))
   | Some _ =>
       match in_keyAgreement input with
       | Some key =>
           ka <- decodeMultikeyVerificationMethod key ;;
           if existsb (DidKeyType_eqb (keyType ka)) encryptionKeyTypes
           then Ok tt
           else Throw (DidError ("Encryption key type "
                                 ++ quoted (keyTypeName (keyType ka))
                                 ++ " is not supported"))
       | None => Ok tt
       end ;;;
       match in_service input with
       | Some services =>
           forEach (fun s =>
             if reservedServiceId (svc_id s)
             then Throw (DidError ("Cannot specify a service ID with the name "
                                   ++ quoted (svc_id s)
                                   ++ " as it is a reserved keyword"))
             else validateNewService s) services
       | None => Ok tt
       end
   end)%R.

(** [({ id, ...rest }) => ({ id: fragmentIdToChain(id), ...rest })] *)
Definition serializeService (s : Service) : SerializedService :=
  {| ss_id := fragmentIdToChain (svc_id s);
     ss_type := svc_type s;
     ss_serviceEndpoint := serviceEndpoint s;
     ss_types := None;
     ss_urls := None |}.

Definition serializationVersion : byte := x00.

(** The [objectToSerialize] that [serializeAdditionalLightDidDetails]
    fills: key ['e'] if there is a key-agreement key, key ['s'] if there
    is at least one service. *)
Definition objectToSerialize
  (keyAgreement : option VerificationMethod) (service : option (list Service))
  : SerializableStructure :=
  {| ser_e := keyAgreement;
     ser_s := match service with
              | Some (s :: rest) => Some (map serializeService (s :: rest))
              | _ => None
              end |}.

Definition serializeAdditionalLightDidDetails
  (keyAgreement : option VerificationMethod) (service : option (list Service))
  : option string :=
  let o := objectToSerialize keyAgreement service in
  match ser_e o, ser_s o with
  | None, None => None        (* [Object.keys(objectToSerialize).length === 0] *)
  | _, _ =>
      let serialized := cbor_encode o in
      Some (base58Encode (serializationVersion :: serialized))
  end.

(** [({ id, type, serviceEndpoint, types, urls }) => ...] *)
Definition deserializeService (s : SerializedService) : Service :=
  {| svc_id := "#" ++ ss_id s;
     svc_type := nullish (ss_type s) (ss_types s);
     serviceEndpoint := nullish (ss_serviceEndpoint s) (ss_urls s) |}.

(** [version] is [undefined] when the caller has none; the default
    parameter value is 1.  [decoded[0]] of an empty array is [undefined],
    which is not [0x0] either. *)
Definition deserializeAdditionalLightDidDetails
  (rawInput : string) (version : option nat)
  : Result (option VerificationMethod * option (list Service)) :=
  let version := match version with Some v => v | None => 1 end in
  if negb (Nat.eqb version 1)
  then Throw (DidError "Serialization version not supported")
  else
    (decoded <- base58Decode rawInput ;;
     match decoded with
     | x00 :: serialized =>
         deserialized <- cbor_decode serialized ;;
         Ok (ser_e deserialized,
             option_map (map deserializeService) (ser_s deserialized))
     | _ => Throw (DidError "Serialization algorithm not supported")
     end)%R.

Definition createLightDidDocument (input : CreateDocumentInput)
  : Result DidDocument :=
  (validateCreateDocumentInput input ;;;
   let encodedDetails :=
     serializeAdditionalLightDidDetails (in_keyAgreement input)
                                        (in_service input) in
   auth <- decodeMultikeyVerificationMethod (in_authentication input) ;;
   (* a key type without an encoding would print as "undefined", but
      validateCreateDocumentInput has thrown for it *)
   let authenticationKeyTypeEncoding :=
     match verificationKeyTypeToLightDidEncoding (keyType auth) with
     | Some e => e
     | None => "undefined"
     end in
   let address := getAddressByVerificationMethod (in_authentication input) in
   (* [encodedDetails ? `:${encodedDetails}` : ''] *)
   let encodedDetailsString :=
     match encodedDetails with
     | None | Some EmptyString => ""
     | Some d => ":" ++ d
     end in
   let uri := "did:kilt:light:" ++ authenticationKeyTypeEncoding
                ++ address ++ encodedDetailsString in
   let did :=
     {| doc_id := uri;
        authentication := Some [authenticationKeyId];
        verificationMethod :=
          Some [encodeVerificationMethodToMultiKey uri authenticationKeyId
                  {| keyType := keyType auth; publicKey := publicKey auth |}];
        keyAgreement := None;
        assertionMethod := None;
        capabilityDelegation := None;
        service := in_service input |} in
   match in_keyAgreement input with
   | Some key =>
       ka <- decodeMultikeyVerificationMethod key ;;
       Ok {| doc_id := uri;
             authentication := authentication did;
             verificationMethod :=
               option_map (fun vms => (vms ++
                 [encodeVerificationMethodToMultiKey uri encryptionKeyId
                    {| keyType := keyType ka; publicKey := publicKey ka |}])%list)
                 (verificationMethod did);
             keyAgreement := Some [encryptionKeyId];
             assertionMethod := None;
             capabilityDelegation := None;
             service := service did |}
   | None => Ok did
   end)%R.

Definition parseDocumentFromLightDid
  (uri : string) (failIfFragmentPresent : bool) : Result DidDocument :=
  (p <- parse uri ;;
   match p_type p with
   | full =>
       Throw (DidError ("Cannot build a light DID from the provided URI "
                        ++ quoted uri
                        ++ " because it does not refer to a light DID"))
   | light =>
       if truthy (p_fragment p) && failIfFragmentPresent
       then Throw (DidError ("Cannot build a light DID from the provided URI "
                             ++ quoted uri ++ " because it has a fragment"))
       else
         (* [authKeyTypeEncoding && table[authKeyTypeEncoding]]; parse
            yields either no encoding or two digits, never the empty
            string *)
         let keyType :=
           match p_authKeyTypeEncoding p with
           | Some e => lightDidEncodingToVerificationKeyType e
           | None => None
           end in
         match keyType with
         | None =>
             Throw (DidError ("Authentication key encoding "
                              ++ quoted (match p_authKeyTypeEncoding p with
                                         | Some e => e
                                         | None => "undefined"
                                         end)
                              ++ " does not match any supported key type"))
         | Some keyType =>
             publicKey <- decodeAddress (p_address p) ;;
             let authentication :=
               encodeVerificationMethodToMultiKey uri authenticationKeyId
                 {| keyType := keyType; publicKey := publicKey |} in
             match p_encodedDetails p with
             | None | Some EmptyString =>       (* [!encodedDetails] *)
                 createLightDidDocument
                   {| in_authentication := authentication;
                      in_keyAgreement := None;
                      in_service := None |}
             | Some encodedDetails =>
                 d <- deserializeAdditionalLightDidDetails
                        encodedDetails (p_version p) ;;
                 createLightDidDocument
                   {| in_authentication := authentication;
                      in_keyAgreement := fst d;
                      in_service := snd d |}
             end
         end
   end)%R.

End LightDid.
End LightDid.

(* ================================================================== *)
(** * DidResolverV2.ts *)
(* ================================================================== *)

Module Resolver.
Import LightDid.
Section Resolver.
Context {codecs : Codecs} {utils : DidUtils} {repr : Representations}.
Variable api : ChainApi.

Definition DID_JSON : string := "application/did+json".
Definition DID_JSON_LD : string := "application/did+ld+json".
Definition DID_CBOR : string := "application/did+cbor".

(** [accept] is [undefined] when the caller's options leave it out. *)
Definition isValidContentType (input : option string) : bool :=
  match input with
  | Some s => String.eqb s DID_JSON || String.eqb s DID_JSON_LD
              || String.eqb s DID_CBOR
  | None => false
  end.

Definition isFull (t : DidType) : bool :=
  match t with full => true | light => false end.

Definition isSome {A} (o : option A) : bool :=
  match o with Some _ => true | None => false end.

(** The document-lookup step:
    [api.call.did.query(toChain(did)).then(linkedInfoFromChain)
       .catch(() => ({ document: undefined }))] *)
Definition lookupDocument (did : string) : Chain (option DidDocument) :=
  catch
    (raw <- send (QueryDid (toChain did)) (call_did_query api (toChain did)) ;;
     doc <- liftR (linkedInfoFromChain raw) ;;
     cret (Some doc))%C
    (fun _ => cret None).

(** [{ id: did }] *)
Definition idOnlyDocument (did : string) : DidDocument :=
  {| doc_id := did;
     authentication := None;
     verificationMethod := None;
     keyAgreement := None;
     assertionMethod := None;
     capabilityDelegation := None;
     service := None |}.

(** The part of [resolveInternal] that follows the document lookup. *)
Definition resolveWithDocument
  (did : string) (type : DidType) (document : option DidDocument)
  : Chain (option InternalResolutionResult) :=
  if isFull type && isSome document
  then cret (Some {| document := document;
                     documentMetadata := emptyDocumentMetadata |})
  else
    (blacklisted <- send (QueryDidBlacklist (toChain did))
                         (query_did_didBlacklist api (toChain did)) ;;
     let isFullDidDeleted := isSome blacklisted in
     if isFullDidDeleted
     then cret (Some {| document := None;
                        documentMetadata :=
                          {| deactivated := Some true;
                             canonicalId := None |} |})
     else
       match type with
       | full => cret None
       | light =>
           lightDocument <- liftR (parseDocumentFromLightDid did false) ;;
           match document with
           | Some _ =>
               cret (Some {| document := Some (idOnlyDocument did);
                             documentMetadata :=
                               {| deactivated := None;
                                  canonicalId := Some (getFullDidUri did) |} |})
           | None =>
               cret (Some {| document := Some lightDocument;
                             documentMetadata := emptyDocumentMetadata |})
           end
       end)%C.

Definition resolveInternal (did : string)
  : Chain (option InternalResolutionResult) :=
  (p <- liftR (parse did) ;;
   document <- lookupDocument did ;;
   resolveWithDocument did (p_type p) document)%C.

Definition resolve (did : string) : Chain ResolutionResult :=
  match validateUri did (Some ExpectDid) with
  | Throw _ =>
      cret {| didResolutionMetadata := Some invalidDid;
              didDocumentMetadata := emptyDocumentMetadata;
              didDocument := None |}
  | Ok _ =>
      (resolutionResult <- resolveInternal did ;;
       match resolutionResult with
       | None =>
           cret {| didResolutionMetadata := Some notFound;
                   didDocumentMetadata := emptyDocumentMetadata;
                   didDocument := None |}
       | Some r =>
           cret {| didResolutionMetadata := None;
                   didDocumentMetadata := documentMetadata r;
                   didDocument := document r |}
       end)%C
  end.

(** The type guard [isValidContentType(accept)]: past it, [accept] is
    one of the three supported media types. *)
Definition supportedContentType (accept : option string) : option string :=
  if isValidContentType accept then accept else None.

Definition resolveRepresentation (did : string) (accept : option string)
  : Chain RepresentationResolutionResult :=
  match supportedContentType accept with
  | None =>
      cret {| rr_didResolutionMetadata := Some representationNotSupported;
              rr_didDocumentMetadata := emptyDocumentMetadata;
              didDocumentStream := None |}
  | Some accept =>
      (r <- resolve did ;;
       match didDocument r with
       | None =>
           cret {| rr_didResolutionMetadata := didResolutionMetadata r;
                   rr_didDocumentMetadata := didDocumentMetadata r;
                   didDocumentStream := None |}
       | Some didDocument =>
           let bufferInput :=
             if String.eqb accept DID_JSON
             then JSON_stringify didDocument None
             else if String.eqb accept DID_JSON_LD
             then JSON_stringify didDocument
                    (Some [W3C_DID_CONTEXT_URL; KILT_DID_CONTEXT_URL])
             else cbor_encode_resource (ResDocument didDocument) in
           cret {| rr_didResolutionMetadata := didResolutionMetadata r;
                   rr_didDocumentMetadata := didDocumentMetadata r;
                   didDocumentStream := Some bufferInput |}
       end)%C
  end.

(** [didDocument?.verificationMethod.find((m) => m.id === fragment)]:
    only [didDocument] is guarded, so a document without
    [verificationMethod] makes [.find] a [TypeError]. *)
Definition findVerificationMethod
  (didDocument : option DidDocument) (fragment : string)
  : Result (option VerificationMethod) :=
  match didDocument with
  | None => Ok None
  | Some d =>
      match verificationMethod d with
      | None => Throw (TypeError
                         "Cannot read properties of undefined (reading 'find')")
      | Some ms => Ok (find (fun m => String.eqb (vm_id m) fragment) ms)
      end
  end.

(** [didDocument?.service?.find((s) => s.id === fragment)] *)
Definition findService
  (didDocument : option DidDocument) (fragment : string) : option Service :=
  match didDocument with
  | None => None
  | Some d =>
      match service d with
      | None => None
      | Some ss => find (fun s => String.eqb (svc_id s) fragment) ss
      end
  end.

Definition dereferenceInternal (didUrl : string)
  : Chain InternalDereferenceResult :=
  (p <- liftR (parse didUrl) ;;
   r <- resolve (p_did p) ;;
   match p_fragment p with
   | None =>
       cret {| i_contentStream := option_map ResDocument (didDocument r);
               i_contentMetadata := didDocumentMetadata r |}
   | Some fragment =>
       verificationMethod <- liftR (findVerificationMethod (didDocument r)
                                                           fragment) ;;
       let dereferencedResource :=
         match verificationMethod with
         | Some m => Some (ResVerificationMethod m)
         | None => option_map ResService (findService (didDocument r) fragment)
         end in
       cret {| i_contentStream := dereferencedResource;
               i_contentMetadata := emptyDocumentMetadata |}
   end)%C.

Definition dereference (didUrl : string) (accept : option string)
  : Chain DereferenceResult :=
  (* [isValidContentType(accept) ? accept : DID_JSON] *)
  let contentType :=
    match supportedContentType accept with
    | Some accept => accept
    | None => DID_JSON
    end in
  match validateUri didUrl None with
  | Throw _ =>
      cret {| dereferencingMetadata :=
                {| dm_error := Some invalidDidUrl; dm_contentType := None |};
              contentMetadata := emptyDocumentMetadata;
              contentStream := None |}
  | Ok _ =>
      (resolutionResult <- dereferenceInternal didUrl ;;
       match i_contentStream resolutionResult with
       | None =>
           cret {| dereferencingMetadata :=
                     {| dm_error := Some notFound; dm_contentType := None |};
                   contentMetadata := i_contentMetadata resolutionResult;
                   contentStream := None |}
       | Some contentStream =>
           let stream :=
             if String.eqb contentType DID_JSON
             then Plain contentStream
             else if String.eqb contentType DID_JSON_LD
             then WithContext contentStream
                    [W3C_DID_CONTEXT_URL; KILT_DID_CONTEXT_URL]
             else CborBuffer (cbor_encode_resource contentStream) in
           cret {| dereferencingMetadata :=
                     {| dm_error := None; dm_contentType := Some contentType |};
                   contentMetadata := i_contentMetadata resolutionResult;
                   contentStream := Some stream |}
       end)%C
  end.

End Resolver.
End Resolver.

(* ================================================================== *)
(** * PublicCredential.chain.ts *)
(* ================================================================== *)

Module PublicCredential.
Section PublicCredential.
Context {cutils : CredentialUtils}.
Variable api : ChainApi.

(** Flatten any nested batch calls into a single list of calls. *)
Fixpoint flattenCalls (call : Call) : list Call :=
  match call with
  | Utility _ calls => flat_map flattenCalls calls
  | _ => [call]
  end.

(** It throws if what was written on the chain was garbage. *)
Definition credentialInputFromChain (c : EncodedCredential)
  : Result IPublicCredentialInput :=
  (let credentialSubject := ec_subject c in
   validateAssetUri credentialSubject ;;;
   decoded <- cborDecode (ec_claims c) ;;
   Ok {| claims := decoded;
         cTypeHash := ec_ctypeHash c;
         delegationId := ec_authorization c;
         subject := credentialSubject |})%R.

(** [api.events.publicCredentials.CredentialStored.is(event) &&
     event.data[1].toString() === credentialId] *)
Definition storesCredential (credentialId : string) (event : Event) : bool :=
  match event with
  | CredentialStored _ id => String.eqb id credentialId
  | OtherEvent _ => false
  end.

Definition isNone {A} (o : option A) : bool :=
  match o with Some _ => false | None => true end.

Definition retrievePublicCredentialCreationExtrinsicFromBlock
  (credentialId : string) (blockNumber : N) : Chain (option Call) :=
  (block <- send (QueryBlockByNumber blockNumber)
                 (derive_chain_getBlockByNumber api blockNumber) ;;
   let successfulExtrinsics :=
     filter (fun tx => isNone (dispatchError tx)) (extrinsics block) in
   let lastPublicCredentialCreationExtrinsic :=
     find (fun tx => existsb (storesCredential credentialId) (events tx))
          (rev successfulExtrinsics) in
   cret (option_map extrinsic lastPublicCredentialCreationExtrinsic))%C.

(** The [publicCredentials.add] calls of a flattened call, each given by
    its argument [args[0]]. *)
Definition extractPublicCredentialCreationCallsFromDidCall (call : Call)
  : list EncodedCredential :=
  flat_map (fun c => match c with
                     | PublicCredentialsAdd credential => [credential]
                     | _ => []
                     end)
           (flattenCalls call).

(** The [did.submitDidCall] calls of a flattened call, each given by the
    [did] and the [call] of its argument [args[0]]. *)
Definition extractDidCallsFromBatchCall (call : Call) : list (string * Call) :=
  flat_map (fun c => match c with
                     | SubmitDidCall did inner => [(did, inner)]
                     | _ => []
                     end)
           (flattenCalls call).

Definition decimal (n : N) : string :=
  DecimalString.NilZero.string_of_uint (N.to_uint n).

(** The two branches of [credentialFromChain] that look for the
    credential inside the extrinsic; the result is the pair
    [(credentialInput, submitter)]. *)
Definition findCredentialInExtrinsic (credentialId : string) (extrinsic : Call)
  : Result (option IPublicCredentialInput * option string) :=
  match extrinsic with
  | SubmitDidCall did call =>
      let credentialCreationCalls :=
        extractPublicCredentialCreationCallsFromDidCall call in
      let extrinsicDidOrigin := didFromChain did in
      (callCredentialsContent <-
         mapR credentialInputFromChain credentialCreationCalls ;;
       let lastRightCredentialCreationCall :=
         find (fun c =>
                 let reconstructedId :=
                   getIdForCredential c extrinsicDidOrigin in
                 String.eqb reconstructedId credentialId)
              (rev callCredentialsContent) in
       Ok (lastRightCredentialCreationCall, Some extrinsicDidOrigin))%R
  | Utility _ calls =>
      let didCalls := flat_map extractDidCallsFromBatchCall calls in
      let credentialCreationCalls :=
        flat_map (fun didCall =>
                    let publicCredentialCalls :=
                      extractPublicCredentialCreationCallsFromDidCall
                        (snd didCall) in
                    map (fun c => (c, didFromChain (fst didCall)))
                        publicCredentialCalls)
                 didCalls in
      (callCredentialsContent <-
         mapR (fun cs => c <- credentialInputFromChain (fst cs) ;;
                         Ok (c, snd cs))
              credentialCreationCalls ;;
       let lastRightCredentialCreationCall :=
         find (fun cs =>
                 let reconstructedId :=
                   getIdForCredential (fst cs) (snd cs) in
                 String.eqb reconstructedId credentialId)
              (rev callCredentialsContent) in
       Ok (option_map fst lastRightCredentialCreationCall,
           option_map snd lastRightCredentialCreationCall))%R
  | _ =>
      Throw (PublicCredentialError
               "Extrinsic should be either a `did.submitDidCall` extrinsic or a batch with at least a `did.submitDidCall` extrinsic")
  end.

Definition credentialFromChain
  (credentialId : string) (publicCredentialEntry : option CredentialEntry)
  : Chain IPublicCredential :=
  match publicCredentialEntry with
  | None => cthrow (ForeignError "Option: unwrapping a None value")
  | Some entry =>
      (extrinsic <- retrievePublicCredentialCreationExtrinsicFromBlock
                      credentialId (blockNumber entry) ;;
       match extrinsic with
       | None =>
           cthrow (PublicCredentialError
             ("The block number as specified in the provided credential entry ("
              ++ decimal (blockNumber entry)
              ++ ") does not have any extrinsic that includes a credential creation."))
       | Some extrinsic =>
           found <- liftR (findCredentialInExtrinsic credentialId extrinsic) ;;
           match found with
           | (Some credentialInput, Some submitter) =>
               cret {| pc_claims := claims credentialInput;
                       pc_cTypeHash := cTypeHash credentialInput;
                       pc_delegationId := delegationId credentialInput;
                       pc_subject := subject credentialInput;
                       pc_attester := submitter;
                       pc_id := getIdForCredential credentialInput submitter;
                       pc_blockNumber := blockNumber entry;
                       pc_revoked := revoked entry |}
           | _ =>
               cthrow (PublicCredentialError
                 "Block should always contain the full credential, eventually.")
           end
       end)%C
  end.

End PublicCredential.
End PublicCredential.

(* ================================================================== *)
(** * PublicCredential.chain.ts: toChain and credentialsFromChain *)
(* ================================================================== *)

(** [encode] of the [cbor] package on claims. *)
Class CredentialEncoders : Type := {
  cborEncode : Json -> Bytes
}.

(** [EncodedPublicCredential] *)
Record EncodedPublicCredential : Type := {
  epc_ctypeHash : string;
  epc_subject : string;
  epc_claims : string;
  epc_authorization : option string
}.

(** polkadot's [Result] codec with its [isErr], [asErr] and [asOk]. *)
Inductive CodecResult (A E : Type) : Type :=
| IsOk (asOk : A)
| IsErr (asErr : E).
Arguments IsOk {A E} asOk.
Arguments IsErr {A E} asErr.

(** How a call of [credentialsFromChain] goes on: it throws
    [new Error(message)] at once, or it hands to [Promise.all] one
    reconstruction per entry, each of which settles in a credential or
    in an exception. *)
Inductive CredentialsFromChain : Type :=
| ErrorThrown (message : string)
| Reconstructions (outcomes : list (Result IPublicCredential)).

Module PublicCredentialChain.
Import PublicCredential.

Definition hexDigit (n : N) : ascii :=
  match n with
  | 0 => "0" | 1 => "1" | 2 => "2" | 3 => "3" | 4 => "4" | 5 => "5"
  | 6 => "6" | 7 => "7" | 8 => "8" | 9 => "9" | 10 => "a" | 11 => "b"
  | 12 => "c" | 13 => "d" | 14 => "e" | _ => "f"
  end%N%char.

(** [buffer.toString('hex')]: two lower-case digits per byte. *)
Fixpoint toStringHex (buffer : Bytes) : string :=
  match buffer with
  | [] => ""
  | b :: rest =>
      String (hexDigit (Byte.to_N b / 16))
        (String (hexDigit (Byte.to_N b mod 16)) (toStringHex rest))
  end.

Section PublicCredentialChain.
Context {cutils : CredentialUtils} {cencoders : CredentialEncoders}.
Variable api : ChainApi.

Definition toChain (publicCredential : IPublicCredentialInput)
  : EncodedPublicCredential :=
  let cborSerializedClaims := cborEncode (claims publicCredential) in
  {| epc_ctypeHash := cTypeHash publicCredential;
     epc_subject := subject publicCredential;
     epc_claims := "0x" ++ toStringHex cborSerializedClaims;
     epc_authorization := delegationId publicCredential |}.

(** The promises [publicCredentialEntries.asOk.map(...)] creates, run to
    their ends.  Every reconstruction sends its block query when it is
    created, so that the queries are logged in the order of the
    entries. *)
Fixpoint settleAll {A} (promises : list (Chain A))
  : list Query -> list (Result A) * list Query :=
  match promises with
  | [] => fun log => ([], log)
  | promise :: rest =>
      fun log =>
        let (outcome, log1) := promise log in
        let (outcomes, log2) := settleAll rest log1 in
        (outcome :: outcomes, log2)
  end.

(** [api.createType('Option<...>', encodedCredentialEntry)] is
    [Some encodedCredentialEntry]; [encodedId.toHex()] is the id as the
    hex text that models it. *)
Definition credentialsFromChain
  (publicCredentialEntries
     : CodecResult (list (string * CredentialEntry)) string)
  : list Query -> CredentialsFromChain * list Query :=
  match publicCredentialEntries with
  | IsErr asErr => fun log => (ErrorThrown asErr, log)
  | IsOk asOk =>
      fun log =>
        let (outcomes, log') :=
          settleAll
            (map (fun idAndEntry =>
                    credentialFromChain api (fst idAndEntry)
                                        (Some (snd idAndEntry)))
                 asOk)
            log in
        (Reconstructions outcomes, log')
  end.

End PublicCredentialChain.
End PublicCredentialChain.

(* ================================================================== *)
(** * The DID chain queries of the earlier SDK *)
(* ================================================================== *)

(** [queryEncoded], [decodePublicKey], [decodeEndpointUrl], [queryById]
    and [queryByDID] of the DID module that reads [api.query.did.did]. *)
Module DidChain.

(** [PublicVerificationKey] and [PublicEncryptionKey]: the variant name
    and the key bytes. *)
Record PublicKey : Type := {
  key_type : string;
  key_value : Bytes
}.

(** [TypedPublicKey] *)
Record TypedPublicKey : Type := {
  tpk_type : string;
  publicKeyHex : string
}.

(** An entry of [verification_keys]: the key id with its details. *)
Record VerificationKeyEntry : Type := {
  entry_keyId : Bytes;
  entry_verification_key : PublicKey;
  entry_block_number : N
}.

(** [DidDetails] of the chain. *)
Record DidDetails : Type := {
  auth_key : PublicKey;
  key_agreement_key : PublicKey;
  delegation_key : option PublicKey;
  attestation_key : option PublicKey;
  verification_keys : list VerificationKeyEntry;
  endpoint_url : option string;
  last_tx_counter : N
}.

(** [KeyDetails] *)
Record KeyDetails : Type := {
  kd_type : string;
  kd_publicKeyHex : string;
  kd_id : string;
  kd_includedAt : N
}.

(** [IDidRecord] *)
Record IDidRecord : Type := {
  r_did : string;
  r_auth_key : TypedPublicKey;
  r_key_agreement_key : TypedPublicKey;
  r_verification_keys : list KeyDetails;
  r_last_tx_counter : N;
  r_endpoint_url : option string;
  r_delegation_key : option TypedPublicKey;
  r_attestation_key : option TypedPublicKey
}.

Section DidChain.
(** [blockchain.api.query.did.did], the codec methods [toHex] and
    [toNumber], and the two functions of [Did.utils]. *)
Variable query_did_did : string -> Result (option DidDetails).
Variable toHex : Bytes -> string.
Variable toNumber : N -> Result N.
Variable getDidFromIdentifier : string -> Result string.
Variable getIdentifierFromDid : string -> Result string.

Definition queryEncoded (did_identifier : string)
  : Result (option DidDetails) :=
  query_did_did did_identifier.

Definition decodePublicKey (key : PublicKey) : TypedPublicKey :=
  {| tpk_type := key_type key;
     publicKeyHex := toHex (key_value key) |}.

(** [(url.value as UrlEncoding).payload.toString()]; the URL is kept as
    its payload text. *)
Definition decodeEndpointUrl (url : string) : string := url.

Definition queryById (did_identifier : string) : Result (option IDidRecord) :=
  (result <- queryEncoded did_identifier ;;
   match result with
   | Some didDetail =>
       verification_keys <-
         mapR (fun keyDetails =>
                 includedAt <- toNumber (entry_block_number keyDetails) ;;
                 let decoded :=
                   decodePublicKey (entry_verification_key keyDetails) in
                 Ok {| kd_type := tpk_type decoded;
                       kd_publicKeyHex := publicKeyHex decoded;
                       kd_id := toHex (entry_keyId keyDetails);
                       kd_includedAt := includedAt |})
              (verification_keys didDetail) ;;
       did <- getDidFromIdentifier did_identifier ;;
       last_tx_counter <- toNumber (last_tx_counter didDetail) ;;
       Ok (Some
             {| r_did := did;
                r_auth_key := decodePublicKey (auth_key didDetail);
                r_key_agreement_key := decodePublicKey (auth_key didDetail);
                r_verification_keys := verification_keys;
                r_last_tx_counter := last_tx_counter;
                r_endpoint_url :=
                  option_map decodeEndpointUrl (endpoint_url didDetail);
                r_delegation_key :=
                  option_map decodePublicKey (delegation_key didDetail);
                r_attestation_key :=
                  option_map decodePublicKey (attestation_key didDetail) |})
   | None => Ok None
   end)%R.

Definition queryByDID (did : string) : Result (option IDidRecord) :=
  (didId <- getIdentifierFromDid did ;;
   queryById didId)%R.

End DidChain.
End DidChain.

(* ================================================================== *)
(** * type-definitions: the type bundle *)
(* ================================================================== *)

Module TypeDefinitions.

(** An entry of [typeBundleForPolkadot.types]: [minmax] with its upper
    end [undefined] when open, and the name of the type set. *)
Record VersionedTypes : Type := {
  minmax_min : N;
  minmax_max : option N;
  types : string
}.

Definition typeBundleForPolkadot_types : list VersionedTypes :=
  [ {| minmax_min := 0; minmax_max := Some 8; types := "types8" |};
    {| minmax_min := 9; minmax_max := Some 9; types := "types9" |};
    {| minmax_min := 10; minmax_max := Some 11; types := "types10" |};
    {| minmax_min := 12; minmax_max := Some 16; types := "types12" |};
    {| minmax_min := 17; minmax_max := Some 17; types := "types17" |};
    {| minmax_min := 18; minmax_max := Some 18; types := "types18" |};
    {| minmax_min := 19; minmax_max := Some 19; types := "types19" |};
    {| minmax_min := 20; minmax_max := Some 20; types := "types20" |};
    {| minmax_min := 21; minmax_max := Some 22; types := "types21" |};
    {| minmax_min := 23; minmax_max := Some 24; types := "types23" |};
    {| minmax_min := 25; minmax_max := Some 2699; types := "types25" |};
    {| minmax_min := 2700; minmax_max := Some 10710; types := "types2700" |};
    {| minmax_min := 10720; minmax_max := Some 10899;
       types := "types10720" |};
    {| minmax_min := 10900; minmax_max := None; types := "types10900" |} ]%N.

(** [types10720 as latest] *)
Definition latest : string := "types10720".

End TypeDefinitions.

(* ================================================================== *)
(** * Vocabulary of the properties *)
(* ================================================================== *)

Section LightDidVocabulary.
Import LightDid.
Context {codecs : Codecs} {utils : DidUtils}.

(** The checks of [validateCreateDocumentInput] on the key-agreement key
    and on the services. *)
Definition checkKeyAgreement (keyAgreement : option VerificationMethod)
  : Result unit :=
  match keyAgreement with
  | Some key =>
      (ka <- decodeMultikeyVerificationMethod key ;;
       if existsb (DidKeyType_eqb (keyType ka)) encryptionKeyTypes
       then Ok tt
       else Throw (DidError ("Encryption key type "
                             ++ quoted (keyTypeName (keyType ka))
                             ++ " is not supported")))%R
  | None => Ok tt
  end.

Definition checkServices (services : option (list Service)) : Result unit :=
  match services with
  | Some services =>
      forEach (fun s =>
        if reservedServiceId (svc_id s)
        then Throw (DidError ("Cannot specify a service ID with the name "
                              ++ quoted (svc_id s)
                              ++ " as it is a reserved keyword"))
        else validateNewService s) services
  | None => Ok tt
  end.

(** The document [createLightDidDocument] builds once the input is
    valid. *)
Definition lightDidDocument
  (uri : string) (auth : DecodedVerificationMethod)
  (keyAgreement : option DecodedVerificationMethod)
  (services : option (list Service)) : DidDocument :=
  {| doc_id := uri;
     authentication := Some [authenticationKeyId];
     verificationMethod :=
       Some (encodeVerificationMethodToMultiKey uri authenticationKeyId auth
             :: match keyAgreement with
                | Some ka =>
                    [encodeVerificationMethodToMultiKey uri encryptionKeyId ka]
                | None => []
                end);
     keyAgreement := match keyAgreement with
                     | Some _ => Some [encryptionKeyId]
                     | None => None
                     end;
     assertionMethod := None;
     capabilityDelegation := None;
     service := services |}.

(** [`did:kilt:light:${encoding}${address}${encodedDetailsString}`] *)
Definition lightDidUri (encoding address : string)
  (encodedDetails : option string) : string :=
  "did:kilt:light:" ++ encoding ++ address
    ++ match encodedDetails with
       | None | Some EmptyString => ""
       | Some d => ":" ++ d
       end.

Definition decodeOptional (key : option VerificationMethod)
  : Result (option DecodedVerificationMethod) :=
  match key with
  | Some k => (d <- decodeMultikeyVerificationMethod k ;; Ok (Some d))%R
  | None => Ok None
  end.



(** An empty list of services reads back as no list. *)
Definition withoutEmptyServices (services : option (list Service))
  : option (list Service) :=
  match services with
  | Some [] => None
  | _ => services
  end.

Definition withoutEmptyServiceList (doc : DidDocument) : DidDocument :=
  {| doc_id := doc_id doc;
     authentication := authentication doc;
     verificationMethod := verificationMethod doc;
     keyAgreement := keyAgreement doc;
     assertionMethod := assertionMethod doc;
     capabilityDelegation := capabilityDelegation doc;
     service := withoutEmptyServices (service doc) |}.


End LightDidVocabulary.

(** The media types of the specification's list of supported
    representations. *)
Definition supportedMediaTypes : list string :=
  ["application/did+json"; "application/did+ld+json"; "application/did+cbor"].

(** [accept] names none of the supported media types. *)
Definition unsupportedAccept (accept : option string) : Prop :=
  forall a, accept = Some a -> ~ In a supportedMediaTypes.

Section ResolverVocabulary.
Import Resolver.
Context {utils : DidUtils}.
Variable api : ChainApi.

(** What the chain holds for a DID: the document that the linked-info
    query and its decoding yield, if both succeed. *)
Definition onChainDocument (did : string) : option DidDocument :=
  match call_did_query api (toChain did) with
  | Ok raw =>
      match linkedInfoFromChain raw with
      | Ok doc => Some doc
      | Throw _ => None
      end
  | Throw _ => None
  end.

Definition deactivatedResult : ResolutionResult :=
  {| didResolutionMetadata := None;
     didDocumentMetadata := {| deactivated := Some true; canonicalId := None |};
     didDocument := None |}.

Definition notFoundResult : ResolutionResult :=
  {| didResolutionMetadata := Some notFound;
     didDocumentMetadata := emptyDocumentMetadata;
     didDocument := None |}.

Definition invalidDidResult : ResolutionResult :=
  {| didResolutionMetadata := Some invalidDid;
     didDocumentMetadata := emptyDocumentMetadata;
     didDocument := None |}.

(** The answer to a migrated light DID. *)
Definition migratedResult (did : string) : ResolutionResult :=
  {| didResolutionMetadata := None;
     didDocumentMetadata :=
       {| deactivated := None; canonicalId := Some (getFullDidUri did) |};
     didDocument := Some (idOnlyDocument did) |}.

(** The queries [resolve] sends for a DID that passes validation and is
    not answered from the linked-info query alone. *)
Definition bothQueries (did : string) : list Query :=
  [QueryDid (toChain did); QueryDidBlacklist (toChain did)].

End ResolverVocabulary.

Section CredentialVocabulary.
Import PublicCredential.
Context {cutils : CredentialUtils}.

(** The candidate calls of an extrinsic, in call order, each with its
    authorizing DID: the [publicCredentials.add] calls under a
    [did.submitDidCall], either the extrinsic itself or one inside a
    (nested) batch.  Other extrinsics have none. *)
Definition candidateCalls (extrinsic : Call)
  : option (list (EncodedCredential * string)) :=
  match extrinsic with
  | SubmitDidCall did call =>
      Some (map (fun c => (c, didFromChain did))
                (extractPublicCredentialCreationCallsFromDidCall call))
  | Utility _ calls =>
      Some (flat_map
              (fun didCall =>
                 map (fun c => (c, didFromChain (fst didCall)))
                     (extractPublicCredentialCreationCallsFromDidCall
                        (snd didCall)))
              (flat_map extractDidCallsFromBatchCall calls))
  | _ => None
  end.

Definition decodeCandidate (candidate : EncodedCredential * string)
  : Result (IPublicCredentialInput * string) :=
  (c <- credentialInputFromChain (fst candidate) ;; Ok (c, snd candidate))%R.

Definition idMatches (credentialId : string)
  (candidate : IPublicCredentialInput * string) : bool :=
  String.eqb (getIdForCredential (fst candidate) (snd candidate)) credentialId.

(** [tx] is the extrinsic the block search settles on: the last
    successful one with a "credential stored" event for the id. *)
Definition isWinningExtrinsic
  (credentialId : string) (block : SignedBlockExtended) (tx : TxWithEvent)
  : Prop :=
  exists before after,
    extrinsics block = (before ++ tx :: after)%list
    /\ dispatchError tx = None
    /\ existsb (storesCredential credentialId) (events tx) = true
    /\ forall tx', In tx' after -> dispatchError tx' = None ->
                   existsb (storesCredential credentialId) (events tx') = false.

(** No successful extrinsic of the block has a "credential stored" event
    for the id. *)
Definition noWinningExtrinsic
  (credentialId : string) (block : SignedBlockExtended) : Prop :=
  forall tx, In tx (extrinsics block) -> dispatchError tx = None ->
             existsb (storesCredential credentialId) (events tx) = false.

Definition winnerOf (credentialId : string) (block : SignedBlockExtended)
  (winner : option TxWithEvent) : Prop :=
  match winner with
  | Some tx => isWinningExtrinsic credentialId block tx
  | None => noWinningExtrinsic credentialId block
  end.

(** Every candidate call carries a payload that decodes. *)
Definition allDecode (candidates : list (EncodedCredential * string)) : Prop :=
  forall candidate, In candidate candidates ->
                    exists input, credentialInputFromChain (fst candidate)
                                  = Ok input.

(** [(c, attester)] is the last candidate whose recomputed identifier is
    [credentialId]; [input] is its decoded payload. *)
Definition isLastMatch (credentialId : string)
  (candidates : list (EncodedCredential * string))
  (c : EncodedCredential) (attester : string) (input : IPublicCredentialInput)
  : Prop :=
  exists before after,
    candidates = (before ++ (c, attester) :: after)%list
    /\ credentialInputFromChain c = Ok input
    /\ getIdForCredential input attester = credentialId
    /\ forall c' attester' input',
         In (c', attester') after ->
         credentialInputFromChain c' = Ok input' ->
         getIdForCredential input' attester' <> credentialId.

(** No candidate call of the extrinsic has a recomputed identifier equal
    to [credentialId]. *)
Definition noCandidateMatches (credentialId : string) (extrinsic : Call)
  : Prop :=
  forall candidates c attester input,
    candidateCalls extrinsic = Some candidates ->
    In (c, attester) candidates ->
    credentialInputFromChain c = Ok input ->
    getIdForCredential input attester <> credentialId.

(** The credential assembled from a decoded payload, its attester and
    the commitment entry. *)
Definition assembled (input : IPublicCredentialInput) (attester : string)
  (entry : CredentialEntry) : IPublicCredential :=
  {| pc_claims := claims input;
     pc_cTypeHash := cTypeHash input;
     pc_delegationId := delegationId input;
     pc_subject := subject input;
     pc_attester := attester;
     pc_id := getIdForCredential input attester;
     pc_blockNumber := blockNumber entry;
     pc_revoked := revoked entry |}.

End CredentialVocabulary.

Section CredentialChainVocabulary.
Import PublicCredential.
Context {cutils : CredentialUtils}.

(** The calls [flattenCalls] unfolds. *)
Definition isBatch (call : Call) : bool :=
  match call with Utility _ _ => true | _ => false end.

Definition isDidCall (call : Call) : bool :=
  match call with SubmitDidCall _ _ => true | _ => false end.

(** What [credentialFromChain] reads from the result of the search: the
    credential when both the input and the submitter are there. *)
Definition foundCredential
  (found : Result (option IPublicCredentialInput * option string))
  : Result (option (IPublicCredentialInput * string)) :=
  match found with
  | Ok (Some credentialInput, Some submitter) =>
      Ok (Some (credentialInput, submitter))
  | Ok _ => Ok None
  | Throw e => Throw e
  end.

(** The values of the outcomes when every one of them is fulfilled. *)
Fixpoint allFulfilled {A} (outcomes : list (Result A)) : option (list A) :=
  match outcomes with
  | [] => Some []
  | Ok a :: rest => option_map (cons a) (allFulfilled rest)
  | Throw _ :: _ => None
  end.

(** [Promise.all]: fulfilled with every value, in the order of the
    promises, when all are fulfilled; rejected with the reason of one of
    the rejected promises otherwise. *)
Definition PromiseAll {A} (outcomes : list (Result A))
  (result : Result (list A)) : Prop :=
  match allFulfilled outcomes with
  | Some values => result = Ok values
  | None => exists e, In (Throw e) outcomes /\ result = Throw e
  end.

Definition hexValue (digit : ascii) : option N :=
  let code := N_of_ascii digit in
  if (48 <=? code)%N && (code <=? 57)%N then Some (code - 48)%N
  else if (97 <=? code)%N && (code <=? 102)%N then Some (code - 87)%N
  else None.

(** The bytes a text of lower-case hex digits stands for. *)
Fixpoint hexToBytes (text : string) : option Bytes :=
  match text with
  | "" => Some []
  | String high (String low rest) =>
      match hexValue high, hexValue low, hexToBytes rest with
      | Some h, Some l, Some bytes =>
          option_map (fun b => b :: bytes) (Byte.of_N (16 * h + l))
      | _, _, _ => None
      end
  | String _ "" => None
  end.

(** The credential the chain stores when it is handed an
    [EncodedPublicCredential]: the hex text of the claims, after its
    [0x], read as bytes. *)
Definition asStoredOnChain
  (credential : EncodedPublicCredential) : option EncodedCredential :=
  match epc_claims credential with
  | String "0" (String "x" digits) =>
      option_map
        (fun bytes =>
           {| ec_ctypeHash := epc_ctypeHash credential;
              ec_subject := epc_subject credential;
              ec_claims := bytes;
              ec_authorization := epc_authorization credential |})
        (hexToBytes digits)
  | _ => None
  end.

End CredentialChainVocabulary.

Section TypeBundleVocabulary.
Import TypeDefinitions.

(** polkadot's reading of [minmax]: the entry serves the runtime
    versions from [min] to [max], all later ones when [max] is
    [undefined]. *)
Definition servesVersion (specVersion : N) (entry : VersionedTypes) : bool :=
  (minmax_min entry <=? specVersion)%N
  && match minmax_max entry with
     | Some max => (specVersion <=? max)%N
     | None => true
     end.

Definition typesOfVersion (specVersion : N) : list string :=
  map types (filter (servesVersion specVersion) typeBundleForPolkadot_types).

End TypeBundleVocabulary.

(* ================================================================== *)
(** * A concrete instance of the imported functions *)
(* ================================================================== *)

(** Stand-ins with the interfaces of the imported functions, on which the
    embedding runs: hexadecimal text in place of SS58, base58 and
    multibase, S-expression text in place of CBOR, and a chain given by
    the lists of its live DIDs, deleted DIDs and blocks. *)
Module Demo.

Definition hexDigit (n : N) : ascii :=
  match String.get (N.to_nat n) "0123456789abcdef" with
  | Some c => c
  | None => "0"%char
  end.

Definition hexValue (c : ascii) : option N :=
  let n := N_of_ascii c in
  if (48 <=? n)%N && (n <=? 57)%N then Some (n - 48)%N
  else if (97 <=? n)%N && (n <=? 102)%N then Some (n - 87)%N
  else None.

Fixpoint hexOfBytes (bs : Bytes) : string :=
  match bs with
  | [] => ""
  | b :: rest =>
      String (hexDigit (Byte.to_N b / 16))
        (String (hexDigit (Byte.to_N b mod 16)) (hexOfBytes rest))
  end.

Fixpoint bytesOfHex (s : string) : option Bytes :=
  match s with
  | "" => Some []
  | String hi (String lo rest) =>
      match hexValue hi, hexValue lo, bytesOfHex rest with
      | Some h, Some l, Some bs =>
          option_map (fun b => b :: bs) (Byte.of_N (16 * h + l))
      | _, _, _ => None
      end
  | _ => None
  end.

Definition bytesOfString (s : string) : Bytes :=
  map byte_of_ascii (list_ascii_of_string s).

Definition stringOfBytes (bs : Bytes) : string :=
  string_of_list_ascii (map ascii_of_byte bs).

Fixpoint stripPrefix (prefix s : string) : option string :=
  match prefix, s with
  | "", _ => Some s
  | String a prefix', String b s' =>
      if Ascii.eqb a b then stripPrefix prefix' s' else None
  | _, _ => None
  end.

(** The text before the first [c], and the text after it if there is
    one. *)
Fixpoint splitAt (c : ascii) (s : string) : string * option string :=
  match s with
  | "" => ("", None)
  | String a rest =>
      if Ascii.eqb a c then ("", Some rest)
      else let (before, after) := splitAt c rest in (String a before, after)
  end.

Definition isHexDigit (c : ascii) : bool :=
  match hexValue c with Some _ => true | None => false end.

Definition isAlphaNum (c : ascii) : bool :=
  let n := N_of_ascii c in
  ((48 <=? n)%N && (n <=? 57)%N) || ((65 <=? n)%N && (n <=? 90)%N)
  || ((97 <=? n)%N && (n <=? 122)%N).

Definition validAddress (address : string) : bool :=
  negb (String.eqb address "")
  && forallb isAlphaNum (list_ascii_of_string address).

Definition encodeAddress (key : Bytes) : string := "4" ++ hexOfBytes key.

Definition demoDecodeAddress (address : string) : Result Bytes :=
  match stripPrefix "4" address with
  | Some hex =>
      match bytesOfHex hex with
      | Some key => Ok key
      | None => Throw (ForeignError "Decoding address: invalid characters")
      end
  | None => Throw (ForeignError "Decoding address: invalid prefix")
  end.

Definition demoBase58Encode (bs : Bytes) : string := "z" ++ hexOfBytes bs.

Definition demoBase58Decode (text : string) : Result Bytes :=
  match stripPrefix "z" text with
  | Some hex =>
      match bytesOfHex hex with
      | Some bs => Ok bs
      | None => Throw (ForeignError "Invalid base58 character")
      end
  | None => Throw (ForeignError "Expected ipfs-compatible base58 to start with 'z'")
  end.

#[local] Instance Serialize_VerificationMethod : Serialize VerificationMethod :=
  fun m => [Atom "vm"; to_sexp (vm_id m); to_sexp (vm_controller m);
            to_sexp (vm_type m); to_sexp (publicKeyMultibase m)]%sexp.

#[local] Instance Deserialize_VerificationMethod
  : Deserialize VerificationMethod :=
  Deser.match_con "vm" [] [("vm", Deser.con4_ Build_VerificationMethod)].

#[local] Instance Serialize_SerializedService : Serialize SerializedService :=
  fun s => [Atom "svc"; to_sexp (ss_id s); to_sexp (ss_type s);
            to_sexp (ss_serviceEndpoint s); to_sexp (ss_types s);
            to_sexp (ss_urls s)]%sexp.

#[local] Instance Deserialize_SerializedService
  : Deserialize SerializedService :=
  Deser.match_con "svc" [] [("svc", Deser.con5_ Build_SerializedService)].

#[local] Instance Serialize_SerializableStructure
  : Serialize SerializableStructure :=
  fun o => [Atom "details"; to_sexp (ser_e o); to_sexp (ser_s o)]%sexp.

#[local] Instance Deserialize_SerializableStructure
  : Deserialize SerializableStructure :=
  Deser.match_con "details" []
    [("details", Deser.con2_ Build_SerializableStructure)].

Definition demoCborEncode (o : SerializableStructure) : Bytes :=
  bytesOfString (to_string o).

Definition demoCborDecode (bs : Bytes) : Result SerializableStructure :=
  match from_string (stringOfBytes bs) with
  | inr o => Ok o
  | inl _ => Throw (ForeignError "Failed to decode CBOR")
  end.

#[export] Instance demoCodecs : Codecs := {|
  decodeAddress := demoDecodeAddress;
  base58Encode := demoBase58Encode;
  base58Decode := demoBase58Decode;
  cbor_encode := demoCborEncode;
  cbor_decode := demoCborDecode
|}.

(** Modelled from the spec: [parse] of [Did2.utils] is missing; the spec
    gives the grammar
    [did:kilt:<light:ENC<identifier>[:DATA]|full:<identifier>>[#fragment]]
    with a two-hex-digit key-type code [ENC].  Identifiers are checked
    for their character set only. *)
Definition demoParse (uri : string) : Result ParsedUri :=
  let malformed := Throw (DidError ("Not a valid KILT DID " ++ quoted uri)) in
  let (body, afterHash) := splitAt "#" uri in
  let fragment := option_map (fun f => "#" ++ f) afterHash in
  match stripPrefix "did:kilt:" body with
  | None => malformed
  | Some rest =>
      match stripPrefix "light:" rest, stripPrefix "full:" rest with
      | Some (String a (String b rest')), _ =>
          let (address, encodedDetails) := splitAt ":" rest' in
          if isHexDigit a && isHexDigit b && validAddress address
          then Ok {| p_did := body;
                     p_address := address;
                     p_version := Some 1;
                     p_encodedDetails := encodedDetails;
                     p_fragment := fragment;
                     p_type := light;
                     p_authKeyTypeEncoding :=
                       Some (String a (String b "")) |}
          else malformed
      | _, Some address =>
          if validAddress address
          then Ok {| p_did := body;
                     p_address := address;
                     p_version := Some 1;
                     p_encodedDetails := None;
                     p_fragment := fragment;
                     p_type := full;
                     p_authKeyTypeEncoding := None |}
          else malformed
      | _, _ => malformed
      end
  end.

(** Modelled from the spec: [validateUri] of [Did2.utils] is missing;
    the spec has [resolve] validate the URI syntax, and a DID, unlike a
    DID URL, carries no fragment. *)
Definition demoValidateUri (input : string) (expectType : option ExpectType)
  : Result unit :=
  (p <- demoParse input ;;
   match expectType with
   | Some ExpectDid =>
       if truthy (p_fragment p)
       then Throw (DidError
              "Expected a Kilt DidUri but got a DidResourceUri (containing a #fragment)")
       else Ok tt
   | Some ExpectResourceUri =>
       if truthy (p_fragment p)
       then Ok tt
       else Throw (DidError
              "Expected a Kilt DidResourceUri (containing a #fragment) but got a DidUri")
   | None => Ok tt
   end)%R.

Definition demoAddressOf (did : string) : string :=
  match demoParse did with
  | Ok p => p_address p
  | Throw _ => ""
  end.

Definition keyTypeCode (k : DidKeyType) : string :=
  match k with
  | ed25519 => "ed"
  | sr25519 => "sr"
  | ecdsa => "ec"
  | x25519 => "xx"
  end.

Definition demoEncodeMultikey
  (controller id : string) (key : DecodedVerificationMethod)
  : VerificationMethod :=
  {| vm_id := id;
     vm_controller := Some controller;
     vm_type := "Multikey";
     publicKeyMultibase :=
       "z" ++ keyTypeCode (keyType key) ++ hexOfBytes (publicKey key) |}.

Definition demoDecodeMultikey (m : VerificationMethod)
  : Result DecodedVerificationMethod :=
  let unsupported := Throw (DidError "Cannot decode the multibase key") in
  match stripPrefix "z" (publicKeyMultibase m) with
  | Some (String a (String b hex)) =>
      let code := String a (String b "") in
      match bytesOfHex hex with
      | Some key =>
          if String.eqb code "ed" then Ok {| keyType := ed25519; publicKey := key |}
          else if String.eqb code "sr" then Ok {| keyType := sr25519; publicKey := key |}
          else if String.eqb code "ec" then Ok {| keyType := ecdsa; publicKey := key |}
          else if String.eqb code "xx" then Ok {| keyType := x25519; publicKey := key |}
          else unsupported
      | None => unsupported
      end
  | _ => unsupported
  end.

Definition demoLinkedInfoFromChain (encoded : option RawDidLinkedInfo)
  : Result DidDocument :=
  match encoded with
  | None => Throw (ForeignError "Option: unwrapping a None value")
  | Some raw =>
      let did := "did:kilt:full:" ++ identifier raw in
      Ok {| doc_id := did;
            authentication := Some ["#key"];
            verificationMethod :=
              Some [demoEncodeMultikey did "#key"
                      {| keyType := ed25519; publicKey := details raw |}];
            keyAgreement := None;
            assertionMethod := None;
            capabilityDelegation := None;
            service := None |}
  end.

#[export] Instance demoUtils : DidUtils := {|
  parse := demoParse;
  validateUri := demoValidateUri;
  getFullDidUri := fun did => "did:kilt:full:" ++ demoAddressOf did;
  toChain := demoAddressOf;
  decodeMultikeyVerificationMethod := demoDecodeMultikey;
  encodeVerificationMethodToMultiKey := demoEncodeMultikey;
  getAddressByVerificationMethod := fun m =>
    match demoDecodeMultikey m with
    | Ok key => encodeAddress (publicKey key)
    | Throw _ => ""
    end;
  validateNewService := fun _ => Ok tt;
  encryptionKeyTypes := [x25519];
  linkedInfoFromChain := demoLinkedInfoFromChain
|}.

#[export] Instance demoRepresentations : Representations := {|
  W3C_DID_CONTEXT_URL := "https://www.w3.org/ns/did/v1";
  KILT_DID_CONTEXT_URL := "ipfs://kilt-did-context";
  JSON_stringify := fun d context =>
    bytesOfString (match context with
                   | Some _ => "{@context,id:" ++ doc_id d ++ "}"
                   | None => "{id:" ++ doc_id d ++ "}"
                   end);
  cbor_encode_resource := fun r =>
    bytesOfString (match r with
                   | ResDocument d => doc_id d
                   | ResVerificationMethod m => vm_id m
                   | ResService s => svc_id s
                   end)
|}.

(** Claims travel as text: byte [01] followed by the characters. *)
Definition demoClaimsDecode (bs : Bytes) : Result Json :=
  match bs with
  | x01 :: text => Ok (JString (stringOfBytes text))
  | _ => Throw (ForeignError "Failed to decode CBOR")
  end.

Definition demoClaimsText (j : Json) : string :=
  match j with
  | JString s => s
  | _ => "?"
  end.

#[export] Instance demoCredentialUtils : CredentialUtils := {|
  cborDecode := demoClaimsDecode;
  validateAssetUri := fun uri =>
    match stripPrefix "did:asset:" uri with
    | Some _ => Ok tt
    | None => Throw (ForeignError "Not a valid AssetDID")
    end;
  didFromChain := fun account => "did:kilt:full:" ++ account;
  getIdForCredential := fun input attester =>
    "id(" ++ cTypeHash input ++ "," ++ subject input ++ ","
      ++ demoClaimsText (claims input) ++ ","
      ++ match delegationId input with Some d => d | None => "null" end
      ++ "," ++ attester ++ ")"
|}.

Fixpoint lookupBlock (n : N) (blocks : list (N * SignedBlockExtended))
  : option SignedBlockExtended :=
  match blocks with
  | [] => None
  | (m, b) :: rest => if N.eqb m n then Some b else lookupBlock n rest
  end.

(** A chain with the given live full DIDs (identifier and key), deleted
    identifiers and blocks. *)
Definition chain
  (live : list (string * Bytes)) (deleted : list string)
  (blocks : list (N * SignedBlockExtended)) : ChainApi :=
  {| call_did_query := fun id =>
       Ok (option_map
             (fun entry => {| identifier := fst entry;
                              accounts := [];
                              w3n := None;
                              serviceEndpoints := [];
                              details := snd entry |})
             (find (fun entry => String.eqb (fst entry) id) live));
     query_did_didBlacklist := fun id =>
       Ok (if existsb (String.eqb id) deleted then Some tt else None);
     derive_chain_getBlockByNumber := fun n =>
       match lookupBlock n blocks with
       | Some b => Ok b
       | None => Throw (ForeignError "Unable to retrieve the block")
       end |}.

(** A connection on which every query is rejected. *)
Definition offline : ChainApi :=
  {| call_did_query := fun _ => Throw (ForeignError "disconnected");
     query_did_didBlacklist := fun _ => Throw (ForeignError "disconnected");
     derive_chain_getBlockByNumber :=
       fun _ => Throw (ForeignError "disconnected") |}.

(** ** Sample data *)

Definition aliceKey : Bytes := [x0a; x0b; x0c].

Definition authKey : VerificationMethod :=
  {| vm_id := "#my-key";
     vm_controller := None;
     vm_type := "Multikey";
     publicKeyMultibase := "zed0a0b0c" |}.

Definition aliceAuth : DecodedVerificationMethod :=
  {| keyType := ed25519; publicKey := aliceKey |}.

Definition encKey : VerificationMethod :=
  {| vm_id := "#my-encryption-key";
     vm_controller := None;
     vm_type := "Multikey";
     publicKeyMultibase := "zxx0d0e" |}.

Definition collection : Service :=
  {| svc_id := "#my-service";
     svc_type := Some ["KiltPublishedCredentialCollectionV1"];
     serviceEndpoint := Some ["https://example.com/credentials"] |}.

Definition minimalInput : CreateDocumentInput :=
  {| in_authentication := authKey;
     in_keyAgreement := None;
     in_service := None |}.

Definition fullInput : CreateDocumentInput :=
  {| in_authentication := authKey;
     in_keyAgreement := Some encKey;
     in_service := Some [collection] |}.

Definition emptyServicesInput : CreateDocumentInput :=
  {| in_authentication := authKey;
     in_keyAgreement := None;
     in_service := Some [] |}.

Definition documentOf (input : CreateDocumentInput) : DidDocument :=
  match LightDid.createLightDidDocument input with
  | Ok doc => doc
  | Throw _ => Resolver.idOnlyDocument ""
  end.

Definition fullInputDocument : DidDocument :=
  Eval vm_compute in documentOf fullInput.

Definition emptyServicesDocument : DidDocument :=
  Eval vm_compute in documentOf emptyServicesInput.

(** Alice's light DID, the same with a key-type code that no key type
    has, and three full DIDs. *)
Definition aliceLight : string := "did:kilt:light:0140a0b0c".
Definition unknownCodeLight : string := "did:kilt:light:0240a0b0c".
Definition deletedFull : string := "did:kilt:full:4dead".
Definition absentFull : string := "did:kilt:full:4beef".
Definition revivedFull : string := "did:kilt:full:4abba".

(** Alice has moved her light DID to a full DID. *)
Definition migratedChain : ChainApi := chain [("40a0b0c", aliceKey)] [] [].

(** [4dead] is deleted; [4abba] is in the deleted index and has a live
    document as well. *)
Definition registry : ChainApi :=
  chain [("4abba", [x01])] ["4dead"; "4abba"] [].

(** A connection whose linked-info query is rejected. *)
Definition flaky : ChainApi :=
  {| call_did_query := fun _ => Throw (ForeignError "disconnected");
     query_did_didBlacklist := fun _ => Ok None;
     derive_chain_getBlockByNumber :=
       fun _ => Throw (ForeignError "disconnected") |}.

Definition membership : EncodedCredential :=
  {| ec_ctypeHash := "0xc1";
     ec_subject := "did:asset:eip155:1.slip44:60";
     ec_claims := x01 :: bytesOfString "member";
     ec_authorization := None |}.

Definition sponsorship : EncodedCredential :=
  {| ec_ctypeHash := "0xc1";
     ec_subject := "did:asset:eip155:1.slip44:60";
     ec_claims := x01 :: bytesOfString "sponsor";
     ec_authorization := None |}.

(** Claims that are no CBOR. *)
Definition garbage : EncodedCredential :=
  {| ec_ctypeHash := "0xc1";
     ec_subject := "did:asset:eip155:1.slip44:60";
     ec_claims := [xff];
     ec_authorization := None |}.

Definition membershipInput : IPublicCredentialInput :=
  {| claims := JString "member";
     cTypeHash := "0xc1";
     delegationId := None;
     subject := "did:asset:eip155:1.slip44:60" |}.

Definition alice : string := "did:kilt:full:4alice".

Definition membershipId : string :=
  Eval vm_compute in getIdForCredential membershipInput alice.

Definition stored : Event :=
  CredentialStored "did:asset:eip155:1.slip44:60" membershipId.

(** A failed extrinsic with the event, then a batch in which Alice adds
    the credential twice, next to another one. *)
Definition failedTx : TxWithEvent :=
  {| extrinsic := SubmitDidCall "4alice" (PublicCredentialsAdd sponsorship);
     events := [stored];
     dispatchError := Some "Module" |}.

Definition twiceTx : TxWithEvent :=
  {| extrinsic :=
       Utility batchAll
         [SubmitDidCall "4alice" (PublicCredentialsAdd membership);
          OtherCall "balances.transfer";
          SubmitDidCall "4alice"
            (Utility batch [PublicCredentialsAdd membership;
                            PublicCredentialsAdd sponsorship])];
     events := [OtherEvent "balances.Transfer"; stored];
     dispatchError := None |}.

(** Alice adds the credential twice and then one with garbage claims. *)
Definition withGarbageTx : TxWithEvent :=
  {| extrinsic :=
       SubmitDidCall "4alice"
         (Utility batch [PublicCredentialsAdd membership;
                         PublicCredentialsAdd membership;
                         PublicCredentialsAdd garbage]);
     events := [stored];
     dispatchError := None |}.

(** The event names the credential, the only call carries garbage. *)
Definition onlyGarbageTx : TxWithEvent :=
  {| extrinsic := SubmitDidCall "4alice" (PublicCredentialsAdd garbage);
     events := [stored];
     dispatchError := None |}.

(** The event names the credential, the only call adds another one. *)
Definition otherCredentialTx : TxWithEvent :=
  {| extrinsic := SubmitDidCall "4alice" (PublicCredentialsAdd sponsorship);
     events := [stored];
     dispatchError := None |}.

Definition ledger : ChainApi :=
  chain [] []
    [(7%N, {| extrinsics := [failedTx; twiceTx] |});
     (8%N, {| extrinsics := [withGarbageTx] |});
     (9%N, {| extrinsics := [onlyGarbageTx] |});
     (10%N, {| extrinsics := [otherCredentialTx] |})].

Definition entryAt (n : N) : CredentialEntry :=
  {| blockNumber := n; revoked := false |}.

(** The credential of block 7 as it is to be reconstructed. *)
Definition membershipCredential : IPublicCredential :=
  {| pc_claims := JString "member";
     pc_cTypeHash := "0xc1";
     pc_delegationId := None;
     pc_subject := "did:asset:eip155:1.slip44:60";
     pc_attester := alice;
     pc_id := membershipId;
     pc_blockNumber := 7;
     pc_revoked := false |}.

(** The candidate calls of [twiceTx]. *)
Definition twiceCandidates : list (EncodedCredential * string) :=
  [(membership, alice); (membership, alice); (sponsorship, alice)].

(** ** Inputs that [createLightDidDocument] refuses *)

Definition ecdsaKey : VerificationMethod :=
  {| vm_id := "#my-key";
     vm_controller := None;
     vm_type := "Multikey";
     publicKeyMultibase := "zec0a0b0c" |}.

Definition ecdsaInput : CreateDocumentInput :=
  {| in_authentication := ecdsaKey;
     in_keyAgreement := Some encKey;
     in_service := Some [collection] |}.

(** A signing key offered as key-agreement key. *)
Definition signingKey : VerificationMethod :=
  {| vm_id := "#my-other-key";
     vm_controller := None;
     vm_type := "Multikey";
     publicKeyMultibase := "zed0d0e" |}.

Definition signingKeyAgreementInput : CreateDocumentInput :=
  {| in_authentication := authKey;
     in_keyAgreement := Some signingKey;
     in_service := Some [collection] |}.

Definition reservedService : Service :=
  {| svc_id := "#encryption";
     svc_type := Some ["KiltPublishedCredentialCollectionV1"];
     serviceEndpoint := Some ["https://example.com/encryption"] |}.

Definition reservedServiceInput : CreateDocumentInput :=
  {| in_authentication := authKey;
     in_keyAgreement := None;
     in_service := Some [collection; reservedService] |}.

(** ** More credential data *)

Definition demoClaimsEncode (j : Json) : Bytes :=
  x01 :: bytesOfString (demoClaimsText j).

#[export] Instance demoCredentialEncoders : CredentialEncoders := {|
  cborEncode := demoClaimsEncode
|}.

(** A batch in which the credential is added outside of any DID call. *)
Definition looseCalls : list Call :=
  [PublicCredentialsAdd membership;
   Utility forceBatch [OtherCall "system.remark";
                       PublicCredentialsAdd sponsorship]].

(** The calls of [twiceTx] with the batches regrouped. *)
Definition regroupedCalls : list Call :=
  [Utility batch
     [SubmitDidCall "4alice" (PublicCredentialsAdd membership);
      Utility forceBatch [OtherCall "balances.transfer"]];
   SubmitDidCall "4alice"
     (Utility batch [PublicCredentialsAdd membership;
                     PublicCredentialsAdd sponsorship])].

(** ** A DID of the earlier chain *)

Definition aliceDetails : DidChain.DidDetails :=
  {| DidChain.auth_key :=
       {| DidChain.key_type := "ed25519"; DidChain.key_value := aliceKey |};
     DidChain.key_agreement_key :=
       {| DidChain.key_type := "x25519";
          DidChain.key_value := [x0d; x0e] |};
     DidChain.delegation_key := None;
     DidChain.attestation_key :=
       Some {| DidChain.key_type := "sr25519";
               DidChain.key_value := [x0f] |};
     DidChain.verification_keys :=
       [{| DidChain.entry_keyId := [x01];
           DidChain.entry_verification_key :=
             {| DidChain.key_type := "ed25519";
                DidChain.key_value := aliceKey |};
           DidChain.entry_block_number := 5 |};
        {| DidChain.entry_keyId := [x02];
           DidChain.entry_verification_key :=
             {| DidChain.key_type := "sr25519";
                DidChain.key_value := [x0f] |};
           DidChain.entry_block_number := 6 |}];
     DidChain.endpoint_url := Some "https://example.com/alice";
     DidChain.last_tx_counter := 3 |}.

Definition didStorage (did_identifier : string)
  : Result (option DidChain.DidDetails) :=
  Ok (if String.eqb did_identifier "4alice" then Some aliceDetails else None).

Definition demoToHex (bytes : Bytes) : string := "0x" ++ hexOfBytes bytes.

(** [toNumber] of a number of more than 53 bits throws. *)
Definition demoToNumber (n : N) : Result N :=
  if (n <? 9007199254740992)%N then Ok n
  else Throw (ForeignError "Number can only safely store up to 53 bits").

Definition demoDidFromIdentifier (did_identifier : string) : Result string :=
  Ok ("did:kilt:" ++ did_identifier).

Definition aliceRecord : DidChain.IDidRecord :=
  {| DidChain.r_did := "did:kilt:4alice";
     DidChain.r_auth_key :=
       {| DidChain.tpk_type := "ed25519";
          DidChain.publicKeyHex := "0x0a0b0c" |};
     DidChain.r_key_agreement_key :=
       {| DidChain.tpk_type := "ed25519";
          DidChain.publicKeyHex := "0x0a0b0c" |};
     DidChain.r_verification_keys :=
       [{| DidChain.kd_type := "ed25519";
           DidChain.kd_publicKeyHex := "0x0a0b0c";
           DidChain.kd_id := "0x01";
           DidChain.kd_includedAt := 5 |};
        {| DidChain.kd_type := "sr25519";
           DidChain.kd_publicKeyHex := "0x0f";
           DidChain.kd_id := "0x02";
           DidChain.kd_includedAt := 6 |}];
     DidChain.r_last_tx_counter := 3;
     DidChain.r_endpoint_url := Some "https://example.com/alice";
     DidChain.r_delegation_key := None;
     DidChain.r_attestation_key :=
       Some {| DidChain.tpk_type := "sr25519";
               DidChain.publicKeyHex := "0x0f" |} |}.

End Demo.

(* ================================================================== *)
(** * Properties of the light DID codec *)
(* ================================================================== *)

Section LightDidProperties.
Import LightDid.
Context {codecs : Codecs} {utils : DidUtils}.

Lemma append_empty_r (s : string) : s ++ "" = s.
Proof. induction s as [|a s IH]; simpl; [reflexivity | now rewrite IH]. Qed.


Lemma decoded_eta (a : DecodedVerificationMethod) :
  {| keyType := keyType a; publicKey := publicKey a |} = a.
Proof. now destruct a. Qed.

Lemma validateCreateDocumentInput_ok (input : CreateDocumentInput) :
  validateCreateDocumentInput input = Ok tt <->
  exists auth e,
    decodeMultikeyVerificationMethod (in_authentication input) = Ok auth
    /\ verificationKeyTypeToLightDidEncoding (keyType auth) = Some e
    /\ checkKeyAgreement (in_keyAgreement input) = Ok tt
    /\ checkServices (in_service input) = Ok tt.
Proof.
  unfold validateCreateDocumentInput.
  change (match in_keyAgreement input with
          | Some key => _ | None => Ok tt end)
    with (checkKeyAgreement (in_keyAgreement input)).
  change (match in_service input with
          | Some services => _ | None => Ok tt end)
    with (checkServices (in_service input)).
  split.
  - destruct (decodeMultikeyVerificationMethod (in_authentication input))
      as [auth|] eqn:Hauth; simpl; [|discriminate].
    destruct (verificationKeyTypeToLightDidEncoding (keyType auth)) as [e|]
      eqn:He; [|discriminate].
    destruct (checkKeyAgreement (in_keyAgreement input)) as [[]|] eqn:Hka;
      simpl; [|discriminate].
    intros H. exists auth, e. repeat split; assumption.
  - intros (auth & e & -> & He & -> & ->). simpl. now rewrite He.
Qed.

Lemma checkKeyAgreement_decodes (key : option VerificationMethod) :
  checkKeyAgreement key = Ok tt ->
  exists ka, decodeOptional key = Ok ka.
Proof.
  destruct key as [k|]; simpl; [|now exists None].
  destruct (decodeMultikeyVerificationMethod k) as [d|]; simpl;
    [|discriminate].
  intros _. now exists (Some d).
Qed.

(** [createLightDidDocument] succeeds exactly on the inputs that pass the
    validation, and then returns [lightDidDocument] at the assembled
    URI. *)
Lemma createLightDidDocument_ok (input : CreateDocumentInput)
      (doc : DidDocument) :
  createLightDidDocument input = Ok doc <->
  exists auth e ka,
    decodeMultikeyVerificationMethod (in_authentication input) = Ok auth
    /\ verificationKeyTypeToLightDidEncoding (keyType auth) = Some e
    /\ checkKeyAgreement (in_keyAgreement input) = Ok tt
    /\ checkServices (in_service input) = Ok tt
    /\ decodeOptional (in_keyAgreement input) = Ok ka
    /\ doc = lightDidDocument
               (lightDidUri e
                  (getAddressByVerificationMethod (in_authentication input))
                  (serializeAdditionalLightDidDetails
                     (in_keyAgreement input) (in_service input)))
               auth ka (in_service input).
Proof.
  unfold createLightDidDocument. split.
  - destruct (validateCreateDocumentInput input) as [[]|] eqn:Hvalid;
      simpl; [|discriminate].
    apply validateCreateDocumentInput_ok in Hvalid.
    destruct Hvalid as (auth & e & Hauth & He & Hka & Hsvc).
    rewrite Hauth. simpl. rewrite He.
    destruct (checkKeyAgreement_decodes _ Hka) as (ka & Hdec).
    intros H. exists auth, e, ka. repeat split; try assumption.
    rewrite decoded_eta in H.
    destruct (in_keyAgreement input) as [key|]; simpl in *.
    + destruct (decodeMultikeyVerificationMethod key) as [d|]; simpl in *;
        [|discriminate].
      inversion Hdec; subst ka. inversion H; subst doc.
      rewrite decoded_eta. reflexivity.
    + inversion Hdec; subst ka. inversion H; subst doc. reflexivity.
  - intros (auth & e & ka & Hauth & He & Hka & Hsvc & Hdec & ->).
    assert (Hvalid : validateCreateDocumentInput input = Ok tt).
    { apply validateCreateDocumentInput_ok. exists auth, e. auto. }
    rewrite Hvalid. simpl. rewrite Hauth. simpl. rewrite He.
    rewrite decoded_eta.
    destruct (in_keyAgreement input) as [key|]; simpl in *.
    + destruct (decodeMultikeyVerificationMethod key) as [d|]; simpl in *;
        [|discriminate].
      inversion Hdec; subst ka. rewrite decoded_eta. reflexivity.
    + inversion Hdec; subst ka. reflexivity.
Qed.

(** C9: an input with one ed25519 authentication key, no key-agreement
    key and no services (absent or empty) yields a document whose id is
    [did:kilt:light:01] followed by the address of the key and nothing
    else; the encoding table maps sr25519 to [00] and ed25519 to [01]. *)
Theorem minimal_light_did_uri
  (auth : VerificationMethod) (key : Bytes) (services : option (list Service)) :
  decodeMultikeyVerificationMethod auth
  = Ok {| keyType := ed25519; publicKey := key |} ->
  services = None \/ services = Some [] ->
  (exists doc,
      createLightDidDocument {| in_authentication := auth;
                                in_keyAgreement := None;
                                in_service := services |} = Ok doc
      /\ doc_id doc = "did:kilt:light:01" ++ getAddressByVerificationMethod auth)
  /\ verificationKeyTypeToLightDidEncoding sr25519 = Some "00"
  /\ verificationKeyTypeToLightDidEncoding ed25519 = Some "01".
Proof.
  intros Hauth Hservices. split; [|split; reflexivity].
  eexists. split.
  - apply createLightDidDocument_ok.
    exists {| keyType := ed25519; publicKey := key |}, "01", None.
    simpl. repeat split; try assumption; try reflexivity.
    destruct Hservices as [-> | ->]; reflexivity.
  - simpl. unfold lightDidUri, serializeAdditionalLightDidDetails.
    destruct Hservices as [-> | ->]; simpl; now rewrite append_empty_r.
Qed.

(** ** Round trip *)






Lemma no_details_no_extras (ka : option VerificationMethod)
      (services : option (list Service)) :
  serializeAdditionalLightDidDetails ka services = None ->
  ka = None /\ withoutEmptyServices services = None.
Proof.
  unfold serializeAdditionalLightDidDetails.
  destruct ka, services as [[|s l]|]; simpl; try discriminate; auto.
Qed.




(** Every document that [parseDocumentFromLightDid] returns has an
    authentication method; it is not an id-only document. *)
Lemma parsed_light_document_has_authentication
  (uri : string) (failIfFragmentPresent : bool) (doc : DidDocument) :
  parseDocumentFromLightDid uri failIfFragmentPresent = Ok doc ->
  authentication doc = Some [authenticationKeyId].
Proof.
  unfold parseDocumentFromLightDid.
  destruct (parse uri) as [p|]; simpl; [|discriminate].
  destruct (p_type p); [|discriminate].
  destruct (truthy (p_fragment p) && failIfFragmentPresent); [discriminate|].
  destruct (match p_authKeyTypeEncoding p with
            | Some e => lightDidEncodingToVerificationKeyType e
            | None => None
            end) as [k|]; [|discriminate].
  destruct (decodeAddress (p_address p)) as [key|]; simpl; [|discriminate].
  assert (Hcreated : forall input,
             createLightDidDocument input = Ok doc ->
             authentication doc = Some [authenticationKeyId]).
  { intros input H. apply createLightDidDocument_ok in H.
    destruct H as (? & ? & ? & _ & _ & _ & _ & _ & ->). reflexivity. }
  destruct (p_encodedDetails p) as [[|c d]|]; try apply Hcreated.
  destruct (deserializeAdditionalLightDidDetails (String c d) (p_version p));
    simpl; [apply Hcreated | discriminate].
Qed.

End LightDidProperties.

(* ================================================================== *)
(** * Properties of the resolver *)
(* ================================================================== *)

Ltac chain_unfold :=
  unfold cbind, cret, cthrow, liftR, send, catch in *.

Section ResolverProperties.
Import LightDid Resolver.
Context {codecs : Codecs} {utils : DidUtils} {repr : Representations}.
Variable api : ChainApi.

Lemma isValidContentType_false (accept : option string) :
  unsupportedAccept accept -> isValidContentType accept = false.
Proof.
  intros Hout. destruct accept as [a|]; [|reflexivity].
  specialize (Hout a eq_refl). unfold isValidContentType.
  destruct (String.eqb_spec a DID_JSON) as [->|_];
    [exfalso; apply Hout; simpl; auto|].
  destruct (String.eqb_spec a DID_JSON_LD) as [->|_];
    [exfalso; apply Hout; simpl; auto|].
  destruct (String.eqb_spec a DID_CBOR) as [->|_];
    [exfalso; apply Hout; simpl; auto|].
  reflexivity.
Qed.

Lemma supportedContentType_unsupported (accept : option string) :
  unsupportedAccept accept -> supportedContentType accept = None.
Proof.
  intros Hout. unfold supportedContentType.
  now rewrite (isValidContentType_false accept Hout).
Qed.

(** The lookup step sends one query and never throws. *)
Lemma lookupDocument_total (did : string) (log : list Query) :
  lookupDocument api did log
  = (Ok (onChainDocument api did), (log ++ [QueryDid (toChain did)])%list).
Proof.
  unfold lookupDocument, onChainDocument. chain_unfold.
  destruct (call_did_query api (toChain did)) as [raw|e]; [|reflexivity].
  destruct (linkedInfoFromChain raw); reflexivity.
Qed.

Lemma resolveInternal_after_lookup (did : string) (p : ParsedUri)
      (log : list Query) :
  parse did = Ok p ->
  resolveInternal api did log
  = resolveWithDocument api did (p_type p) (onChainDocument api did)
      (log ++ [QueryDid (toChain did)])%list.
Proof.
  intros Hp. unfold resolveInternal.
  unfold cbind at 1. unfold liftR at 1. rewrite Hp.
  unfold cbind. now rewrite lookupDocument_total.
Qed.

Lemma resolve_valid (did : string) (p : ParsedUri) (log : list Query) :
  validateUri did (Some ExpectDid) = Ok tt ->
  parse did = Ok p ->
  resolve api did log
  = match resolveWithDocument api did (p_type p) (onChainDocument api did)
            (log ++ [QueryDid (toChain did)])%list with
    | (Ok None, log') => (Ok notFoundResult, log')
    | (Ok (Some r), log') =>
        (Ok {| didResolutionMetadata := None;
               didDocumentMetadata := documentMetadata r;
               didDocument := document r |}, log')
    | (Throw e, log') => (Throw e, log')
    end.
Proof.
  intros Hv Hp. unfold resolve. rewrite Hv.
  unfold cbind. rewrite (resolveInternal_after_lookup did p log Hp).
  destruct (resolveWithDocument _ _ _ _ _) as [[[r|]|e] log']; reflexivity.
Qed.

Lemma unsupported_accept_is_rejected
  (did : string) (log : list Query) (accept : option string) :
  unsupportedAccept accept ->
  resolveRepresentation api did accept log
  = (Ok {| rr_didResolutionMetadata := Some representationNotSupported;
           rr_didDocumentMetadata := emptyDocumentMetadata;
           didDocumentStream := None |}, log).
Proof.
  intros Hout. unfold resolveRepresentation.
  now rewrite (supportedContentType_unsupported accept Hout).
Qed.

(** C7: for an [accept] outside the three supported media types,
    [resolveRepresentation] answers [representationNotSupported] with
    empty document metadata and leaves the query log as it found it: no
    query has been sent, whatever the chain connection is. *)
Theorem resolveRepresentation_unsupported_accept
  (did : string) (accept : option string) (log : list Query) :
  unsupportedAccept accept ->
  resolveRepresentation api did accept log
  = (Ok {| rr_didResolutionMetadata := Some representationNotSupported;
           rr_didDocumentMetadata := emptyDocumentMetadata;
           didDocumentStream := None |}, log).
Proof.
  intros Hout. now apply unsupported_accept_is_rejected.
Qed.

(** C8: for an [accept] outside the three supported media types,
    [dereference] runs exactly as with [application/did+json]: whatever
    it returns carries no [representationNotSupported] error, and a
    result without an error reports the content type
    [application/did+json] and hands out the resource as it is;
    [resolveRepresentation] answers the same [accept] with
    [representationNotSupported]. *)
Theorem dereference_unsupported_accept_falls_back_to_json
  (didUrl : string) (accept : option string) (log : list Query) :
  unsupportedAccept accept ->
  dereference api didUrl accept log
  = dereference api didUrl (Some "application/did+json") log
  /\ (forall r log',
         dereference api didUrl accept log = (Ok r, log') ->
         dm_error (dereferencingMetadata r) <> Some representationNotSupported
         /\ (dm_error (dereferencingMetadata r) = None ->
             dm_contentType (dereferencingMetadata r)
             = Some "application/did+json"
             /\ exists resource, contentStream r = Some (Plain resource)))
  /\ (exists r,
         resolveRepresentation api didUrl accept log = (Ok r, log)
         /\ rr_didResolutionMetadata r = Some representationNotSupported).
Proof.
  intros Hout. split; [|split].
  - unfold dereference.
    now rewrite (supportedContentType_unsupported accept Hout).
  - intros r log'. unfold dereference.
    rewrite (supportedContentType_unsupported accept Hout).
    destruct (validateUri didUrl None) as [u|e].
    + unfold cbind.
      destruct (dereferenceInternal api didUrl log) as [[i|e] log1];
        [|discriminate].
      destruct (i_contentStream i) as [resource|]; unfold cret;
        intros H; inversion H; subst; clear H; simpl.
      * split; [discriminate|]. intros _. split; [reflexivity|].
        now exists resource.
      * split; discriminate.
    + unfold cret. intros H; inversion H; subst; simpl.
      split; discriminate.
  - eexists. split.
    + apply (unsupported_accept_is_rejected didUrl log accept Hout).
    + reflexivity.
Qed.

(** A DID in the deleted index that is not a full DID with a live
    document resolves to [deactivated: true]. *)
Lemma resolve_deleted (did : string) (p : ParsedUri) (log : list Query) :
  validateUri did (Some ExpectDid) = Ok tt ->
  parse did = Ok p ->
  query_did_didBlacklist api (toChain did) = Ok (Some tt) ->
  p_type p = light \/ onChainDocument api did = None ->
  resolve api did log = (Ok deactivatedResult, (log ++ bothQueries did)%list).
Proof.
  intros Hv Hp Hdeleted Hnot.
  rewrite (resolve_valid did p log Hv Hp).
  unfold resolveWithDocument.
  assert (Hguard : isFull (p_type p) && isSome (onChainDocument api did) = false).
  { destruct Hnot as [-> | ->]; [reflexivity | apply andb_false_r]. }
  rewrite Hguard. chain_unfold. rewrite Hdeleted. simpl.
  unfold bothQueries. now rewrite <- app_assoc.
Qed.

(** A full DID with neither a document nor an entry in the deleted index
    resolves to [notFound]. *)
Lemma resolve_absent (did : string) (p : ParsedUri) (log : list Query) :
  validateUri did (Some ExpectDid) = Ok tt ->
  parse did = Ok p ->
  p_type p = full ->
  onChainDocument api did = None ->
  query_did_didBlacklist api (toChain did) = Ok None ->
  resolve api did log = (Ok notFoundResult, (log ++ bothQueries did)%list).
Proof.
  intros Hv Hp Hfull Hnone Hlive.
  rewrite (resolve_valid did p log Hv Hp).
  unfold resolveWithDocument. rewrite Hfull, Hnone. simpl.
  chain_unfold. rewrite Hlive. simpl.
  unfold bothQueries. now rewrite <- app_assoc.
Qed.

(** A full DID with a live document resolves to that document, without
    a look at the deleted index. *)
Lemma resolve_full_live (did : string) (p : ParsedUri) (doc : DidDocument)
      (log : list Query) :
  validateUri did (Some ExpectDid) = Ok tt ->
  parse did = Ok p ->
  p_type p = full ->
  onChainDocument api did = Some doc ->
  resolve api did log
  = (Ok {| didResolutionMetadata := None;
           didDocumentMetadata := emptyDocumentMetadata;
           didDocument := Some doc |},
     (log ++ [QueryDid (toChain did)])%list).
Proof.
  intros Hv Hp Hfull Hdoc.
  rewrite (resolve_valid did p log Hv Hp).
  unfold resolveWithDocument. now rewrite Hfull, Hdoc.
Qed.

(** C5, amended: a DID in the deleted index resolves to
    [deactivated: true] with no document and no error, unless it is a
    full DID for which the linked-info query yields a document; a full
    DID with no document and no entry in the deleted index resolves to
    the error [notFound] with empty document metadata; the two results
    differ in both metadata records. *)
Theorem deleted_and_absent_dids_resolve_differently
  (deleted absent : string) (p1 p2 : ParsedUri) (log1 log2 : list Query) :
  validateUri deleted (Some ExpectDid) = Ok tt ->
  parse deleted = Ok p1 ->
  query_did_didBlacklist api (toChain deleted) = Ok (Some tt) ->
  p_type p1 = light \/ onChainDocument api deleted = None ->
  validateUri absent (Some ExpectDid) = Ok tt ->
  parse absent = Ok p2 ->
  p_type p2 = full ->
  onChainDocument api absent = None ->
  query_did_didBlacklist api (toChain absent) = Ok None ->
  exists r1 r2,
    fst (resolve api deleted log1) = Ok r1
    /\ fst (resolve api absent log2) = Ok r2
    /\ r1 = {| didResolutionMetadata := None;
               didDocumentMetadata :=
                 {| deactivated := Some true; canonicalId := None |};
               didDocument := None |}
    /\ r2 = {| didResolutionMetadata := Some notFound;
               didDocumentMetadata :=
                 {| deactivated := None; canonicalId := None |};
               didDocument := None |}
    /\ didResolutionMetadata r1 <> didResolutionMetadata r2
    /\ didDocumentMetadata r1 <> didDocumentMetadata r2.
Proof.
  intros Hv1 Hp1 Hdeleted Hnot Hv2 Hp2 Hfull Hnone Hlive.
  exists deactivatedResult, notFoundResult.
  rewrite (resolve_deleted deleted p1 log1 Hv1 Hp1 Hdeleted Hnot).
  rewrite (resolve_absent absent p2 log2 Hv2 Hp2 Hfull Hnone Hlive).
  simpl. repeat split; try reflexivity; discriminate.
Qed.

(** What [resolve] does with a light DID whose identifier has a live
    full DID and no entry in the deleted index: it first rebuilds the
    light document, and the outcome of that decides. *)
Lemma resolve_migrated (did : string) (p : ParsedUri) (fullDoc : DidDocument)
      (log : list Query) :
  validateUri did (Some ExpectDid) = Ok tt ->
  parse did = Ok p ->
  p_type p = light ->
  onChainDocument api did = Some fullDoc ->
  query_did_didBlacklist api (toChain did) = Ok None ->
  resolve api did log
  = (match parseDocumentFromLightDid did false with
     | Ok _ => Ok (migratedResult did)
     | Throw e => Throw e
     end, (log ++ bothQueries did)%list).
Proof.
  intros Hv Hp Hlight Hdoc Hlive.
  rewrite (resolve_valid did p log Hv Hp).
  unfold resolveWithDocument. rewrite Hlight, Hdoc. simpl.
  chain_unfold. rewrite Hlive. simpl.
  unfold bothQueries. rewrite <- app_assoc. simpl.
  destruct (parseDocumentFromLightDid did false); reflexivity.
Qed.

(** C2, amended: for a light DID URI whose identifier has a full DID
    document on chain and no entry in the deleted index: when the light
    document can be rebuilt from the URI, [resolve] returns the
    canonical id of the full DID with an id-only document, and never
    the light document; when it cannot, [resolve] returns nothing and
    throws, after both queries, what [parseDocumentFromLightDid]
    throws; either way every result [resolve] returns for such a URI
    is the one with the canonical id and the id-only document. *)
Theorem migrated_light_did_resolves_to_canonical_id
  (did : string) (p : ParsedUri) (fullDoc : DidDocument) (log : list Query) :
  validateUri did (Some ExpectDid) = Ok tt ->
  parse did = Ok p ->
  p_type p = light ->
  onChainDocument api did = Some fullDoc ->
  query_did_didBlacklist api (toChain did) = Ok None ->
  (forall lightDoc,
      parseDocumentFromLightDid did false = Ok lightDoc ->
      exists r,
        fst (resolve api did log) = Ok r
        /\ canonicalId (didDocumentMetadata r) = Some (getFullDidUri did)
        /\ didDocument r
           = Some {| doc_id := did;
                     authentication := None;
                     verificationMethod := None;
                     keyAgreement := None;
                     assertionMethod := None;
                     capabilityDelegation := None;
                     service := None |}
        /\ didResolutionMetadata r = None
        /\ deactivated (didDocumentMetadata r) = None
        /\ didDocument r <> Some lightDoc
        /\ (forall anyLog r',
               fst (resolve api did anyLog) = Ok r' -> r' = r))
  /\ (forall e,
         parseDocumentFromLightDid did false = Throw e ->
         resolve api did log = (Throw e, (log ++ bothQueries did)%list)
         /\ forall anyLog r', fst (resolve api did anyLog) <> Ok r')
  /\ (forall anyLog r',
         fst (resolve api did anyLog) = Ok r' ->
         canonicalId (didDocumentMetadata r') = Some (getFullDidUri did)
         /\ didDocument r' = Some (idOnlyDocument did)
         /\ exists lightDoc,
              parseDocumentFromLightDid did false = Ok lightDoc
              /\ didDocument r' <> Some lightDoc).
Proof.
  intros Hv Hp Hlight Hdoc Hlive.
  assert (Hdiffers : forall lightDoc,
             parseDocumentFromLightDid did false = Ok lightDoc ->
             Some (idOnlyDocument did) <> Some lightDoc).
  { intros lightDoc Hrebuilt Hsame. inversion Hsame as [Heq].
    apply parsed_light_document_has_authentication in Hrebuilt.
    rewrite <- Heq in Hrebuilt. discriminate. }
  split; [|split].
  - intros lightDoc Hrebuilt.
    exists (migratedResult did).
    rewrite (resolve_migrated did p fullDoc log Hv Hp Hlight Hdoc Hlive).
    rewrite Hrebuilt. simpl. repeat split.
    + now apply Hdiffers.
    + intros anyLog r'.
      rewrite (resolve_migrated did p fullDoc anyLog Hv Hp Hlight Hdoc Hlive).
      rewrite Hrebuilt. simpl. congruence.
  - intros e Hthrown. split.
    + rewrite (resolve_migrated did p fullDoc log Hv Hp Hlight Hdoc Hlive).
      now rewrite Hthrown.
    + intros anyLog r'.
      rewrite (resolve_migrated did p fullDoc anyLog Hv Hp Hlight Hdoc Hlive).
      rewrite Hthrown. simpl. discriminate.
  - intros anyLog r'.
    rewrite (resolve_migrated did p fullDoc anyLog Hv Hp Hlight Hdoc Hlive).
    destruct (parseDocumentFromLightDid did false) as [lightDoc|e] eqn:Hrebuilt;
      simpl; [|discriminate].
    intros H. inversion H; subst r'; clear H. simpl.
    split; [reflexivity|]. split; [reflexivity|].
    exists lightDoc. split; [reflexivity|]. now apply Hdiffers.
Qed.

(** Without the premise that the light document can be rebuilt:
    [resolve] either returns the migrated result or throws what
    [parseDocumentFromLightDid] throws. *)
Lemma migrated_light_did_never_returns_light_document
  (did : string) (p : ParsedUri) (fullDoc : DidDocument)
  (log : list Query) (r : ResolutionResult) :
  validateUri did (Some ExpectDid) = Ok tt ->
  parse did = Ok p ->
  p_type p = light ->
  onChainDocument api did = Some fullDoc ->
  query_did_didBlacklist api (toChain did) = Ok None ->
  fst (resolve api did log) = Ok r ->
  r = migratedResult did.
Proof.
  intros Hv Hp Hlight Hdoc Hlive.
  rewrite (resolve_migrated did p fullDoc log Hv Hp Hlight Hdoc Hlive).
  simpl. destruct (parseDocumentFromLightDid did false);
    [congruence | discriminate].
Qed.

End ResolverProperties.

Section ResolverFailurePolicy.
Import LightDid Resolver.
Context {codecs : Codecs} {utils : DidUtils} {repr : Representations}.
Variable api : ChainApi.

(** After the document lookup, the connection is asked for the deleted
    index only. *)
Lemma resolveWithDocument_deleted_index
  (otherApi : ChainApi) (did : string) (type : DidType)
  (document : option DidDocument) (log : list Query) :
  query_did_didBlacklist otherApi (toChain did)
  = query_did_didBlacklist api (toChain did) ->
  resolveWithDocument otherApi did type document log
  = resolveWithDocument api did type document log.
Proof.
  intros Hsame. unfold resolveWithDocument. chain_unfold.
  now rewrite Hsame.
Qed.

(** C6: a string that fails [validateUri] is answered with the result
    value [invalidDid], without any query, whatever the connection does.
    The document-lookup step always ends in a value.  When the
    linked-info query throws, the step yields no document and
    [resolveInternal] goes on as it does for a DID without a document;
    for a valid DID, [resolve] then runs exactly as on a connection that
    has no document for the DID and answers the deleted index alike, so
    that the exception of the linked-info query never leaves [resolve]:
    a DID in the deleted index resolves to [deactivated: true], a full
    DID outside of it to [notFound], and a light DID outside of it to
    the document rebuilt from its URI. *)
Theorem resolve_failure_policy (log : list Query) :
  (forall invalid e1,
      validateUri invalid (Some ExpectDid) = Throw e1 ->
      resolve api invalid log = (Ok invalidDidResult, log))
  /\ (forall anyDid anyLog,
         exists document,
           lookupDocument api anyDid anyLog
           = (Ok document, (anyLog ++ [QueryDid (toChain anyDid)])%list))
  /\ (forall did p e2,
         call_did_query api (toChain did) = Throw e2 ->
         parse did = Ok p ->
         lookupDocument api did log
         = (Ok None, (log ++ [QueryDid (toChain did)])%list)
         /\ resolveInternal api did log
            = resolveWithDocument api did (p_type p) None
                (log ++ [QueryDid (toChain did)])%list
         /\ (validateUri did (Some ExpectDid) = Ok tt ->
             (forall quiet : ChainApi,
                 onChainDocument quiet did = None ->
                 query_did_didBlacklist quiet (toChain did)
                 = query_did_didBlacklist api (toChain did) ->
                 resolve api did log = resolve quiet did log)
             /\ (query_did_didBlacklist api (toChain did) = Ok (Some tt) ->
                 resolve api did log
                 = (Ok deactivatedResult, (log ++ bothQueries did)%list))
             /\ (query_did_didBlacklist api (toChain did) = Ok None ->
                 p_type p = full ->
                 resolve api did log
                 = (Ok notFoundResult, (log ++ bothQueries did)%list))
             /\ (query_did_didBlacklist api (toChain did) = Ok None ->
                 p_type p = light ->
                 resolve api did log
                 = (match parseDocumentFromLightDid did false with
                    | Ok lightDocument =>
                        Ok {| didResolutionMetadata := None;
                              didDocumentMetadata := emptyDocumentMetadata;
                              didDocument := Some lightDocument |}
                    | Throw e => Throw e
                    end, (log ++ bothQueries did)%list)))).
Proof.
  split; [|split].
  - intros invalid e1 Hinvalid. unfold resolve. now rewrite Hinvalid.
  - intros anyDid anyLog. eexists. apply lookupDocument_total.
  - intros did p e2 Hquery Hp.
    assert (Hnone : onChainDocument api did = None)
      by (unfold onChainDocument; now rewrite Hquery).
    split; [now rewrite lookupDocument_total, Hnone|].
    split; [now rewrite (resolveInternal_after_lookup api did p log Hp), Hnone|].
    intros Hv. split; [|split; [|split]].
    + intros quiet Hquiet Hsame.
      rewrite (resolve_valid api did p log Hv Hp).
      rewrite (resolve_valid quiet did p log Hv Hp).
      rewrite Hnone, Hquiet.
      now rewrite (resolveWithDocument_deleted_index quiet did (p_type p) None
                     (log ++ [QueryDid (toChain did)])%list Hsame).
    + intros Hdeleted.
      apply (resolve_deleted api did p log Hv Hp Hdeleted). now right.
    + intros Hlive Hfull.
      exact (resolve_absent api did p log Hv Hp Hfull Hnone Hlive).
    + intros Hlive Hlight.
      rewrite (resolve_valid api did p log Hv Hp).
      unfold resolveWithDocument. rewrite Hlight, Hnone. simpl.
      chain_unfold. rewrite Hlive. simpl.
      unfold bothQueries. rewrite <- app_assoc. simpl.
      destruct (parseDocumentFromLightDid did false); reflexivity.
Qed.

End ResolverFailurePolicy.

(* ================================================================== *)
(** * Properties of the credential reconstruction *)
(* ================================================================== *)

Section ListFacts.
Context {A B : Type}.

Lemma find_all_false (f : A -> bool) (l : list A) :
  (forall x, In x l -> f x = false) -> find f l = None.
Proof.
  induction l as [|a l IH]; intros H; [reflexivity|]. simpl.
  rewrite (H a) by now left. apply IH. intros x Hx. apply H. now right.
Qed.

Lemma find_app_false (f : A -> bool) (l1 l2 : list A) :
  (forall x, In x l1 -> f x = false) -> find f (l1 ++ l2)%list = find f l2.
Proof.
  induction l1 as [|a l1 IH]; intros H; [reflexivity|]. simpl.
  rewrite (H a) by now left. apply IH. intros x Hx. apply H. now right.
Qed.

(** [l.reverse().find(f)] is the last element of [l] that satisfies
    [f]. *)
Lemma find_rev_last (f : A -> bool) (before after : list A) (x : A) :
  f x = true ->
  (forall y, In y after -> f y = false) ->
  find f (rev (before ++ x :: after)%list) = Some x.
Proof.
  intros Hx Hafter. rewrite rev_app_distr. simpl. rewrite <- app_assoc.
  rewrite find_app_false.
  - simpl. now rewrite Hx.
  - intros y Hy. apply Hafter. now apply in_rev.
Qed.

Lemma find_rev_none (f : A -> bool) (l : list A) :
  (forall x, In x l -> f x = false) -> find f (rev l) = None.
Proof.
  intros H. apply find_all_false. intros x Hx. apply H. now apply in_rev.
Qed.

Lemma mapR_map (g : A -> B) (l : list A) :
  mapR (fun x => Ok (g x)) l = Ok (map g l).
Proof.
  induction l as [|a l IH]; [reflexivity|]. simpl. now rewrite IH.
Qed.

(** [mapR] succeeds when the function does on every element, and then
    relates the two lists element by element. *)
Lemma mapR_ok (f : A -> Result B) (l : list A) :
  (forall x, In x l -> exists y, f x = Ok y) ->
  exists ys, mapR f l = Ok ys /\ Forall2 (fun x y => f x = Ok y) l ys.
Proof.
  induction l as [|a l IH]; intros H.
  - exists []. split; [reflexivity | constructor].
  - destruct (H a (or_introl eq_refl)) as [y Hy].
    destruct IH as (ys & Hys & Hall); [intros x Hx; apply H; now right|].
    exists (y :: ys). simpl. rewrite Hy. simpl. rewrite Hys. simpl.
    split; [reflexivity | now constructor].
Qed.

Lemma mapR_inv (f : A -> Result B) (l : list A) (ys : list B) :
  mapR f l = Ok ys -> Forall2 (fun x y => f x = Ok y) l ys.
Proof.
  revert ys. induction l as [|a l IH]; intros ys; simpl.
  - intros H. inversion H. constructor.
  - destruct (f a) as [y|] eqn:Hy; simpl; [|discriminate].
    destruct (mapR f l) as [ys'|]; simpl; [|discriminate].
    intros H. inversion H. constructor; [assumption | now apply IH].
Qed.

(** [mapR] stops at the first element on which the function throws. *)
Lemma mapR_first_throw (f : A -> Result B)
      (before after : list A) (x : A) (e : SDKError) :
  (forall y, In y before -> exists b, f y = Ok b) ->
  f x = Throw e ->
  mapR f (before ++ x :: after)%list = Throw e.
Proof.
  intros Hbefore Hx. induction before as [|a before IH]; simpl.
  - now rewrite Hx.
  - destruct (Hbefore a (or_introl eq_refl)) as [b Hb]. rewrite Hb. simpl.
    rewrite IH; [reflexivity|]. intros y Hy. apply Hbefore. now right.
Qed.

(** What [mapR] throws is what the function throws on the first element
    on which it does. *)
Lemma mapR_throw_inv (f : A -> Result B) (l : list A) (e : SDKError) :
  mapR f l = Throw e ->
  exists before x after,
    l = (before ++ x :: after)%list
    /\ (forall y, In y before -> exists b, f y = Ok b)
    /\ f x = Throw e.
Proof.
  induction l as [|a l IH]; simpl; [discriminate|].
  destruct (f a) as [b|e'] eqn:Ha; simpl.
  - destruct (mapR f l) as [ys|e'] eqn:Hl; simpl; [discriminate|].
    intros H. inversion H; subst e'.
    destruct (IH eq_refl) as (before & x & after & -> & Hbefore & Hx).
    exists (a :: before), x, after. repeat split; try assumption.
    intros y [<- | Hy]; [now exists b | now apply Hbefore].
  - intros H. inversion H; subst e'.
    exists [], a, l. repeat split; try assumption. intros y [].
Qed.

Lemma mapR_ok_all (f : A -> Result B) (l : list A) (ys : list B) :
  mapR f l = Ok ys -> forall x, In x l -> exists y, f x = Ok y.
Proof.
  intros H. apply mapR_inv in H.
  induction H as [|x y l' ys' Hxy _ IH]; intros z Hz; [contradiction|].
  destruct Hz as [<- | Hz]; [now exists y | now apply IH].
Qed.

Lemma Forall2_app_cons_inv (R : A -> B -> Prop)
      (before after : list A) (x : A) (ys : list B) :
  Forall2 R (before ++ x :: after)%list ys ->
  exists ys1 y ys2,
    ys = (ys1 ++ y :: ys2)%list /\ Forall2 R before ys1 /\ R x y
    /\ Forall2 R after ys2.
Proof.
  intros H. apply Forall2_app_inv_l in H.
  destruct H as (ys1 & rest & H1 & H2 & ->).
  inversion H2 as [|x' y l' ys2 Hxy Hrest]; subst.
  exists ys1, y, ys2. auto.
Qed.

End ListFacts.

Section CredentialProperties.
Import PublicCredential.
Context {cutils : CredentialUtils}.
Variable api : ChainApi.

Lemma retrieve_winner (credentialId : string) (n : N)
      (block : SignedBlockExtended) (winner : option TxWithEvent)
      (log : list Query) :
  derive_chain_getBlockByNumber api n = Ok block ->
  winnerOf credentialId block winner ->
  retrievePublicCredentialCreationExtrinsicFromBlock api credentialId n log
  = (Ok (option_map extrinsic winner), (log ++ [QueryBlockByNumber n])%list).
Proof.
  intros Hblock Hwinner.
  unfold retrievePublicCredentialCreationExtrinsicFromBlock.
  chain_unfold. rewrite Hblock. do 2 f_equal. f_equal.
  destruct winner as [tx|]; simpl in Hwinner.
  - destruct Hwinner as (before & after & -> & Hok & Hstored & Hafter).
    rewrite filter_app. simpl. rewrite Hok. simpl.
    apply find_rev_last; [assumption|].
    intros tx' Htx'. apply filter_In in Htx'. destruct Htx' as [Hin Hnone].
    apply Hafter; [assumption|].
    now destruct (dispatchError tx').
  - apply find_rev_none. intros tx Htx.
    apply filter_In in Htx. destruct Htx as [Hin Hnone].
    apply Hwinner; [assumption|]. now destruct (dispatchError tx).
Qed.

Lemma decodeCandidate_paired (origin : string) (l : list EncodedCredential) :
  mapR decodeCandidate (map (fun c => (c, origin)) l)
  = (ys <- mapR credentialInputFromChain l ;;
     Ok (map (fun y => (y, origin)) ys))%R.
Proof.
  induction l as [|c l IH]; [reflexivity|]. simpl. unfold decodeCandidate at 1.
  simpl. destruct (credentialInputFromChain c); simpl; [|reflexivity].
  rewrite IH. now destruct (mapR credentialInputFromChain l).
Qed.

Lemma find_paired (credentialId origin : string)
      (l : list IPublicCredentialInput) :
  find (idMatches credentialId) (map (fun y => (y, origin)) l)
  = option_map (fun y => (y, origin))
      (find (fun c => String.eqb (getIdForCredential c origin) credentialId) l).
Proof.
  induction l as [|c l IH]; [reflexivity|]. simpl. unfold idMatches at 1.
  simpl. now destruct (String.eqb (getIdForCredential c origin) credentialId).
Qed.

(** Both branches of the search compute the last decoded candidate whose
    recomputed identifier matches. *)
Lemma findCredentialInExtrinsic_candidates
  (credentialId : string) (extrinsic : Call) :
  findCredentialInExtrinsic credentialId extrinsic
  = match candidateCalls extrinsic with
    | None =>
        Throw (PublicCredentialError
                 "Extrinsic should be either a `did.submitDidCall` extrinsic or a batch with at least a `did.submitDidCall` extrinsic")
    | Some candidates =>
        (contents <- mapR decodeCandidate candidates ;;
         let last := find (idMatches credentialId) (rev contents) in
         Ok (option_map fst last,
             match extrinsic with
             | SubmitDidCall did _ => Some (didFromChain did)
             | _ => option_map snd last
             end))%R
    end.
Proof.
  destruct extrinsic as [kind calls|did call|credential|name]; simpl;
    try reflexivity.
  rewrite decodeCandidate_paired.
  destruct (mapR credentialInputFromChain
              (extractPublicCredentialCreationCallsFromDidCall call))
    as [contents|]; simpl; [|reflexivity].
  rewrite <- map_rev, find_paired.
  now destruct (find _ (rev contents)).
Qed.

Lemma decodeCandidate_ok_inv (candidate : EncodedCredential * string)
      (decoded : IPublicCredentialInput * string) :
  decodeCandidate candidate = Ok decoded ->
  credentialInputFromChain (fst candidate) = Ok (fst decoded)
  /\ snd decoded = snd candidate.
Proof.
  unfold decodeCandidate.
  destruct (credentialInputFromChain (fst candidate)); simpl;
    [|discriminate].
  intros H. inversion H. auto.
Qed.

(** With every payload decodable, the search returns the last matching
    candidate. *)
Lemma findCredentialInExtrinsic_last_match
  (credentialId : string) (extrinsic : Call)
  (candidates : list (EncodedCredential * string))
  (c : EncodedCredential) (attester : string)
  (input : IPublicCredentialInput) :
  candidateCalls extrinsic = Some candidates ->
  allDecode candidates ->
  isLastMatch credentialId candidates c attester input ->
  findCredentialInExtrinsic credentialId extrinsic
  = Ok (Some input, Some attester).
Proof.
  intros Hcandidates Hdecode (before & after & Hsplit & Hc & Hid & Hafter).
  rewrite findCredentialInExtrinsic_candidates, Hcandidates.
  destruct (mapR_ok decodeCandidate candidates) as (contents & Hmap & Hall).
  { intros candidate Hin. destruct (Hdecode candidate Hin) as [i Hi].
    exists (i, snd candidate). unfold decodeCandidate. now rewrite Hi. }
  rewrite Hmap. simpl. subst candidates.
  apply Forall2_app_cons_inv in Hall.
  destruct Hall as (ys1 & y & ys2 & -> & _ & Hy & Hys2).
  apply decodeCandidate_ok_inv in Hy. simpl in Hy. destruct Hy as [Hy1 Hy2].
  rewrite Hc in Hy1. inversion Hy1 as [Hfst].
  assert (Hyeq : y = (input, attester))
    by (destruct y; simpl in *; congruence).
  subst y.
  rewrite (find_rev_last (idMatches credentialId) ys1 ys2 (input, attester)).
  - simpl. destruct extrinsic as [kind calls|did call|credential|name];
      try reflexivity; try discriminate.
    simpl in Hcandidates. inversion Hcandidates as [Heq].
    assert (Hin : In (c, attester)
                     (map (fun c0 => (c0, didFromChain did))
                        (extractPublicCredentialCreationCallsFromDidCall call)))
      by (rewrite Heq; apply in_or_app; right; now left).
    apply in_map_iff in Hin. destruct Hin as (c0 & Hpair & _).
    inversion Hpair. reflexivity.
  - unfold idMatches. simpl. rewrite Hid. apply String.eqb_refl.
  - intros [i a] Hin. unfold idMatches. simpl.
    apply String.eqb_neq.
    clear - Hys2 Hin Hafter.
    induction Hys2 as [|x y l l' Hxy Hrest IH]; [contradiction|].
    destruct Hin as [-> | Hin].
    + apply decodeCandidate_ok_inv in Hxy. simpl in Hxy.
      destruct Hxy as [Hx1 Hx2]. destruct x as [c' a']. simpl in *. subst a'.
      apply (Hafter c' a i); [now left | assumption].
    + apply IH; [|assumption].
      intros c' a' i' Hin'. apply Hafter. now right.
Qed.

(** What the search returns matches the requested id. *)
Lemma findCredentialInExtrinsic_sound
  (credentialId : string) (extrinsic : Call)
  (input : IPublicCredentialInput) (submitter : string) :
  findCredentialInExtrinsic credentialId extrinsic
  = Ok (Some input, Some submitter) ->
  getIdForCredential input submitter = credentialId
  /\ exists candidates c,
       candidateCalls extrinsic = Some candidates
       /\ In (c, submitter) candidates
       /\ credentialInputFromChain c = Ok input.
Proof.
  rewrite findCredentialInExtrinsic_candidates.
  destruct (candidateCalls extrinsic) as [candidates|] eqn:Hcandidates;
    [|discriminate].
  destruct (mapR decodeCandidate candidates) as [contents|] eqn:Hmap;
    simpl; [|discriminate].
  destruct (find (idMatches credentialId) (rev contents)) as [[i a]|] eqn:Hfind;
    simpl; [|discriminate].
  intros H.
  apply find_some in Hfind. destruct Hfind as [Hin Hmatch].
  unfold idMatches in Hmatch. simpl in Hmatch.
  apply String.eqb_eq in Hmatch.
  apply in_rev in Hin.
  apply mapR_inv in Hmap.
  assert (Hsource : exists candidate,
             In candidate candidates /\ decodeCandidate candidate = Ok (i, a)).
  { clear - Hmap Hin. induction Hmap as [|x y l l' Hxy Hrest IH];
      [contradiction|].
    destruct Hin as [-> | Hin].
    - exists x. split; [now left | assumption].
    - destruct (IH Hin) as (candidate & Hc & Hd).
      exists candidate. split; [now right | assumption]. }
  destruct Hsource as ([c a'] & Hc & Hd).
  apply decodeCandidate_ok_inv in Hd. simpl in Hd. destruct Hd as [Hd1 Hd2].
  subst a'.
  assert (Hsub : submitter = a /\ input = i).
  { destruct extrinsic as [kind calls|did call|credential|name];
      try discriminate; inversion H; subst; split; try reflexivity.
    simpl in Hcandidates. inversion Hcandidates as [Heq]. subst candidates.
    apply in_map_iff in Hc. destruct Hc as (c0 & Hpair & _).
    now inversion Hpair. }
  destruct Hsub as [-> ->].
  split; [assumption|]. exists candidates, c. auto.
Qed.

(** [credentialFromChain] once the block is there and its winning
    extrinsic, if any, is known. *)
Lemma credentialFromChain_run
  (credentialId : string) (entry : CredentialEntry)
  (block : SignedBlockExtended) (winner : option TxWithEvent)
  (log : list Query) :
  derive_chain_getBlockByNumber api (blockNumber entry) = Ok block ->
  winnerOf credentialId block winner ->
  credentialFromChain api credentialId (Some entry) log
  = (match winner with
     | None =>
         Throw (PublicCredentialError
           ("The block number as specified in the provided credential entry ("
            ++ decimal (blockNumber entry)
            ++ ") does not have any extrinsic that includes a credential creation."))
     | Some tx =>
         match findCredentialInExtrinsic credentialId (extrinsic tx) with
         | Ok (Some input, Some submitter) => Ok (assembled input submitter entry)
         | Ok _ =>
             Throw (PublicCredentialError
               "Block should always contain the full credential, eventually.")
         | Throw e => Throw e
         end
     end, (log ++ [QueryBlockByNumber (blockNumber entry)])%list).
Proof.
  intros Hblock Hwinner. unfold credentialFromChain. unfold cbind at 1.
  rewrite (retrieve_winner credentialId (blockNumber entry) block winner log
             Hblock Hwinner).
  destruct winner as [tx|]; simpl; [|reflexivity].
  chain_unfold.
  destruct (findCredentialInExtrinsic credentialId (extrinsic tx))
    as [[[input|] [submitter|]]|e]; reflexivity.
Qed.

(** C3, amended: when every candidate call of the winning extrinsic
    carries a payload that decodes, [credentialFromChain] returns the
    content of the last candidate, in call order, whose recomputed
    identifier equals the requested id, with that call's authorizing DID
    as attester. *)
Theorem last_matching_candidate_wins
  (credentialId : string) (entry : CredentialEntry)
  (block : SignedBlockExtended) (tx : TxWithEvent)
  (candidates : list (EncodedCredential * string))
  (c : EncodedCredential) (attester : string)
  (input : IPublicCredentialInput) (log : list Query) :
  derive_chain_getBlockByNumber api (blockNumber entry) = Ok block ->
  isWinningExtrinsic credentialId block tx ->
  candidateCalls (extrinsic tx) = Some candidates ->
  allDecode candidates ->
  isLastMatch credentialId candidates c attester input ->
  credentialFromChain api credentialId (Some entry) log
  = (Ok {| pc_claims := claims input;
           pc_cTypeHash := cTypeHash input;
           pc_delegationId := delegationId input;
           pc_subject := subject input;
           pc_attester := attester;
           pc_id := credentialId;
           pc_blockNumber := blockNumber entry;
           pc_revoked := revoked entry |},
     (log ++ [QueryBlockByNumber (blockNumber entry)])%list).
Proof.
  intros Hblock Hwinner Hcandidates Hdecode Hlast.
  rewrite (credentialFromChain_run credentialId entry block (Some tx) log
             Hblock Hwinner).
  rewrite (findCredentialInExtrinsic_last_match credentialId (extrinsic tx)
             candidates c attester input Hcandidates Hdecode Hlast).
  unfold assembled.
  destruct Hlast as (_ & _ & _ & _ & -> & _). reflexivity.
Qed.

(** C4, amended: when the block has no successful extrinsic with a
    "credential stored" event for the id, or when no candidate call of
    the winning extrinsic has a recomputed identifier equal to the id,
    [credentialFromChain] returns no credential; what it throws is a
    [PublicCredentialError] whenever every candidate payload of the
    winning extrinsic decodes; otherwise it is the exception that
    [credentialInputFromChain] throws on the first candidate whose
    payload does not decode. *)
Theorem reconstruction_fails_without_match
  (credentialId : string) (entry : CredentialEntry)
  (block : SignedBlockExtended) (winner : option TxWithEvent)
  (log : list Query) :
  derive_chain_getBlockByNumber api (blockNumber entry) = Ok block ->
  winnerOf credentialId block winner ->
  (forall tx, winner = Some tx ->
              noCandidateMatches credentialId (extrinsic tx)) ->
  (forall credential,
      fst (credentialFromChain api credentialId (Some entry) log)
      <> Ok credential)
  /\ ((forall tx candidates,
          winner = Some tx ->
          candidateCalls (extrinsic tx) = Some candidates ->
          allDecode candidates) ->
      exists message,
        fst (credentialFromChain api credentialId (Some entry) log)
        = Throw (PublicCredentialError message))
  /\ (forall tx candidates,
         winner = Some tx ->
         candidateCalls (extrinsic tx) = Some candidates ->
         ~ allDecode candidates ->
         exists before c attester after e,
           candidates = (before ++ (c, attester) :: after)%list
           /\ allDecode before
           /\ credentialInputFromChain c = Throw e
           /\ credentialFromChain api credentialId (Some entry) log
              = (Throw e,
                 (log ++ [QueryBlockByNumber (blockNumber entry)])%list)).
Proof.
  intros Hblock Hwinner Hnomatch.
  rewrite (credentialFromChain_run credentialId entry block winner log
             Hblock Hwinner).
  simpl. split; [|split].
  - destruct winner as [tx|]; [|discriminate].
    specialize (Hnomatch tx eq_refl).
    destruct (findCredentialInExtrinsic credentialId (extrinsic tx))
      as [[[input|] [submitter|]]|e] eqn:Hfind; try discriminate.
    exfalso.
    apply findCredentialInExtrinsic_sound in Hfind.
    destruct Hfind as (Hid & candidates & c & Hcandidates & Hin & Hc).
    exact (Hnomatch candidates c submitter input Hcandidates Hin Hc Hid).
  - intros Hdecode. destruct winner as [tx|]; [|eauto].
    specialize (Hnomatch tx eq_refl).
    destruct (findCredentialInExtrinsic credentialId (extrinsic tx))
      as [[[input|] [submitter|]]|e] eqn:Hfind; eauto.
    + exfalso.
      apply findCredentialInExtrinsic_sound in Hfind.
      destruct Hfind as (Hid & candidates & c & Hcandidates & Hin & Hc).
      exact (Hnomatch candidates c submitter input Hcandidates Hin Hc Hid).
    + rewrite findCredentialInExtrinsic_candidates in Hfind.
      destruct (candidateCalls (extrinsic tx)) as [candidates|] eqn:Hcandidates.
      * destruct (mapR_ok decodeCandidate candidates) as (contents & Hmap & _).
        { intros candidate Hin.
          destruct (Hdecode tx candidates eq_refl Hcandidates candidate Hin)
            as [i Hi].
          exists (i, snd candidate). unfold decodeCandidate. now rewrite Hi. }
        rewrite Hmap in Hfind. discriminate.
      * inversion Hfind. eauto.
  - intros tx candidates -> Hcandidates Hundecodable.
    rewrite findCredentialInExtrinsic_candidates, Hcandidates.
    destruct (mapR decodeCandidate candidates) as [contents|e] eqn:Hmap.
    + exfalso. apply Hundecodable. intros candidate Hin.
      destruct (mapR_ok_all decodeCandidate candidates contents Hmap
                  candidate Hin) as [decoded Hdecoded].
      apply decodeCandidate_ok_inv in Hdecoded. destruct Hdecoded as [Hd _].
      eauto.
    + apply mapR_throw_inv in Hmap.
      destruct Hmap as (before & [c attester] & after & Hsplit & Hbefore & Hc).
      exists before, c, attester, after, e.
      split; [exact Hsplit|]. split; [|split].
      * intros candidate Hin. destruct (Hbefore candidate Hin) as [decoded Hd].
        apply decodeCandidate_ok_inv in Hd. destruct Hd as [Hd _]. eauto.
      * unfold decodeCandidate in Hc. simpl in Hc.
        destruct (credentialInputFromChain c) as [i|e']; simpl in Hc;
          [discriminate | congruence].
      * reflexivity.
Qed.


End CredentialProperties.

(* ================================================================== *)
(** * Further properties of the light DID codec *)
(* ================================================================== *)

Section LightDidFurtherProperties.
Import LightDid.
Context {codecs : Codecs} {utils : DidUtils}.

Lemma DidKeyType_eqb_eq (a b : DidKeyType) :
  DidKeyType_eqb a b = true <-> a = b.
Proof. destruct a, b; simpl; split; congruence. Qed.

Lemma existsb_DidKeyType (k : DidKeyType) (l : list DidKeyType) :
  existsb (DidKeyType_eqb k) l = true <-> In k l.
Proof.
  rewrite existsb_exists. split.
  - intros (x & Hin & Heq). apply DidKeyType_eqb_eq in Heq. now subst.
  - intros Hin. exists k. split; [assumption | now apply DidKeyType_eqb_eq].
Qed.

Lemma forEach_ok {A} (f : A -> Result unit) (l : list A) :
  forEach f l = Ok tt -> forall x, In x l -> f x = Ok tt.
Proof.
  induction l as [|a l IH]; simpl; [contradiction|].
  destruct (f a) as [[]|] eqn:Ha; simpl; [|discriminate].
  intros Hrest x [<- | Hin]; [assumption | now apply IH].
Qed.

Lemma reservedServiceId_spec (id : string) :
  reservedServiceId id = true <-> id = "#authentication" \/ id = "#encryption".
Proof.
  unfold reservedServiceId. rewrite orb_true_iff, !String.eqb_eq. tauto.
Qed.

(** X1: every document [createLightDidDocument] returns has the id
    [did:kilt:light:], the code [00] (sr25519) or [01] (ed25519), the
    address of the authentication key and, only if there is a
    key-agreement key or a service, [:] and the encoded details; its
    one authentication method is [#authentication]; it has the
    key-agreement method [#encryption] exactly when the input has a
    key-agreement key, whose type is then an approved one; its services
    are the input's, none of them under a reserved id. *)
Theorem created_document_shape
  (input : CreateDocumentInput) (doc : DidDocument) :
  createLightDidDocument input = Ok doc ->
  exists auth code,
    decodeMultikeyVerificationMethod (in_authentication input) = Ok auth
    /\ (keyType auth = sr25519 /\ code = "00"
        \/ keyType auth = ed25519 /\ code = "01")
    /\ doc_id doc
       = "did:kilt:light:" ++ code
           ++ getAddressByVerificationMethod (in_authentication input)
           ++ match serializeAdditionalLightDidDetails
                      (in_keyAgreement input) (in_service input) with
              | None | Some EmptyString => ""
              | Some details => ":" ++ details
              end
    /\ (serializeAdditionalLightDidDetails
          (in_keyAgreement input) (in_service input) = None
        <-> in_keyAgreement input = None
            /\ (in_service input = None \/ in_service input = Some []))
    /\ authentication doc = Some ["#authentication"]
    /\ (in_keyAgreement input = None
        /\ keyAgreement doc = None
        /\ verificationMethod doc
           = Some [encodeVerificationMethodToMultiKey
                     (doc_id doc) "#authentication" auth]
        \/ exists key ka,
             in_keyAgreement input = Some key
             /\ decodeMultikeyVerificationMethod key = Ok ka
             /\ In (keyType ka) encryptionKeyTypes
             /\ keyAgreement doc = Some ["#encryption"]
             /\ verificationMethod doc
                = Some [encodeVerificationMethodToMultiKey
                          (doc_id doc) "#authentication" auth;
                        encodeVerificationMethodToMultiKey
                          (doc_id doc) "#encryption" ka])
    /\ service doc = in_service input
    /\ assertionMethod doc = None
    /\ capabilityDelegation doc = None
    /\ (forall services s,
           in_service input = Some services -> In s services ->
           svc_id s <> "#authentication" /\ svc_id s <> "#encryption"
           /\ validateNewService s = Ok tt).
Proof.
  intros Hcreate. apply createLightDidDocument_ok in Hcreate.
  destruct Hcreate as (auth & e & ka & Hauth & He & Hka & Hsvc & Hdec & ->).
  exists auth, e. split; [assumption|].
  split.
  { destruct (keyType auth); simpl in He; inversion He; auto. }
  split; [reflexivity|].
  split.
  { split.
    - intros Hnone. apply no_details_no_extras in Hnone.
      destruct Hnone as [Hnoka Hnosvc]. split; [assumption|].
      destruct (in_service input) as [[|s l]|]; auto; discriminate.
    - intros [Hnoka Hnosvc]. rewrite Hnoka.
      destruct Hnosvc as [-> | ->]; reflexivity. }
  split; [reflexivity|].
  split.
  { destruct (in_keyAgreement input) as [key|]; simpl in *.
    - right.
      destruct (decodeMultikeyVerificationMethod key) as [d|] eqn:Hkey;
        simpl in *; [|discriminate].
      inversion Hdec; subst ka.
      exists key, d. split; [reflexivity|]. split; [assumption|].
      split; [|split; reflexivity].
      apply existsb_DidKeyType.
      destruct (existsb (DidKeyType_eqb (keyType d)) encryptionKeyTypes);
        [reflexivity | discriminate].
    - left. inversion Hdec; subst ka. auto. }
  split; [reflexivity|]. split; [reflexivity|]. split; [reflexivity|].
  intros services s Hservices Hin. rewrite Hservices in Hsvc. simpl in Hsvc.
  pose proof (forEach_ok _ _ Hsvc s Hin) as Hs. simpl in Hs.
  destruct (reservedServiceId (svc_id s)) eqn:Hreserved; [discriminate|].
  split; [|split; [|assumption]]; intros Hid;
    assert (Htrue : reservedServiceId (svc_id s) = true)
      by (apply reservedServiceId_spec; auto); congruence.
Qed.

(** X2: an authentication key of a type other than sr25519 and ed25519
    makes [createLightDidDocument] throw [UnsupportedKeyError] with the
    [type] of the verification method, whatever the key-agreement key
    and the services are. *)
Theorem unsupported_authentication_key_type
  (input : CreateDocumentInput) (auth : DecodedVerificationMethod) :
  decodeMultikeyVerificationMethod (in_authentication input) = Ok auth ->
  keyType auth = ecdsa \/ keyType auth = x25519 ->
  createLightDidDocument input
  = Throw (UnsupportedKeyError (vm_type (in_authentication input))).
Proof.
  intros Hauth Htype. unfold createLightDidDocument,
    validateCreateDocumentInput.
  rewrite Hauth. simpl. now destruct Htype as [-> | ->].
Qed.

(** X3: a key-agreement key whose type is not among the approved
    encryption key types makes [createLightDidDocument] throw the
    [DidError] that names the type, whatever the services are. *)
Theorem unapproved_key_agreement_type
  (input : CreateDocumentInput) (auth : DecodedVerificationMethod)
  (key : VerificationMethod) (ka : DecodedVerificationMethod) :
  decodeMultikeyVerificationMethod (in_authentication input) = Ok auth ->
  keyType auth = sr25519 \/ keyType auth = ed25519 ->
  in_keyAgreement input = Some key ->
  decodeMultikeyVerificationMethod key = Ok ka ->
  ~ In (keyType ka) encryptionKeyTypes ->
  createLightDidDocument input
  = Throw (DidError ("Encryption key type " ++ quoted (keyTypeName (keyType ka))
                     ++ " is not supported")).
Proof.
  intros Hauth Htype Hkey Hka Hnot.
  unfold createLightDidDocument, validateCreateDocumentInput.
  rewrite Hauth. simpl.
  assert (He : exists e, verificationKeyTypeToLightDidEncoding (keyType auth)
                         = Some e)
    by (destruct Htype as [-> | ->]; simpl; eauto).
  destruct He as [e ->]. rewrite Hkey, Hka. simpl.
  destruct (existsb (DidKeyType_eqb (keyType ka)) encryptionKeyTypes) eqn:Hex.
  - apply existsb_DidKeyType in Hex. contradiction.
  - reflexivity.
Qed.

(** X4: an input with a service whose id is [#authentication] or
    [#encryption] never yields a document. *)
Theorem reserved_service_id_is_rejected
  (input : CreateDocumentInput) (services : list Service) (s : Service) :
  in_service input = Some services ->
  In s services ->
  svc_id s = "#authentication" \/ svc_id s = "#encryption" ->
  forall doc, createLightDidDocument input <> Ok doc.
Proof.
  intros Hservices Hin Hid doc Hcreate.
  apply createLightDidDocument_ok in Hcreate.
  destruct Hcreate as (auth & e & ka & _ & _ & _ & Hsvc & _).
  rewrite Hservices in Hsvc. simpl in Hsvc.
  pose proof (forEach_ok _ _ Hsvc s Hin) as Hs. simpl in Hs.
  apply reservedServiceId_spec in Hid. rewrite Hid in Hs. discriminate.
Qed.

(** X5: an empty list of services does not change the DID: the
    documents created with [service: []] and without [service] have
    the same id and differ in their [service] field only. *)
Theorem empty_service_list_keeps_the_did
  (auth : VerificationMethod) (keyAgreement : option VerificationMethod)
  (doc : DidDocument) :
  createLightDidDocument {| in_authentication := auth;
                            in_keyAgreement := keyAgreement;
                            in_service := Some [] |} = Ok doc ->
  createLightDidDocument {| in_authentication := auth;
                            in_keyAgreement := keyAgreement;
                            in_service := None |}
  = Ok (withoutEmptyServiceList doc)
  /\ doc_id (withoutEmptyServiceList doc) = doc_id doc
  /\ service doc = Some []
  /\ service (withoutEmptyServiceList doc) = None.
Proof.
  intros Hcreate. apply createLightDidDocument_ok in Hcreate.
  destruct Hcreate as (a & e & ka & Hauth & He & Hka & Hsvc & Hdec & ->).
  simpl in *. repeat split.
  apply createLightDidDocument_ok. exists a, e, ka. simpl.
  repeat split; assumption.
Qed.

(** X6: [parseDocumentFromLightDid] throws a [DidError], before it
    decodes anything, for a URI of a full DID, for a light DID URI with
    a fragment unless fragments are allowed, and for a light DID URI
    whose key type code is neither [00] nor [01]. *)
Theorem parseDocumentFromLightDid_rejects
  (uri : string) (p : ParsedUri) (failIfFragmentPresent : bool) :
  parse uri = Ok p ->
  p_type p = full
  \/ (truthy (p_fragment p) = true /\ failIfFragmentPresent = true)
  \/ (forall code, p_authKeyTypeEncoding p = Some code ->
                   code <> "00" /\ code <> "01") ->
  exists message,
    parseDocumentFromLightDid uri failIfFragmentPresent
    = Throw (DidError message).
Proof.
  intros Hparse Hcase. unfold parseDocumentFromLightDid.
  rewrite Hparse. simpl.
  destruct (p_type p) eqn:Htype; [|eauto].
  destruct Hcase as [Hfull | [[Hfragment ->] | Hcode]]; [discriminate | |].
  - rewrite Hfragment. simpl. eauto.
  - destruct (truthy (p_fragment p) && failIfFragmentPresent); [eauto|].
    destruct (p_authKeyTypeEncoding p) as [code|]; [|eauto].
    destruct (Hcode code eq_refl) as [H00 H01].
    unfold lightDidEncodingToVerificationKeyType.
    apply String.eqb_neq in H00, H01. rewrite H00, H01. eauto.
Qed.

(** X7: [deserializeAdditionalLightDidDetails] refuses every
    serialization version other than 1 without looking at the text, and
    refuses every decoded text that does not start with the byte 0
    without decoding the rest. *)
Theorem deserialize_rejects_other_versions_and_algorithms
  (rawInput other : string) (version : nat) (decoded : Bytes) :
  version <> 1 ->
  base58Decode rawInput = Ok decoded ->
  (forall serialized, decoded <> x00 :: serialized) ->
  deserializeAdditionalLightDidDetails other (Some version)
  = Throw (DidError "Serialization version not supported")
  /\ deserializeAdditionalLightDidDetails rawInput None
     = Throw (DidError "Serialization algorithm not supported")
  /\ deserializeAdditionalLightDidDetails rawInput (Some 1)
     = Throw (DidError "Serialization algorithm not supported").
Proof.
  intros Hversion Hdecoded Hfirst.
  unfold deserializeAdditionalLightDidDetails.
  apply Nat.eqb_neq in Hversion. rewrite Hversion, Hdecoded. simpl.
  destruct decoded as [|b serialized]; [auto|].
  destruct b; try (split; [|split]; reflexivity).
  now contradiction (Hfirst serialized).
Qed.

(** X8: reading a serialized service is a normalization: the current
    keys [type] and [serviceEndpoint] win over the keys [types] and
    [urls] of old light DIDs, which are read when the current ones are
    missing; writing the service read and reading it again changes
    nothing. *)
Theorem deserializeService_normalizes (s : SerializedService) :
  let read := deserializeService s in
  svc_id read = "#" ++ ss_id s
  /\ (forall t, ss_type s = Some t -> svc_type read = Some t)
  /\ (ss_type s = None -> svc_type read = ss_types s)
  /\ (forall e, ss_serviceEndpoint s = Some e -> serviceEndpoint read = Some e)
  /\ (ss_serviceEndpoint s = None -> serviceEndpoint read = ss_urls s)
  /\ deserializeService (serializeService read) = read
  /\ ss_types (serializeService read) = None
  /\ ss_urls (serializeService read) = None.
Proof.
  destruct s as [id type endpoint types urls]. simpl.
  repeat split.
  - intros t ->. reflexivity.
  - intros ->. reflexivity.
  - intros e ->. reflexivity.
  - intros ->. reflexivity.
  - unfold deserializeService, serializeService. simpl.
    destruct type, endpoint, types, urls; reflexivity.
Qed.

End LightDidFurtherProperties.

(* ================================================================== *)
(** * Further properties of the resolver *)
(* ================================================================== *)

Section ResolverFurtherProperties.
Import LightDid Resolver.
Context {codecs : Codecs} {utils : DidUtils} {repr : Representations}.
Variable api : ChainApi.

(** [resolveWithDocument] sends one query unless it answers a full DID
    from its live document. *)
Lemma resolveWithDocument_log
  (did : string) (type : DidType) (document : option DidDocument)
  (log : list Query) :
  snd (resolveWithDocument api did type document log)
  = (log ++ if isFull type && isSome document
            then []
            else [QueryDidBlacklist (toChain did)])%list.
Proof.
  unfold resolveWithDocument.
  destruct (isFull type && isSome document).
  - simpl. now rewrite app_nil_r.
  - chain_unfold.
    destruct (query_did_didBlacklist api (toChain did)) as [[[]|]|e];
      simpl; try reflexivity.
    destruct type; simpl; [|reflexivity].
    destruct (parseDocumentFromLightDid did false); simpl; [|reflexivity].
    destruct document; reflexivity.
Qed.

(** X9: the queries of [resolve], whatever the outcome: none for a
    string that fails validation or parsing; the linked-info query alone
    for a full DID with a live document; the linked-info query followed
    by the query of the deleted index for every other DID. *)
Theorem resolve_queries (did : string) (log : list Query) :
  snd (resolve api did log)
  = (log ++ match validateUri did (Some ExpectDid), parse did with
            | Ok _, Ok p =>
                if isFull (p_type p) && isSome (onChainDocument api did)
                then [QueryDid (toChain did)]
                else [QueryDid (toChain did); QueryDidBlacklist (toChain did)]
            | _, _ => []
            end)%list.
Proof.
  unfold resolve.
  destruct (validateUri did (Some ExpectDid)) as [[]|e]; simpl;
    [|now rewrite app_nil_r].
  unfold cbind at 1.
  destruct (parse did) as [p|e] eqn:Hparse.
  - rewrite (resolveInternal_after_lookup api did p log Hparse).
    pose proof (resolveWithDocument_log did (p_type p)
                  (onChainDocument api did)
                  (log ++ [QueryDid (toChain did)])%list) as Hlog.
    destruct (resolveWithDocument api did (p_type p) (onChainDocument api did)
                (log ++ [QueryDid (toChain did)])%list) as [[[r|]|e] log'];
      simpl in *; subst log'; rewrite <- app_assoc;
      destruct (isFull (p_type p) && isSome (onChainDocument api did));
      reflexivity.
  - unfold resolveInternal. chain_unfold. rewrite Hparse. simpl.
    now rewrite app_nil_r.
Qed.

(** X10: every result [resolve] returns has one of five shapes:
    [invalidDid] or [notFound] with no document and empty metadata;
    [deactivated: true] with no document and no error; the canonical id
    of the full DID with the id-only document; or a document with empty
    metadata.  [deactivated] and [canonicalId] never come together, and
    an error never comes with a document. *)
Theorem resolve_result_shapes
  (did : string) (log log' : list Query) (r : ResolutionResult) :
  resolve api did log = (Ok r, log') ->
  (r = {| didResolutionMetadata := Some invalidDid;
          didDocumentMetadata := {| deactivated := None; canonicalId := None |};
          didDocument := None |} /\ log' = log)
  \/ r = {| didResolutionMetadata := Some notFound;
            didDocumentMetadata :=
              {| deactivated := None; canonicalId := None |};
            didDocument := None |}
  \/ r = {| didResolutionMetadata := None;
            didDocumentMetadata :=
              {| deactivated := Some true; canonicalId := None |};
            didDocument := None |}
  \/ r = {| didResolutionMetadata := None;
            didDocumentMetadata :=
              {| deactivated := None;
                 canonicalId := Some (getFullDidUri did) |};
            didDocument :=
              Some {| doc_id := did;
                      authentication := None;
                      verificationMethod := None;
                      keyAgreement := None;
                      assertionMethod := None;
                      capabilityDelegation := None;
                      service := None |} |}
  \/ exists doc,
       r = {| didResolutionMetadata := None;
              didDocumentMetadata :=
                {| deactivated := None; canonicalId := None |};
              didDocument := Some doc |}.
Proof.
  unfold resolve.
  destruct (validateUri did (Some ExpectDid)) as [[]|e].
  - unfold cbind at 1.
    destruct (resolveInternal api did log) as [[[i|]|e] log1] eqn:Hinternal;
      unfold cret; intros H; inversion H; subst; clear H; auto.
    right. right.
    unfold resolveInternal in Hinternal. chain_unfold.
    destruct (parse did) as [p|]; [|discriminate].
    rewrite (lookupDocument_total api did log) in Hinternal.
    unfold resolveWithDocument in Hinternal. chain_unfold.
    destruct (isFull (p_type p) && isSome (onChainDocument api did)) eqn:Hlive.
    + inversion Hinternal; subst. simpl.
      apply andb_true_iff in Hlive. destruct Hlive as [_ Hdoc].
      destruct (onChainDocument api did) as [doc|]; [|discriminate].
      right. right. now exists doc.
    + destruct (query_did_didBlacklist api (toChain did)) as [[[]|]|];
        simpl in Hinternal; try discriminate.
      * inversion Hinternal; subst. auto.
      * destruct (p_type p); [|discriminate].
        destruct (parseDocumentFromLightDid did false) as [lightDoc|];
          [|discriminate].
        destruct (onChainDocument api did); inversion Hinternal; subst; simpl.
        -- right. left. reflexivity.
        -- right. right. now exists lightDoc.
  - unfold cret. intros H; inversion H; subst. auto.
Qed.

(** X11: a light DID whose identifier has no document on chain and no
    entry in the deleted index resolves to the document rebuilt from
    the URI, with empty metadata; it resolves so as well when the
    linked-info query is rejected.  What [parseDocumentFromLightDid]
    throws leaves [resolve]. *)
Theorem unmigrated_light_did_resolves_to_its_own_document
  (did : string) (p : ParsedUri) (log : list Query) :
  validateUri did (Some ExpectDid) = Ok tt ->
  parse did = Ok p ->
  p_type p = light ->
  onChainDocument api did = None ->
  query_did_didBlacklist api (toChain did) = Ok None ->
  resolve api did log
  = (match parseDocumentFromLightDid did false with
     | Ok lightDocument =>
         Ok {| didResolutionMetadata := None;
               didDocumentMetadata :=
                 {| deactivated := None; canonicalId := None |};
               didDocument := Some lightDocument |}
     | Throw e => Throw e
     end,
     (log ++ [QueryDid (toChain did); QueryDidBlacklist (toChain did)])%list).
Proof.
  intros Hv Hp Hlight Hnone Hlive.
  rewrite (resolve_valid api did p log Hv Hp).
  unfold resolveWithDocument. rewrite Hlight, Hnone. simpl.
  chain_unfold. rewrite Hlive. simpl. rewrite <- app_assoc. simpl.
  destruct (parseDocumentFromLightDid did false); reflexivity.
Qed.

(** X12: unlike the linked-info query, the query of the deleted index is
    not guarded: when it is rejected for a DID that is not a full DID
    with a live document, [resolve] throws the same exception. *)
Theorem rejected_deleted_index_query_leaves_resolve
  (did : string) (p : ParsedUri) (e : SDKError) (log : list Query) :
  validateUri did (Some ExpectDid) = Ok tt ->
  parse did = Ok p ->
  p_type p = light \/ onChainDocument api did = None ->
  query_did_didBlacklist api (toChain did) = Throw e ->
  resolve api did log
  = (Throw e,
     (log ++ [QueryDid (toChain did); QueryDidBlacklist (toChain did)])%list).
Proof.
  intros Hv Hp Hnot Hrejected.
  rewrite (resolve_valid api did p log Hv Hp).
  unfold resolveWithDocument.
  assert (Hguard : isFull (p_type p) && isSome (onChainDocument api did)
                   = false).
  { destruct Hnot as [-> | ->]; [reflexivity | apply andb_false_r]. }
  rewrite Hguard. chain_unfold. rewrite Hrejected.
  now rewrite <- app_assoc.
Qed.

(** X13: a full DID with a live document resolves to that document with
    empty metadata after the linked-info query alone; the deleted index
    plays no part, be its query answered or rejected. *)
Theorem live_full_did_resolves_to_its_document
  (did : string) (p : ParsedUri) (doc : DidDocument) (log : list Query) :
  validateUri did (Some ExpectDid) = Ok tt ->
  parse did = Ok p ->
  p_type p = full ->
  onChainDocument api did = Some doc ->
  resolve api did log
  = (Ok {| didResolutionMetadata := None;
           didDocumentMetadata := {| deactivated := None; canonicalId := None |};
           didDocument := Some doc |},
     (log ++ [QueryDid (toChain did)])%list)
  /\ forall otherApi : ChainApi,
       call_did_query otherApi = call_did_query api ->
       resolve otherApi did log = resolve api did log.
Proof.
  intros Hv Hp Hfull Hdoc. split.
  - rewrite (resolve_valid api did p log Hv Hp).
    unfold resolveWithDocument. now rewrite Hfull, Hdoc.
  - intros otherApi Hsame.
    assert (Hdoc' : onChainDocument otherApi did = Some doc)
      by (unfold onChainDocument in *; now rewrite Hsame).
    rewrite (resolve_valid api did p log Hv Hp).
    rewrite (resolve_valid otherApi did p log Hv Hp).
    unfold resolveWithDocument. now rewrite Hfull, Hdoc, Hdoc'.
Qed.

(** X14: for a supported media type, [resolveRepresentation] is
    [resolve] followed by the encoding of the document: same queries,
    same exception, same two metadata records, and a stream exactly
    when there is a document, which is the JSON text of the document
    for [application/did+json], the JSON text of the document with the
    ["@context"] of the W3C and the KILT URL, in this order, for
    [application/did+ld+json], and the CBOR bytes for
    [application/did+cbor]. *)
Theorem resolveRepresentation_of_supported_accept
  (did accept : string) (log : list Query) :
  In accept supportedMediaTypes ->
  match resolve api did log with
  | (Ok r, log') =>
      exists stream,
        resolveRepresentation api did (Some accept) log
        = (Ok {| rr_didResolutionMetadata := didResolutionMetadata r;
                 rr_didDocumentMetadata := didDocumentMetadata r;
                 didDocumentStream := stream |}, log')
        /\ (didDocument r = None -> stream = None)
        /\ forall doc,
             didDocument r = Some doc ->
             (accept = "application/did+json" ->
              stream = Some (JSON_stringify doc None))
             /\ (accept = "application/did+ld+json" ->
                 stream = Some (JSON_stringify doc
                                  (Some [W3C_DID_CONTEXT_URL;
                                         KILT_DID_CONTEXT_URL])))
             /\ (accept = "application/did+cbor" ->
                 stream = Some (cbor_encode_resource (ResDocument doc)))
  | (Throw e, log') =>
      resolveRepresentation api did (Some accept) log = (Throw e, log')
  end.
Proof.
  intros Hin. unfold resolveRepresentation, supportedContentType.
  assert (Hvalid : isValidContentType (Some accept) = true).
  { simpl in Hin. destruct Hin as [<- | [<- | [<- | []]]]; reflexivity. }
  rewrite Hvalid. unfold cbind.
  destruct (resolve api did log) as [[r|e] log']; [|reflexivity].
  destruct (didDocument r) as [doc|] eqn:Hdoc.
  - eexists. split; [reflexivity|]. split; [discriminate|].
    intros doc' Hdoc'. inversion Hdoc'; subst doc'.
    repeat split; intros ->; reflexivity.
  - eexists. split; [reflexivity|]. split; [reflexivity | discriminate].
Qed.

(** X15: every result [dereference] returns either has the error
    [invalidDidUrl], sent no query and has empty content metadata, or
    has the error [notFound], or has no error; a result with an error
    has neither content type nor content; a result without an error has
    a content and a supported content type, which is [accept] if that
    is supported and [application/did+json] otherwise, and the content
    is the resource as it is for [application/did+json], the resource
    with the two context URLs for [application/did+ld+json] and a
    buffer for [application/did+cbor]. *)
Theorem dereference_result_shapes
  (didUrl : string) (accept : option string) (log log' : list Query)
  (r : DereferenceResult) :
  dereference api didUrl accept log = (Ok r, log') ->
  (dm_error (dereferencingMetadata r) = Some invalidDidUrl
   /\ dm_contentType (dereferencingMetadata r) = None
   /\ contentStream r = None
   /\ contentMetadata r = {| deactivated := None; canonicalId := None |}
   /\ log' = log)
  \/ (dm_error (dereferencingMetadata r) = Some notFound
      /\ dm_contentType (dereferencingMetadata r) = None
      /\ contentStream r = None)
  \/ (dm_error (dereferencingMetadata r) = None
      /\ exists contentType resource,
           dm_contentType (dereferencingMetadata r) = Some contentType
           /\ In contentType supportedMediaTypes
           /\ (forall a, accept = Some a -> In a supportedMediaTypes ->
                         contentType = a)
           /\ (unsupportedAccept accept ->
               contentType = "application/did+json")
           /\ (contentType = "application/did+json" ->
               contentStream r = Some (Plain resource))
           /\ (contentType = "application/did+ld+json" ->
               contentStream r
               = Some (WithContext resource [W3C_DID_CONTEXT_URL;
                                             KILT_DID_CONTEXT_URL]))
           /\ (contentType = "application/did+cbor" ->
               contentStream r
               = Some (CborBuffer (cbor_encode_resource resource)))).
Proof.
  unfold dereference.
  destruct (validateUri didUrl None) as [[]|e].
  - unfold cbind.
    destruct (dereferenceInternal api didUrl log) as [[i|e] log1];
      [|discriminate].
    destruct (i_contentStream i) as [resource|]; unfold cret;
      intros H; inversion H; subst; clear H; simpl.
    + right. right. split; [reflexivity|].
      eexists. exists resource. split; [reflexivity|].
      unfold supportedContentType.
      destruct accept as [a|].
      * destruct (isValidContentType (Some a)) eqn:Hvalid.
        -- assert (Ha : In a supportedMediaTypes).
           { simpl in Hvalid. apply orb_true_iff in Hvalid.
             destruct Hvalid as [Hvalid | Hvalid];
               [apply orb_true_iff in Hvalid; destruct Hvalid as [H | H]|];
               [apply String.eqb_eq in H | apply String.eqb_eq in H
                | apply String.eqb_eq in Hvalid]; subst; simpl; auto. }
           split; [assumption|].
           split; [intros a' Ha'; now inversion Ha'|].
           split; [intros Hout; now contradiction (Hout a eq_refl)|].
           repeat split; intros ->; reflexivity.
        -- split; [simpl; auto|].
           split.
           { intros a' Ha' Hin. inversion Ha'; subst a'.
             simpl in Hin, Hvalid.
             destruct Hin as [<- | [<- | [<- | []]]]; discriminate. }
           split; [reflexivity|].
           repeat split; try reflexivity; discriminate.
      * split; [simpl; auto|].
        split; [discriminate|]. split; [reflexivity|].
        repeat split; try reflexivity; discriminate.
    + right. left. auto.
  - unfold cret. intros H; inversion H; subst. left. simpl. auto.
Qed.

Lemma find_first {A} (f : A -> bool) (l : list A) (x : A) :
  find f l = Some x <->
  exists before after,
    l = (before ++ x :: after)%list
    /\ f x = true
    /\ forall y, In y before -> f y = false.
Proof.
  split.
  - induction l as [|a l IH]; simpl; [discriminate|].
    destruct (f a) eqn:Ha.
    + intros H. inversion H; subst a. exists [], l. simpl.
      repeat split; try assumption. contradiction.
    + intros H. destruct (IH H) as (before & after & -> & Hx & Hbefore).
      exists (a :: before), after. simpl. repeat split; try assumption.
      intros y [<- | Hy]; auto.
  - intros (before & after & -> & Hx & Hbefore).
    rewrite (find_app_false f before (x :: after) Hbefore).
    simpl. now rewrite Hx.
Qed.

Lemma find_none_iff {A} (f : A -> bool) (l : list A) :
  find f l = None <-> forall x, In x l -> f x = false.
Proof.
  split; [apply find_none | apply find_all_false].
Qed.

(** X16: how a fragment is looked up in a resolved document that has
    verification methods: the content is the first verification method
    whose id is the fragment; failing that, the first service whose id
    is the fragment; never the document.  There is no content exactly
    when no verification method and no service has that id.  The
    content metadata are empty whatever the document metadata were. *)
Theorem dereferenceInternal_fragment_lookup
  (didUrl fragment : string) (p : ParsedUri) (r : ResolutionResult)
  (doc : DidDocument) (methods : list VerificationMethod)
  (log log' : list Query) :
  parse didUrl = Ok p ->
  p_fragment p = Some fragment ->
  resolve api (p_did p) log = (Ok r, log') ->
  didDocument r = Some doc ->
  verificationMethod doc = Some methods ->
  exists content,
    dereferenceInternal api didUrl log
    = (Ok {| i_contentStream := content;
             i_contentMetadata :=
               {| deactivated := None; canonicalId := None |} |}, log')
    /\ (forall m,
           content = Some (ResVerificationMethod m) <->
           exists before after,
             methods = (before ++ m :: after)%list
             /\ vm_id m = fragment
             /\ forall m', In m' before -> vm_id m' <> fragment)
    /\ (forall s,
           content = Some (ResService s) <->
           (forall m, In m methods -> vm_id m <> fragment)
           /\ exists services before after,
                service doc = Some services
                /\ services = (before ++ s :: after)%list
                /\ svc_id s = fragment
                /\ forall s', In s' before -> svc_id s' <> fragment)
    /\ (forall d, content <> Some (ResDocument d))
    /\ (content = None <->
        (forall m, In m methods -> vm_id m <> fragment)
        /\ (forall services s, service doc = Some services ->
                               In s services -> svc_id s <> fragment)).
Proof.
  intros Hparse Hfragment Hresolve Hdoc Hmethods.
  unfold dereferenceInternal. unfold cbind at 1. unfold liftR at 1.
  rewrite Hparse. unfold cbind at 1. rewrite Hresolve. cbv beta iota.
  rewrite Hfragment. cbv beta iota. unfold findVerificationMethod.
  rewrite Hdoc, Hmethods.
  chain_unfold. unfold findService.
  set (isMethod := fun m => String.eqb (vm_id m) fragment).
  set (isService := fun s => String.eqb (svc_id s) fragment).
  assert (HisMethod : forall m, isMethod m = false <-> vm_id m <> fragment)
    by (intros m; apply String.eqb_neq).
  assert (HisService : forall s', isService s' = false <-> svc_id s' <> fragment)
    by (intros s'; apply String.eqb_neq).
  eexists. split; [reflexivity|].
  destruct (find isMethod methods) as [m0|] eqn:Hfind.
  - pose proof Hfind as Hfirst. apply find_first in Hfirst.
    destruct Hfirst as (before & after & Hsplit & Hm0 & Hbefore).
    apply String.eqb_eq in Hm0.
    split; [|split; [|split]].
    + intros m. split.
      * intros H. inversion H; subst m. exists before, after.
        repeat split; try assumption.
        intros m' Hm'. now apply HisMethod, Hbefore.
      * intros (before' & after' & Hsplit' & Hm & Hbefore').
        assert (Hfind' : find isMethod methods = Some m).
        { apply find_first. exists before', after'.
          repeat split; try assumption.
          - now apply String.eqb_eq.
          - intros y Hy. now apply HisMethod, Hbefore'. }
        congruence.
    + intros s0. split; [discriminate|].
      intros [Hnone _]. exfalso.
      apply (Hnone m0); [|assumption].
      rewrite Hsplit. apply in_or_app. right. now left.
    + discriminate.
    + split; [discriminate|].
      intros [Hnone _]. exfalso.
      apply (Hnone m0); [|assumption].
      rewrite Hsplit. apply in_or_app. right. now left.
  - pose proof (proj1 (find_none_iff isMethod methods) Hfind) as Hnone.
    assert (Hnone' : forall m, In m methods -> vm_id m <> fragment)
      by (intros m Hm; now apply HisMethod, Hnone).
    split; [|split; [|split]].
    + intros m. split; [destruct (service doc) as [ss|];
                        [destruct (find isService ss)|]; discriminate|].
      intros (before & after & Hsplit & Hm & _). exfalso.
      apply (Hnone' m); [|assumption].
      rewrite Hsplit. apply in_or_app. right. now left.
    + intros s0. split.
      * intros H. split; [assumption|].
        destruct (service doc) as [ss|]; [|discriminate].
        destruct (find isService ss) as [s1|] eqn:Hfs; [|discriminate].
        inversion H; subst s1.
        apply find_first in Hfs.
        destruct Hfs as (before & after & Hsplit & Hs0 & Hbefore).
        exists ss, before, after. repeat split; try assumption.
        -- now apply String.eqb_eq.
        -- intros s' Hs'. now apply HisService, Hbefore.
      * intros (_ & ss & before & after & -> & Hsplit & Hs0 & Hbefore).
        assert (Hfs : find isService ss = Some s0).
        { apply find_first. exists before, after.
          repeat split; try assumption.
          - now apply String.eqb_eq.
          - intros y Hy. now apply HisService, Hbefore. }
        now rewrite Hfs.
    + intros d. destruct (service doc) as [ss|];
        [destruct (find isService ss)|]; discriminate.
    + split.
      * intros H. split; [assumption|].
        intros ss s0 Hss Hs0. rewrite Hss in H.
        destruct (find isService ss) as [s1|] eqn:Hfs; [discriminate|].
        now apply HisService, (proj1 (find_none_iff isService ss) Hfs).
      * intros [_ Hnoservice].
        destruct (service doc) as [ss|]; [|reflexivity].
        assert (Hfs : find isService ss = None).
        { apply find_none_iff. intros s0 Hs0.
          now apply HisService, (Hnoservice ss). }
        now rewrite Hfs.
Qed.

(** X17: dereferencing a fragment of a migrated light DID throws: the
    id-only document that [resolve] returns for it has no
    [verificationMethod], and the lookup calls [find] on it.  So does
    it for every resolved document without [verificationMethod]. *)
Theorem dereference_fragment_of_id_only_document_throws
  (didUrl fragment : string) (p : ParsedUri) (r : ResolutionResult)
  (doc : DidDocument) (accept : option string) (log log' : list Query) :
  validateUri didUrl None = Ok tt ->
  parse didUrl = Ok p ->
  p_fragment p = Some fragment ->
  resolve api (p_did p) log = (Ok r, log') ->
  didDocument r = Some doc ->
  verificationMethod doc = None ->
  dereference api didUrl accept log
  = (Throw (TypeError "Cannot read properties of undefined (reading 'find')"),
     log').
Proof.
  intros Hvalid Hparse Hfragment Hresolve Hdoc Hmethods.
  unfold dereference. rewrite Hvalid. unfold cbind at 1.
  unfold dereferenceInternal. unfold cbind at 1. unfold liftR at 1.
  rewrite Hparse. unfold cbind at 1. rewrite Hresolve. cbv beta iota.
  rewrite Hfragment. cbv beta iota. unfold findVerificationMethod.
  rewrite Hdoc, Hmethods.
  reflexivity.
Qed.

(** X18: dereferencing a DID URL without a fragment is [resolve] of its
    DID: same queries and same exception; the content is the resolved
    document and the content metadata are the document metadata; when
    [resolve] has no document, be it for a deleted, an unknown or an
    invalid DID, the error is [notFound] and the content metadata are
    still the document metadata. *)
Theorem dereference_without_fragment
  (didUrl : string) (p : ParsedUri) (accept : option string)
  (log : list Query) :
  validateUri didUrl None = Ok tt ->
  parse didUrl = Ok p ->
  p_fragment p = None ->
  match resolve api (p_did p) log with
  | (Ok r, log') =>
      exists result,
        dereference api didUrl accept log = (Ok result, log')
        /\ contentMetadata result = didDocumentMetadata r
        /\ (didDocument r = None ->
            dm_error (dereferencingMetadata result) = Some notFound
            /\ contentStream result = None)
        /\ (forall doc,
               didDocument r = Some doc ->
               dm_error (dereferencingMetadata result) = None
               /\ (accept = Some "application/did+json"
                   \/ unsupportedAccept accept ->
                   contentStream result = Some (Plain (ResDocument doc))))
  | (Throw e, log') => dereference api didUrl accept log = (Throw e, log')
  end.
Proof.
  intros Hvalid Hparse Hfragment.
  unfold dereference, dereferenceInternal. rewrite Hvalid.
  unfold cbind, liftR. rewrite Hparse.
  destruct (resolve api (p_did p) log) as [[r|e] log']; [|reflexivity].
  rewrite Hfragment. unfold cret. simpl.
  destruct (didDocument r) as [doc|]; simpl.
  - eexists. split; [reflexivity|]. simpl.
    split; [reflexivity|]. split; [discriminate|].
    intros doc' Hdoc'. inversion Hdoc'; subst doc'.
    split; [reflexivity|].
    intros [-> | Hout]; [reflexivity|].
    now rewrite (supportedContentType_unsupported accept Hout).
  - eexists. split; [reflexivity|]. simpl.
    split; [reflexivity|]. split; [auto | discriminate].
Qed.

End ResolverFurtherProperties.

(* ================================================================== *)
(** * Further properties of the credential reconstruction *)
(* ================================================================== *)

Section CallFacts.
Import PublicCredential.

(** Induction on a call that reaches the calls inside a batch. *)
Lemma Call_nested_ind (P : Call -> Prop) :
  (forall kind calls, Forall P calls -> P (Utility kind calls)) ->
  (forall did call, P call -> P (SubmitDidCall did call)) ->
  (forall credential, P (PublicCredentialsAdd credential)) ->
  (forall name, P (OtherCall name)) ->
  forall call, P call.
Proof.
  intros Hbatch Hdid Hadd Hother. fix IH 1.
  intros [kind calls|did call|credential|name].
  - apply Hbatch. induction calls as [|c calls IHcalls]; constructor.
    + apply IH.
    + exact IHcalls.
  - apply Hdid, IH.
  - apply Hadd.
  - apply Hother.
Qed.

Lemma flat_map_flat_map {A B C : Type} (f : A -> list B) (g : B -> list C)
      (l : list A) :
  flat_map g (flat_map f l) = flat_map (fun a => flat_map g (f a)) l.
Proof.
  induction l as [|a l IH]; [reflexivity|]. simpl.
  now rewrite flat_map_app, IH.
Qed.

Lemma flat_map_nil {A B : Type} (f : A -> list B) (l : list A) :
  (forall a, In a l -> f a = []) -> flat_map f l = [].
Proof.
  induction l as [|a l IH]; intros H; [reflexivity|]. simpl.
  rewrite (H a) by now left. apply IH. intros x Hx. apply H. now right.
Qed.

(** [l.filter(p).reverse().find(f)] is the last element of [l] that
    satisfies [p] and [f], if there is one. *)
Lemma find_rev_filter {A : Type} (p f : A -> bool) (l : list A) :
  match find f (rev (filter p l)) with
  | Some x =>
      exists before after,
        l = (before ++ x :: after)%list /\ p x = true /\ f x = true
        /\ forall y, In y after -> p y = true -> f y = false
  | None => forall y, In y l -> p y = true -> f y = false
  end.
Proof.
  induction l as [|a l IH] using rev_ind.
  - simpl. intros y [].
  - rewrite filter_app, rev_app_distr. simpl.
    destruct (p a) eqn:Hp; simpl.
    + destruct (f a) eqn:Hf.
      * exists l, []. repeat split; try assumption. intros y [].
      * destruct (find f (rev (filter p l))) as [x|].
        -- destruct IH as (before & after & -> & Hpx & Hfx & Hafter).
           exists before, (after ++ [a])%list.
           rewrite <- app_assoc. repeat split; try assumption.
           intros y Hy Hpy. apply in_app_or in Hy.
           destruct Hy as [Hy | [<- | []]]; [now apply Hafter | assumption].
        -- intros y Hy Hpy. apply in_app_or in Hy.
           destruct Hy as [Hy | [<- | []]]; [now apply IH | assumption].
    + destruct (find f (rev (filter p l))) as [x|].
      * destruct IH as (before & after & -> & Hpx & Hfx & Hafter).
        exists before, (after ++ [a])%list.
        rewrite <- app_assoc. repeat split; try assumption.
        intros y Hy Hpy. apply in_app_or in Hy.
        destruct Hy as [Hy | [<- | []]]; [now apply Hafter | congruence].
      * intros y Hy Hpy. apply in_app_or in Hy.
        destruct Hy as [Hy | [<- | []]]; [now apply IH | congruence].
Qed.

End CallFacts.

Section CredentialFurtherProperties.
Import PublicCredential.
Context {cutils : CredentialUtils}.
Variable api : ChainApi.

(** X19: [flattenCalls] returns no batch call, and flattening the calls
    it returns gives them back unchanged. *)
Theorem flattenCalls_is_flat (call : Call) :
  Forall (fun c => isBatch c = false) (flattenCalls call)
  /\ flat_map flattenCalls (flattenCalls call) = flattenCalls call.
Proof.
  induction call as [kind calls IH|did call _|credential|name]
    using Call_nested_ind;
    try (split; [repeat constructor | reflexivity]).
  simpl. induction IH as [|c calls [Hflat Hagain] _ [IHflat IHagain]].
  - split; [constructor | reflexivity].
  - simpl. split.
    + apply Forall_app. split; assumption.
    + rewrite flat_map_app. now rewrite Hagain, IHagain.
Qed.

Lemma extractDidCalls_of_batch (kind : BatchKind) (calls : list Call) :
  extractDidCallsFromBatchCall (Utility kind calls)
  = flat_map extractDidCallsFromBatchCall calls.
Proof.
  unfold extractDidCallsFromBatchCall. simpl. apply flat_map_flat_map.
Qed.

Lemma didCalls_of_flattened (calls : list Call) :
  flat_map extractDidCallsFromBatchCall calls
  = flat_map (fun c => match c with
                       | SubmitDidCall did inner => [(did, inner)]
                       | _ => []
                       end)
             (flat_map flattenCalls calls).
Proof.
  symmetry. apply flat_map_flat_map.
Qed.

(** X20: the search inside a batch depends on the flattened calls only:
    two batches with the same calls after flattening, of whatever kind
    and nesting, give the same result. *)
Theorem batch_search_depends_on_flattened_calls
  (credentialId : string) (kind kind' : BatchKind) (calls calls' : list Call) :
  flat_map flattenCalls calls = flat_map flattenCalls calls' ->
  findCredentialInExtrinsic credentialId (Utility kind calls)
  = findCredentialInExtrinsic credentialId (Utility kind' calls').
Proof.
  intros Hflat. simpl. rewrite !didCalls_of_flattened, Hflat. reflexivity.
Qed.

(** X21: a batch without any [did.submitDidCall] among its flattened
    calls is searched without an error and yields neither a credential
    nor a submitter; [publicCredentials.add] calls outside a DID call
    are not candidates. *)
Theorem batch_without_did_call_yields_nothing
  (credentialId : string) (kind : BatchKind) (calls : list Call) :
  (forall c, In c (flat_map flattenCalls calls) -> isDidCall c = false) ->
  findCredentialInExtrinsic credentialId (Utility kind calls)
  = Ok (None, None).
Proof.
  intros Hnone. simpl. rewrite didCalls_of_flattened.
  rewrite (flat_map_nil _ (flat_map flattenCalls calls)); [reflexivity|].
  intros c Hc. specialize (Hnone c Hc). now destruct c.
Qed.

(** X22: a [did.submitDidCall] alone in a batch yields the same
    credential, or the same exception, as the call as an extrinsic of
    its own. *)
Theorem did_call_alone_in_batch
  (credentialId : string) (kind : BatchKind) (did : string) (call : Call) :
  foundCredential
    (findCredentialInExtrinsic credentialId
       (Utility kind [SubmitDidCall did call]))
  = foundCredential
      (findCredentialInExtrinsic credentialId (SubmitDidCall did call)).
Proof.
  rewrite !findCredentialInExtrinsic_candidates.
  assert (Hsame : candidateCalls (Utility kind [SubmitDidCall did call])
                  = candidateCalls (SubmitDidCall did call)).
  { simpl. now rewrite !app_nil_r. }
  rewrite Hsame. cbn [candidateCalls].
  destruct (mapR decodeCandidate _) as [contents|] eqn:Hmap; simpl;
    [|reflexivity].
  destruct (find (idMatches credentialId) (rev contents)) as [[i a]|] eqn:Hfind;
    simpl; [|reflexivity].
  apply find_some in Hfind. destruct Hfind as [Hin _].
  apply in_rev in Hin. apply mapR_inv in Hmap.
  assert (Ha : a = didFromChain did).
  { clear - Hmap Hin.
    remember (map (fun c => (c, didFromChain did))
                (extractPublicCredentialCreationCallsFromDidCall call))
      as candidates eqn:Hcandidates.
    assert (Hall : forall candidate, In candidate candidates ->
                                     snd candidate = didFromChain did).
    { subst candidates. intros candidate Hc. apply in_map_iff in Hc.
      destruct Hc as (c & <- & _). reflexivity. }
    clear Hcandidates.
    induction Hmap as [|x y l l' Hxy Hrest IH]; [contradiction|].
    destruct Hin as [-> | Hin].
    - apply decodeCandidate_ok_inv in Hxy. simpl in Hxy.
      destruct Hxy as [_ ->]. apply Hall. now left.
    - apply IH; [assumption|]. intros candidate Hc. apply Hall. now right. }
  now rewrite Ha.
Qed.

Lemma winnerOf_exists (credentialId : string) (block : SignedBlockExtended) :
  exists winner, winnerOf credentialId block winner.
Proof.
  pose proof (find_rev_filter
                (fun tx => isNone (dispatchError tx))
                (fun tx => existsb (storesCredential credentialId)
                                   (events tx))
                (extrinsics block)) as H.
  destruct (find _ (rev (filter _ (extrinsics block)))) as [tx|].
  - exists (Some tx). destruct H as (before & after & Hsplit & Hp & Hf & Ha).
    exists before, after. repeat split; try assumption.
    + now destruct (dispatchError tx).
    + intros tx' Hin Hnone. apply Ha; [assumption|]. now rewrite Hnone.
  - exists None. intros tx Hin Hnone. apply H; [assumption|].
    now rewrite Hnone.
Qed.

(** X23: when the block is there, the block search ends with one query
    and settles on the last successful extrinsic with a "credential
    stored" event for the id, or on none when the block has no such
    extrinsic. *)
Theorem block_search_finds_the_winning_extrinsic
  (credentialId : string) (n : N) (block : SignedBlockExtended)
  (log : list Query) :
  derive_chain_getBlockByNumber api n = Ok block ->
  exists winner,
    winnerOf credentialId block winner
    /\ retrievePublicCredentialCreationExtrinsicFromBlock api credentialId n log
       = (Ok (option_map extrinsic winner),
          (log ++ [QueryBlockByNumber n])%list).
Proof.
  intros Hblock.
  destruct (winnerOf_exists credentialId block) as [winner Hwinner].
  exists winner. split; [assumption|].
  now apply retrieve_winner with (block := block).
Qed.

Lemma credentialFromChain_log
  (credentialId : string) (publicCredentialEntry : option CredentialEntry)
  (log : list Query) :
  credentialFromChain api credentialId publicCredentialEntry log
  = (fst (credentialFromChain api credentialId publicCredentialEntry []),
     (log ++ match publicCredentialEntry with
             | Some entry => [QueryBlockByNumber (blockNumber entry)]
             | None => []
             end)%list).
Proof.
  destruct publicCredentialEntry as [entry|];
    [|simpl; now rewrite app_nil_r].
  unfold credentialFromChain, retrievePublicCredentialCreationExtrinsicFromBlock.
  chain_unfold.
  destruct (derive_chain_getBlockByNumber api (blockNumber entry))
    as [block|e]; [|reflexivity].
  destruct (option_map extrinsic _) as [ext|]; [|reflexivity].
  destruct (findCredentialInExtrinsic credentialId ext)
    as [[[input|] [submitter|]]|e]; reflexivity.
Qed.

(** X24: [credentialFromChain] sends one query, for the block of the
    entry, whatever the outcome, and none without an entry; the outcome
    does not depend on the queries sent before. *)
Theorem credentialFromChain_queries
  (credentialId : string) (publicCredentialEntry : option CredentialEntry)
  (log : list Query) :
  snd (credentialFromChain api credentialId publicCredentialEntry log)
  = (log ++ match publicCredentialEntry with
            | Some entry => [QueryBlockByNumber (blockNumber entry)]
            | None => []
            end)%list
  /\ fst (credentialFromChain api credentialId publicCredentialEntry log)
     = fst (credentialFromChain api credentialId publicCredentialEntry []).
Proof.
  rewrite credentialFromChain_log. split; reflexivity.
Qed.

Lemma credentialFromChain_ok_inv
  (credentialId : string) (entry : CredentialEntry)
  (credential : IPublicCredential) (log log' : list Query) :
  credentialFromChain api credentialId (Some entry) log
  = (Ok credential, log') ->
  exists block tx candidates c input,
    derive_chain_getBlockByNumber api (blockNumber entry) = Ok block
    /\ isWinningExtrinsic credentialId block tx
    /\ candidateCalls (extrinsic tx) = Some candidates
    /\ In (c, pc_attester credential) candidates
    /\ credentialInputFromChain c = Ok input
    /\ getIdForCredential input (pc_attester credential) = credentialId
    /\ credential = assembled input (pc_attester credential) entry.
Proof.
  intros H.
  destruct (derive_chain_getBlockByNumber api (blockNumber entry))
    as [block|e] eqn:Hblock.
  - destruct (winnerOf_exists credentialId block) as [winner Hwinner].
    rewrite (credentialFromChain_run api credentialId entry block winner log
               Hblock Hwinner) in H.
    destruct winner as [tx|]; [|discriminate].
    destruct (findCredentialInExtrinsic credentialId (extrinsic tx))
      as [[[input|] [submitter|]]|e] eqn:Hfind; try discriminate.
    inversion H; subst; clear H.
    apply findCredentialInExtrinsic_sound in Hfind.
    destruct Hfind as (Hid & candidates & c & Hcandidates & Hin & Hc).
    exists block, tx, candidates, c, input. simpl. auto 10.
  - unfold credentialFromChain,
      retrievePublicCredentialCreationExtrinsicFromBlock in H.
    chain_unfold. rewrite Hblock in H. discriminate.
Qed.

(** X25: a credential [credentialFromChain] returns is assembled from a
    candidate call of the winning extrinsic of the entry's block: the
    content is the decoded payload of that call and the attester is its
    authorizing DID. *)
Theorem returned_credential_comes_from_a_candidate
  (credentialId : string) (entry : CredentialEntry)
  (credential : IPublicCredential) (log log' : list Query) :
  credentialFromChain api credentialId (Some entry) log
  = (Ok credential, log') ->
  exists block tx candidates c input,
    derive_chain_getBlockByNumber api (blockNumber entry) = Ok block
    /\ isWinningExtrinsic credentialId block tx
    /\ candidateCalls (extrinsic tx) = Some candidates
    /\ In (c, pc_attester credential) candidates
    /\ credentialInputFromChain c = Ok input
    /\ credential = assembled input (pc_attester credential) entry.
Proof.
  intros H. apply credentialFromChain_ok_inv in H.
  destruct H as (block & tx & candidates & c & input & H1 & H2 & H3 & H4 & H5
                 & _ & H7).
  exists block, tx, candidates, c, input. auto 10.
Qed.

(** X26: when a candidate call of the winning extrinsic carries a
    payload that does not decode, and every candidate before it does,
    [credentialFromChain] throws the exception of that decoding,
    whatever the candidates after it are. *)
Theorem undecodable_candidate_fails_reconstruction
  (credentialId : string) (entry : CredentialEntry)
  (block : SignedBlockExtended) (tx : TxWithEvent)
  (before after : list (EncodedCredential * string))
  (c : EncodedCredential) (attester : string) (e : SDKError)
  (log : list Query) :
  derive_chain_getBlockByNumber api (blockNumber entry) = Ok block ->
  isWinningExtrinsic credentialId block tx ->
  candidateCalls (extrinsic tx) = Some (before ++ (c, attester) :: after)%list ->
  allDecode before ->
  credentialInputFromChain c = Throw e ->
  credentialFromChain api credentialId (Some entry) log
  = (Throw e, (log ++ [QueryBlockByNumber (blockNumber entry)])%list).
Proof.
  intros Hblock Hwinner Hcandidates Hbefore Hc.
  rewrite (credentialFromChain_run api credentialId entry block (Some tx) log
             Hblock Hwinner).
  rewrite findCredentialInExtrinsic_candidates, Hcandidates.
  rewrite (mapR_first_throw decodeCandidate before after (c, attester) e).
  - reflexivity.
  - intros candidate Hin. destruct (Hbefore candidate Hin) as [i Hi].
    exists (i, snd candidate). unfold decodeCandidate. now rewrite Hi.
  - unfold decodeCandidate. simpl. now rewrite Hc.
Qed.

End CredentialFurtherProperties.

Section CredentialsFromChainProperties.
Import PublicCredential PublicCredentialChain.
Context {cutils : CredentialUtils} {cencoders : CredentialEncoders}.
Variable api : ChainApi.

Lemma settleAll_reconstructions
  (entries : list (string * CredentialEntry)) (log : list Query) :
  settleAll
    (map (fun idAndEntry =>
            credentialFromChain api (fst idAndEntry) (Some (snd idAndEntry)))
         entries)
    log
  = (map (fun idAndEntry =>
            fst (credentialFromChain api (fst idAndEntry)
                   (Some (snd idAndEntry)) []))
         entries,
     (log ++ map (fun idAndEntry =>
                    QueryBlockByNumber (blockNumber (snd idAndEntry)))
                 entries)%list).
Proof.
  revert log. induction entries as [|[id entry] entries IH]; intros log.
  - simpl. now rewrite app_nil_r.
  - cbn [map settleAll fst snd].
    rewrite (credentialFromChain_log api id (Some entry) log).
    rewrite IH. rewrite <- app_assoc. reflexivity.
Qed.

Lemma allFulfilled_reconstructions
  (entries : list (string * CredentialEntry))
  (credentials : list IPublicCredential) :
  allFulfilled
    (map (fun idAndEntry =>
            fst (credentialFromChain api (fst idAndEntry)
                   (Some (snd idAndEntry)) []))
         entries)
  = Some credentials ->
  map (fun credential =>
         (pc_id credential,
          {| blockNumber := pc_blockNumber credential;
             revoked := pc_revoked credential |}))
      credentials
  = entries.
Proof.
  revert credentials.
  induction entries as [|[id entry] entries IH]; intros credentials.
  - cbn [map allFulfilled]. intros H. inversion H. reflexivity.
  - cbn [map allFulfilled fst snd].
    destruct (credentialFromChain api id (Some entry) [])
      as [[credential|e] log'] eqn:Hone; cbn [fst]; [|discriminate].
    destruct (allFulfilled _) as [values|] eqn:Hall; cbn [option_map];
      [|discriminate].
    intros H. inversion H; subst; clear H. cbn [map].
    rewrite (IH values eq_refl).
    apply credentialFromChain_ok_inv in Hone.
    destruct Hone as (block & tx & candidates & c & input & _ & _ & _ & _
                      & _ & Hid & Hcredential).
    rewrite Hcredential in *. cbn in *. rewrite Hid. now destruct entry.
Qed.

(** X27: [credentialsFromChain] on an error hands on its text without a
    query; on a list of entries it starts one reconstruction per entry,
    with the block queries in the order of the entries, and when every
    one of them is fulfilled the credentials [Promise.all] gives are in
    the order of the entries, each with the id, block number and
    revocation flag of its entry. *)
Theorem credentialsFromChain_reconstructs_every_entry
  (entries : list (string * CredentialEntry)) (log : list Query) :
  (forall message,
      credentialsFromChain api (IsErr message) log
      = (ErrorThrown message, log))
  /\ exists outcomes,
       credentialsFromChain api (IsOk entries) log
       = (Reconstructions outcomes,
          (log ++ map (fun idAndEntry =>
                         QueryBlockByNumber (blockNumber (snd idAndEntry)))
                      entries)%list)
       /\ length outcomes = length entries
       /\ forall credentials,
            PromiseAll outcomes (Ok credentials) ->
            map (fun credential =>
                   (pc_id credential,
                    {| blockNumber := pc_blockNumber credential;
                       revoked := pc_revoked credential |}))
                credentials
            = entries.
Proof.
  split; [reflexivity|].
  unfold credentialsFromChain. rewrite settleAll_reconstructions.
  eexists. split; [reflexivity|]. split; [apply length_map|].
  intros credentials. unfold PromiseAll.
  destruct (allFulfilled _) as [values|] eqn:Hall.
  - intros H. inversion H; subst; clear H.
    now apply allFulfilled_reconstructions.
  - intros (e & _ & H). discriminate.
Qed.

Lemma hexToBytes_toStringHex (bytes : Bytes) :
  hexToBytes (toStringHex bytes) = Some bytes.
Proof.
  induction bytes as [|b bytes IH]; [reflexivity|].
  cbn [toStringHex hexToBytes]. rewrite IH.
  destruct b; reflexivity.
Qed.

(** X28: what [toChain] formats is stored by the chain with the CBOR
    bytes of the claims, and [credentialInputFromChain] reads the input
    back from it when the subject is a valid asset DID and the claims
    survive CBOR. *)
Theorem toChain_is_read_back (input : IPublicCredentialInput) :
  validateAssetUri (subject input) = Ok tt ->
  cborDecode (cborEncode (claims input)) = Ok (claims input) ->
  exists stored,
    asStoredOnChain (toChain input) = Some stored
    /\ ec_claims stored = cborEncode (claims input)
    /\ credentialInputFromChain stored = Ok input.
Proof.
  intros Hsubject Hclaims.
  unfold asStoredOnChain, toChain. cbn [epc_claims String.append].
  rewrite hexToBytes_toStringHex. cbn [option_map].
  eexists. split; [reflexivity|]. split; [reflexivity|].
  unfold credentialInputFromChain. cbn [ec_subject ec_claims ec_ctypeHash
    ec_authorization epc_subject epc_ctypeHash epc_authorization].
  rewrite Hsubject. cbn [rbind]. rewrite Hclaims. cbn [rbind].
  now destruct input.
Qed.

End CredentialsFromChainProperties.

(* ================================================================== *)
(** * Properties of the DID chain queries of the earlier SDK *)
(* ================================================================== *)

Section DidChainProperties.
Import DidChain.
Variable query_did_did : string -> Result (option DidDetails).
Variable toHex : Bytes -> string.
Variable toNumber : N -> Result N.
Variable getDidFromIdentifier : string -> Result string.

(** X29: the record [queryById] returns for a DID that is on the chain
    carries the authentication key also as its key agreement key,
    whatever key agreement key the chain stores, and lists the
    verification keys in the order of the chain, with the optional
    fields there exactly when the chain has them. *)
Theorem queryById_record
  (did_identifier : string) (didDetail : DidDetails) (record : IDidRecord) :
  query_did_did did_identifier = Ok (Some didDetail) ->
  queryById query_did_did toHex toNumber getDidFromIdentifier did_identifier
  = Ok (Some record) ->
  r_key_agreement_key record = decodePublicKey toHex (auth_key didDetail)
  /\ r_auth_key record = decodePublicKey toHex (auth_key didDetail)
  /\ map (fun key => (kd_id key, kd_type key, kd_publicKeyHex key))
         (r_verification_keys record)
     = map (fun keyDetails =>
              (toHex (entry_keyId keyDetails),
               key_type (entry_verification_key keyDetails),
               toHex (key_value (entry_verification_key keyDetails))))
           (verification_keys didDetail)
  /\ r_endpoint_url record = endpoint_url didDetail
  /\ r_delegation_key record
     = option_map (decodePublicKey toHex) (delegation_key didDetail)
  /\ r_attestation_key record
     = option_map (decodePublicKey toHex) (attestation_key didDetail).
Proof.
  intros Hquery. unfold queryById, queryEncoded. rewrite Hquery. cbn [rbind].
  destruct (mapR _ (verification_keys didDetail)) as [keys|] eqn:Hkeys;
    cbn [rbind]; [|discriminate].
  destruct (getDidFromIdentifier did_identifier) as [did|]; cbn [rbind];
    [|discriminate].
  destruct (toNumber (last_tx_counter didDetail)) as [counter|]; cbn [rbind];
    [|discriminate].
  intros H. inversion H; subst; clear H. cbn.
  repeat split; try reflexivity.
  - apply mapR_inv in Hkeys.
    induction Hkeys as [|x y l l' Hxy _ IH]; [reflexivity|].
    simpl. rewrite IH. f_equal.
    destruct (toNumber (entry_block_number x)); [|discriminate].
    simpl in Hxy. now inversion Hxy.
  - now destruct (endpoint_url didDetail).
Qed.

End DidChainProperties.

(* ================================================================== *)
(** * Properties of the type bundle *)
(* ================================================================== *)

Section TypeBundleProperties.
Import TypeDefinitions.

Lemma servesVersion_true (specVersion : N) (entry : VersionedTypes) :
  servesVersion specVersion entry = true ->
  (minmax_min entry <= specVersion)%N
  /\ match minmax_max entry with
     | Some max => (specVersion <= max)%N
     | None => True
     end.
Proof.
  unfold servesVersion. intros H. apply andb_true_iff in H.
  destruct H as [Hmin Hmax]. apply N.leb_le in Hmin. split; [assumption|].
  destruct (minmax_max entry); [now apply N.leb_le | exact I].
Qed.

Lemma servesVersion_false (specVersion : N) (entry : VersionedTypes) :
  servesVersion specVersion entry = false ->
  (specVersion < minmax_min entry)%N
  \/ match minmax_max entry with
     | Some max => (max < specVersion)%N
     | None => False
     end.
Proof.
  unfold servesVersion. intros H. apply andb_false_iff in H.
  destruct H as [Hmin | Hmax]; [left; now apply N.leb_gt|].
  right. destruct (minmax_max entry); [now apply N.leb_gt | discriminate].
Qed.

Ltac next_entry :=
  match goal with
  | |- context [filter ?p (?x :: ?l)] =>
      let H := fresh "H" in
      change (filter p (x :: l))
        with (if p x then (x :: filter p l)%list else filter p l);
      destruct (p x) eqn:H;
      [ apply servesVersion_true in H; cbn in H
      | apply servesVersion_false in H; cbn in H ];
      try (exfalso; lia)
  end.

(** X30: the ranges of [typeBundleForPolkadot] never overlap: a runtime
    version is served by at most one entry; the versions 10711 to 10719
    are served by none; and the types exported as [latest] serve the
    versions 10720 to 10899, not the open range from 10900 on. *)
Theorem type_bundle_ranges (specVersion : N) :
  (length (typesOfVersion specVersion) <= 1)%nat
  /\ (typesOfVersion specVersion = []
      <-> (10710 < specVersion < 10720)%N)
  /\ (In latest (typesOfVersion specVersion)
      <-> (10720 <= specVersion <= 10899)%N).
Proof.
  unfold typesOfVersion, typeBundleForPolkadot_types, latest.
  repeat next_entry;
    cbn [filter map types length In];
    (split; [lia|]);
    (split; split; intros Hgoal;
     try discriminate Hgoal; try lia;
     try (destruct Hgoal as [Hgoal | []]; discriminate Hgoal);
     try reflexivity; try (now left)).
Qed.

End TypeBundleProperties.

(* ================================================================== *)
(** * The properties on the sample data *)
(* ================================================================== *)

Import LightDid Resolver PublicCredential Demo.

(** The embedding on the scenarios of the specification. *)

Example light_did_of_minimal_input :
  option_map doc_id
    (match createLightDidDocument minimalInput with
     | Ok doc => Some doc
     | Throw _ => None
     end)
  = Some "did:kilt:light:0140a0b0c".
Proof. vm_compute. reflexivity. Qed.

Example unmigrated_light_did_resolves_to_its_document :
  fst (resolve registry aliceLight [])
  = Ok {| didResolutionMetadata := None;
          didDocumentMetadata := emptyDocumentMetadata;
          didDocument := Some (documentOf minimalInput) |}.
Proof. vm_compute. reflexivity. Qed.

Example dereference_of_unknown_fragment :
  fst (dereference registry "did:kilt:full:4abba#unknown"
                   (Some "application/did+json") [])
  = Ok {| dereferencingMetadata :=
            {| dm_error := Some notFound; dm_contentType := None |};
          contentMetadata := emptyDocumentMetadata;
          contentStream := None |}.
Proof. vm_compute. reflexivity. Qed.

Example dereference_of_authentication_key_as_json_ld :
  fst (dereference registry "did:kilt:light:0140a0b0c#authentication"
                   (Some "application/did+ld+json") [])
  = Ok {| dereferencingMetadata :=
            {| dm_error := None;
               dm_contentType := Some "application/did+ld+json" |};
          contentMetadata := emptyDocumentMetadata;
          contentStream :=
            Some (WithContext
                    (ResVerificationMethod
                       (demoEncodeMultikey aliceLight "#authentication"
                                           aliceAuth))
                    ["https://www.w3.org/ns/did/v1";
                     "ipfs://kilt-did-context"]) |}.
Proof. vm_compute. reflexivity. Qed.

Example credential_of_a_missing_block :
  fst (credentialFromChain ledger membershipId (Some (entryAt 11)) [])
  = Throw (ForeignError "Unable to retrieve the block").
Proof. vm_compute. reflexivity. Qed.

Lemma text_html_is_unsupported : unsupportedAccept (Some "text/html").
Proof.
  intros a Ha. inversion Ha; subst a. simpl.
  intros [H | [H | [H | []]]]; discriminate.
Qed.

Lemma resolveRepresentation_unsupported_accept_witness :
  resolveRepresentation offline aliceLight (Some "text/html") []
  = (Ok {| rr_didResolutionMetadata := Some representationNotSupported;
           rr_didDocumentMetadata := emptyDocumentMetadata;
           didDocumentStream := None |}, []).
Proof.
  apply (resolveRepresentation_unsupported_accept
           offline aliceLight (Some "text/html") []).
  exact text_html_is_unsupported.
Defined.

Lemma dereference_unsupported_accept_falls_back_to_json_witness :
  dereference flaky "did:kilt:light:0140a0b0c#authentication"
              (Some "text/html") []
  = dereference flaky "did:kilt:light:0140a0b0c#authentication"
                (Some "application/did+json") [].
Proof.
  apply (proj1 (dereference_unsupported_accept_falls_back_to_json
                  flaky "did:kilt:light:0140a0b0c#authentication"
                  (Some "text/html") [] text_html_is_unsupported)).
Defined.

Lemma resolve_failure_policy_witness :
  resolve flaky "not a DID" [] = (Ok invalidDidResult, [])
  /\ lookupDocument flaky aliceLight [] = (Ok None, [QueryDid "40a0b0c"])
  /\ resolve flaky aliceLight []
     = (Ok {| didResolutionMetadata := None;
              didDocumentMetadata := emptyDocumentMetadata;
              didDocument := Some (documentOf minimalInput) |},
        bothQueries aliceLight)
  /\ resolve flaky aliceLight [] = resolve registry aliceLight [].
Proof.
  destruct (resolve_failure_policy flaky []) as (Hinvalid & _ & Hrejected).
  edestruct (Hrejected aliceLight) as (Hlookup & _ & Hresolve).
  - vm_compute. reflexivity.
  - vm_compute. reflexivity.
  - destruct Hresolve as (Hquiet & _ & _ & Hlight);
      [vm_compute; reflexivity|].
    split.
    { apply (Hinvalid "not a DID" (DidError ("Not a valid KILT DID "
                                             ++ quoted "not a DID"))).
      vm_compute. reflexivity. }
    split; [exact Hlookup|]. split.
    + refine (eq_trans (Hlight _ _) _);
        [reflexivity | reflexivity | vm_compute; reflexivity].
    + apply (Hquiet registry); vm_compute; reflexivity.
Defined.

Lemma deleted_and_absent_dids_resolve_differently_witness :
  exists r1 r2,
    fst (resolve registry deletedFull []) = Ok r1
    /\ fst (resolve registry absentFull []) = Ok r2
    /\ didResolutionMetadata r1 <> didResolutionMetadata r2
    /\ didDocumentMetadata r1 <> didDocumentMetadata r2.
Proof.
  edestruct (deleted_and_absent_dids_resolve_differently
               registry deletedFull absentFull)
    with (log1 := @nil Query) (log2 := @nil Query)
    as (r1 & r2 & H1 & H2 & _ & _ & Hres & Hmeta).
  - vm_compute. reflexivity.
  - vm_compute. reflexivity.
  - vm_compute. reflexivity.
  - right. vm_compute. reflexivity.
  - vm_compute. reflexivity.
  - vm_compute. reflexivity.
  - vm_compute. reflexivity.
  - vm_compute. reflexivity.
  - vm_compute. reflexivity.
  - exists r1, r2. auto.
Defined.

(** Counterexample to C5 as stated: [4abba] is in the deleted index, yet
    [resolve] answers with its live document and without
    [deactivated]. *)
Lemma deleted_index_member_with_live_document :
  validateUri revivedFull (Some ExpectDid) = Ok tt
  /\ query_did_didBlacklist registry (toChain revivedFull) = Ok (Some tt)
  /\ exists r,
       fst (resolve registry revivedFull []) = Ok r
       /\ didDocument r <> None
       /\ deactivated (didDocumentMetadata r) = None.
Proof.
  split; [vm_compute; reflexivity|].
  split; [vm_compute; reflexivity|].
  eexists. split; [vm_compute; reflexivity|].
  split; [discriminate | reflexivity].
Qed.

Lemma migrated_light_did_resolves_to_canonical_id_witness :
  (exists r,
      fst (resolve migratedChain aliceLight []) = Ok r
      /\ canonicalId (didDocumentMetadata r) = Some "did:kilt:full:40a0b0c"
      /\ didDocument r = Some (idOnlyDocument aliceLight))
  /\ exists e,
       parseDocumentFromLightDid unknownCodeLight false = Throw e
       /\ resolve migratedChain unknownCodeLight []
          = (Throw e, bothQueries unknownCodeLight).
Proof.
  split.
  - edestruct (migrated_light_did_resolves_to_canonical_id
                 migratedChain aliceLight)
      with (log := @nil Query) as (Hrebuilt & _ & _).
    + vm_compute. reflexivity.
    + vm_compute. reflexivity.
    + vm_compute. reflexivity.
    + vm_compute. reflexivity.
    + vm_compute. reflexivity.
    + edestruct Hrebuilt as (r & Hr & Hcanonical & Hdoc & _).
      * vm_compute. reflexivity.
      * exists r. auto.
  - edestruct (migrated_light_did_resolves_to_canonical_id
                 migratedChain unknownCodeLight)
      with (log := @nil Query) as (_ & Hthrown & _).
    + vm_compute. reflexivity.
    + vm_compute. reflexivity.
    + vm_compute. reflexivity.
    + vm_compute. reflexivity.
    + vm_compute. reflexivity.
    + eexists. split; [vm_compute; reflexivity|].
      apply Hthrown. vm_compute. reflexivity.
Defined.

(** Counterexample to C2 as stated: a light DID URI that passes
    [validateUri], whose identifier has a live full DID and no entry in
    the deleted index, and for which [resolve] returns nothing: the key
    type code [02] makes [parseDocumentFromLightDid] throw. *)
Lemma migrated_light_did_with_unknown_key_code :
  validateUri unknownCodeLight (Some ExpectDid) = Ok tt
  /\ (exists p, parse unknownCodeLight = Ok p /\ p_type p = light)
  /\ (exists fullDoc,
         onChainDocument migratedChain unknownCodeLight = Some fullDoc)
  /\ query_did_didBlacklist migratedChain (toChain unknownCodeLight) = Ok None
  /\ fst (resolve migratedChain unknownCodeLight [])
     = Throw (DidError ("Authentication key encoding " ++ quoted "02"
                        ++ " does not match any supported key type"))
  /\ forall r, fst (resolve migratedChain unknownCodeLight []) <> Ok r.
Proof.
  split; [vm_compute; reflexivity|].
  split; [eexists; split; vm_compute; reflexivity|].
  split; [eexists; vm_compute; reflexivity|].
  split; [vm_compute; reflexivity|].
  split; [vm_compute; reflexivity|].
  intros r. vm_compute. discriminate.
Qed.

Lemma minimal_light_did_uri_witness :
  exists doc,
    createLightDidDocument minimalInput = Ok doc
    /\ doc_id doc = "did:kilt:light:0140a0b0c".
Proof.
  refine (proj1 (minimal_light_did_uri authKey aliceKey None _ _)).
  - vm_compute. reflexivity.
  - left. reflexivity.
Defined.





(** The winning extrinsic of block 7 and its candidates. *)
Lemma twiceTx_wins :
  isWinningExtrinsic membershipId {| extrinsics := [failedTx; twiceTx] |}
                     twiceTx.
Proof.
  exists [failedTx], []. repeat split; try reflexivity. contradiction.
Qed.

Lemma twiceCandidates_decode : allDecode twiceCandidates.
Proof.
  intros candidate [<- | [<- | [<- | []]]]; eexists; vm_compute; reflexivity.
Qed.

Lemma second_membership_is_last_match :
  isLastMatch membershipId twiceCandidates membership alice membershipInput.
Proof.
  exists [(membership, alice)], [(sponsorship, alice)].
  repeat split; try (vm_compute; reflexivity).
  intros c' attester' input' [Hpair | []] Hdecoded.
  inversion Hpair; subst c' attester'.
  vm_compute in Hdecoded. inversion Hdecoded; subst input'.
  vm_compute. discriminate.
Qed.

Lemma last_matching_candidate_wins_witness :
  credentialFromChain ledger membershipId (Some (entryAt 7)) []
  = (Ok membershipCredential, [QueryBlockByNumber 7]).
Proof.
  refine (last_matching_candidate_wins ledger membershipId (entryAt 7)
            {| extrinsics := [failedTx; twiceTx] |} twiceTx twiceCandidates
            membership alice membershipInput [] _ twiceTx_wins _
            twiceCandidates_decode second_membership_is_last_match).
  - vm_compute. reflexivity.
  - vm_compute. reflexivity.
Defined.

(** Counterexample to C3 as stated: the winning extrinsic of block 8
    has two candidate calls whose recomputed identifier is the requested
    id, and [credentialFromChain] returns neither: the third call's
    claims do not decode, and that exception ends the reconstruction. *)
Lemma undecodable_sibling_call_ends_reconstruction :
  let candidates :=
    [(membership, alice); (membership, alice); (garbage, alice)] in
  derive_chain_getBlockByNumber ledger 8
  = Ok {| extrinsics := [withGarbageTx] |}
  /\ isWinningExtrinsic membershipId {| extrinsics := [withGarbageTx] |}
                        withGarbageTx
  /\ candidateCalls (extrinsic withGarbageTx) = Some candidates
  /\ isLastMatch membershipId candidates membership alice membershipInput
  /\ (exists input,
         credentialInputFromChain (fst (hd (garbage, alice) candidates))
         = Ok input
         /\ getIdForCredential input alice = membershipId)
  /\ fst (credentialFromChain ledger membershipId (Some (entryAt 8)) [])
     = Throw (ForeignError "Failed to decode CBOR").
Proof.
  simpl. split; [reflexivity|].
  split.
  { exists [], []. repeat split; try reflexivity. contradiction. }
  split; [reflexivity|].
  split.
  { exists [(membership, alice)], [(garbage, alice)].
    repeat split; try (vm_compute; reflexivity).
    intros c' attester' input' [Hpair | []] Hdecoded.
    inversion Hpair; subst c' attester'.
    vm_compute in Hdecoded. discriminate. }
  split.
  { exists membershipInput. split; vm_compute; reflexivity. }
  vm_compute. reflexivity.
Qed.

Lemma otherCredentialTx_has_no_match :
  noCandidateMatches membershipId (extrinsic otherCredentialTx).
Proof.
  intros candidates c attester input Hcandidates Hin Hdecoded.
  vm_compute in Hcandidates. inversion Hcandidates; subst candidates.
  destruct Hin as [Hpair | []]. inversion Hpair; subst c attester.
  vm_compute in Hdecoded. inversion Hdecoded; subst input.
  vm_compute. discriminate.
Qed.

Lemma reconstruction_fails_without_match_witness :
  ((forall credential,
       fst (credentialFromChain ledger membershipId (Some (entryAt 10)) [])
       <> Ok credential)
   /\ exists message,
        fst (credentialFromChain ledger membershipId (Some (entryAt 10)) [])
        = Throw (PublicCredentialError message))
  /\ exists e,
       credentialInputFromChain garbage = Throw e
       /\ credentialFromChain ledger membershipId (Some (entryAt 9)) []
          = (Throw e, [QueryBlockByNumber 9]).
Proof.
  split.
  - destruct (reconstruction_fails_without_match ledger membershipId
                (entryAt 10) {| extrinsics := [otherCredentialTx] |}
                (Some otherCredentialTx) [])
      as (Hnever & Herror & _).
    + reflexivity.
    + exists [], []. repeat split; try reflexivity. contradiction.
    + intros tx Htx. inversion Htx; subst tx.
      exact otherCredentialTx_has_no_match.
    + split; [exact Hnever|]. apply Herror.
      intros tx candidates Htx Hcandidates.
      inversion Htx; subst tx.
      vm_compute in Hcandidates. inversion Hcandidates; subst candidates.
      intros candidate [<- | []]. eexists. vm_compute. reflexivity.
  - destruct (reconstruction_fails_without_match ledger membershipId
                (entryAt 9) {| extrinsics := [onlyGarbageTx] |}
                (Some onlyGarbageTx) [])
      as (_ & _ & Hotherwise).
    + reflexivity.
    + exists [], []. repeat split; try reflexivity. contradiction.
    + intros tx Htx. inversion Htx; subst tx.
      intros candidates c attester input Hcandidates Hin Hdecoded.
      vm_compute in Hcandidates. inversion Hcandidates; subst candidates.
      destruct Hin as [Hpair | []]. inversion Hpair; subst c attester.
      vm_compute in Hdecoded. discriminate.
    + destruct (Hotherwise onlyGarbageTx [(garbage, alice)] eq_refl eq_refl)
        as (before & c & attester & after & e & Hsplit & _ & Hc & Hrun).
      * intros Hdecode.
        destruct (Hdecode (garbage, alice) (or_introl eq_refl)) as [i Hi].
        vm_compute in Hi. discriminate.
      * assert (Hgarbage : c = garbage).
        { destruct before as [|x [|y before]]; inversion Hsplit; reflexivity. }
        subst c. exists e. split; [exact Hc | exact Hrun].
Defined.

(** Counterexample to C4 as stated: in block 9 no candidate call has a
    recomputed identifier equal to the requested id (the only candidate
    does not decode), and what [credentialFromChain] throws is the
    decoder's exception, not a [PublicCredentialError]. *)
Lemma undecodable_candidate_is_no_PublicCredentialError :
  derive_chain_getBlockByNumber ledger 9
  = Ok {| extrinsics := [onlyGarbageTx] |}
  /\ winnerOf membershipId {| extrinsics := [onlyGarbageTx] |}
              (Some onlyGarbageTx)
  /\ noCandidateMatches membershipId (extrinsic onlyGarbageTx)
  /\ fst (credentialFromChain ledger membershipId (Some (entryAt 9)) [])
     = Throw (ForeignError "Failed to decode CBOR")
  /\ forall message,
       fst (credentialFromChain ledger membershipId (Some (entryAt 9)) [])
       <> Throw (PublicCredentialError message).
Proof.
  split; [reflexivity|].
  split.
  { exists [], []. repeat split; try reflexivity. contradiction. }
  split.
  { intros candidates c attester input Hcandidates Hin Hdecoded.
    vm_compute in Hcandidates. inversion Hcandidates; subst candidates.
    destruct Hin as [Hpair | []]. inversion Hpair; subst c attester.
    vm_compute in Hdecoded. discriminate. }
  split; [vm_compute; reflexivity|].
  intros message. vm_compute. discriminate.
Qed.


(* ================================================================== *)
(** * The further properties on the sample data *)
(* ================================================================== *)

Lemma created_document_shape_witness :
  createLightDidDocument fullInput = Ok fullInputDocument
  /\ authentication fullInputDocument = Some ["#authentication"]
  /\ keyAgreement fullInputDocument = Some ["#encryption"]
  /\ service fullInputDocument = Some [collection].
Proof.
  assert (Hcreated : createLightDidDocument fullInput = Ok fullInputDocument)
    by (vm_compute; reflexivity).
  destruct (created_document_shape fullInput fullInputDocument Hcreated)
    as (auth & code & _ & _ & _ & _ & Hauth & Hkeys & Hservice & _).
  split; [exact Hcreated|]. split; [exact Hauth|].
  split; [|exact Hservice].
  destruct Hkeys as [(Hnone & _) | (key & ka & _ & _ & _ & Hka & _)];
    [discriminate Hnone | exact Hka].
Defined.

Lemma unsupported_authentication_key_type_witness :
  createLightDidDocument ecdsaInput = Throw (UnsupportedKeyError "Multikey").
Proof.
  apply (unsupported_authentication_key_type ecdsaInput
           {| keyType := ecdsa; publicKey := aliceKey |}).
  - vm_compute. reflexivity.
  - left. reflexivity.
Defined.

Lemma unapproved_key_agreement_type_witness :
  createLightDidDocument signingKeyAgreementInput
  = Throw (DidError ("Encryption key type " ++ quoted "ed25519"
                     ++ " is not supported")).
Proof.
  apply (unapproved_key_agreement_type signingKeyAgreementInput aliceAuth
           signingKey {| keyType := ed25519; publicKey := [x0d; x0e] |}).
  - vm_compute. reflexivity.
  - right. reflexivity.
  - reflexivity.
  - vm_compute. reflexivity.
  - intros [H | []]. discriminate H.
Defined.

Lemma reserved_service_id_is_rejected_witness :
  ~ exists doc, createLightDidDocument reservedServiceInput = Ok doc.
Proof.
  intros [doc Hdoc].
  refine (reserved_service_id_is_rejected reservedServiceInput
            [collection; reservedService] reservedService _ _ _ doc Hdoc).
  - reflexivity.
  - right. left. reflexivity.
  - right. reflexivity.
Defined.

Lemma empty_service_list_keeps_the_did_witness :
  createLightDidDocument minimalInput
  = Ok (withoutEmptyServiceList emptyServicesDocument)
  /\ doc_id (withoutEmptyServiceList emptyServicesDocument)
     = doc_id emptyServicesDocument
  /\ service emptyServicesDocument = Some []
  /\ service (withoutEmptyServiceList emptyServicesDocument) = None.
Proof.
  apply (empty_service_list_keeps_the_did authKey None emptyServicesDocument).
  vm_compute. reflexivity.
Defined.

Lemma parseDocumentFromLightDid_rejects_witness :
  exists message,
    parseDocumentFromLightDid unknownCodeLight true
    = Throw (DidError message).
Proof.
  eapply (parseDocumentFromLightDid_rejects unknownCodeLight _ true).
  - vm_compute. reflexivity.
  - right. right. intros code Hcode. vm_compute in Hcode.
    inversion Hcode. split; discriminate.
Defined.

Lemma deserialize_rejects_other_versions_and_algorithms_witness :
  deserializeAdditionalLightDidDetails "zanything" (Some 2)
  = Throw (DidError "Serialization version not supported")
  /\ deserializeAdditionalLightDidDetails "z01ff" None
     = Throw (DidError "Serialization algorithm not supported")
  /\ deserializeAdditionalLightDidDetails "z01ff" (Some 1)
     = Throw (DidError "Serialization algorithm not supported").
Proof.
  apply (deserialize_rejects_other_versions_and_algorithms
           "z01ff" "zanything" 2 [x01; xff]).
  - discriminate.
  - vm_compute. reflexivity.
  - intros serialized H. discriminate H.
Defined.

Lemma resolve_result_shapes_witness :
  resolve migratedChain aliceLight []
  = (Ok (migratedResult aliceLight), bothQueries aliceLight)
  /\ (didResolutionMetadata (migratedResult aliceLight) = None
      \/ didDocument (migratedResult aliceLight) = None).
Proof.
  assert (Hresolved : resolve migratedChain aliceLight []
                      = (Ok (migratedResult aliceLight),
                         bothQueries aliceLight))
    by (vm_compute; reflexivity).
  split; [exact Hresolved|].
  destruct (resolve_result_shapes migratedChain aliceLight []
              (bothQueries aliceLight) (migratedResult aliceLight) Hresolved)
    as [[H _] | [H | [H | [H | [doc H]]]]];
    rewrite H; [right | right | left | left | left]; reflexivity.
Defined.

Lemma unmigrated_light_did_resolves_to_its_own_document_witness :
  resolve flaky aliceLight []
  = (Ok {| didResolutionMetadata := None;
           didDocumentMetadata := emptyDocumentMetadata;
           didDocument := Some (documentOf minimalInput) |},
     bothQueries aliceLight).
Proof.
  refine (eq_trans
            (unmigrated_light_did_resolves_to_its_own_document
               flaky aliceLight _ [] _ _ _ _ _) _).
  - vm_compute. reflexivity.
  - vm_compute. reflexivity.
  - reflexivity.
  - reflexivity.
  - reflexivity.
  - vm_compute. reflexivity.
Defined.

Lemma rejected_deleted_index_query_leaves_resolve_witness :
  resolve offline aliceLight []
  = (Throw (ForeignError "disconnected"), bothQueries aliceLight).
Proof.
  refine (eq_trans
            (rejected_deleted_index_query_leaves_resolve
               offline aliceLight _ (ForeignError "disconnected") [] _ _ _ _)
            _).
  - vm_compute. reflexivity.
  - vm_compute. reflexivity.
  - right. reflexivity.
  - reflexivity.
  - vm_compute. reflexivity.
Defined.

Lemma live_full_did_resolves_to_its_document_witness :
  exists doc,
    resolve registry revivedFull []
    = (Ok {| didResolutionMetadata := None;
             didDocumentMetadata := emptyDocumentMetadata;
             didDocument := Some doc |},
       [QueryDid "4abba"])
    /\ doc_id doc = revivedFull.
Proof.
  eexists. split.
  - refine (eq_trans
              (proj1 (live_full_did_resolves_to_its_document
                        registry revivedFull _ _ [] _ _ _ _)) _).
    + vm_compute. reflexivity.
    + vm_compute. reflexivity.
    + reflexivity.
    + vm_compute. reflexivity.
    + vm_compute. reflexivity.
  - reflexivity.
Defined.

Lemma resolveRepresentation_of_supported_accept_witness :
  exists stream,
    resolveRepresentation registry aliceLight (Some "application/did+cbor") []
    = (Ok {| rr_didResolutionMetadata := None;
             rr_didDocumentMetadata := emptyDocumentMetadata;
             didDocumentStream := stream |},
       bothQueries aliceLight)
    /\ stream = Some (cbor_encode_resource
                        (ResDocument (documentOf minimalInput))).
Proof.
  pose proof (resolveRepresentation_of_supported_accept
                registry aliceLight "application/did+cbor" []) as H.
  assert (Hresolved : resolve registry aliceLight []
                      = (Ok {| didResolutionMetadata := None;
                               didDocumentMetadata := emptyDocumentMetadata;
                               didDocument := Some (documentOf minimalInput) |},
                         bothQueries aliceLight))
    by (vm_compute; reflexivity).
  rewrite Hresolved in H.
  destruct H as (stream & Hrun & _ & Hstream).
  - right. right. left. reflexivity.
  - exists stream. split; [exact Hrun|].
    exact (proj2 (proj2 (Hstream (documentOf minimalInput) eq_refl)) eq_refl).
Defined.

Lemma dereference_result_shapes_witness :
  exists r,
    dereference registry "did:kilt:full:4abba#unknown"
      (Some "application/did+cbor") []
    = (Ok r, [QueryDid "4abba"])
    /\ dm_error (dereferencingMetadata r) = Some notFound
    /\ dm_contentType (dereferencingMetadata r) = None
    /\ contentStream r = None.
Proof.
  exists {| dereferencingMetadata :=
              {| dm_error := Some notFound; dm_contentType := None |};
            contentMetadata := emptyDocumentMetadata;
            contentStream := None |}.
  assert (Hrun : dereference registry "did:kilt:full:4abba#unknown"
                   (Some "application/did+cbor") []
                 = (Ok {| dereferencingMetadata :=
                            {| dm_error := Some notFound;
                               dm_contentType := None |};
                          contentMetadata := emptyDocumentMetadata;
                          contentStream := None |},
                    [QueryDid "4abba"]))
    by (vm_compute; reflexivity).
  split; [exact Hrun|].
  destruct (dereference_result_shapes registry "did:kilt:full:4abba#unknown"
              (Some "application/did+cbor") [] [QueryDid "4abba"]
              {| dereferencingMetadata :=
                   {| dm_error := Some notFound; dm_contentType := None |};
                 contentMetadata := emptyDocumentMetadata;
                 contentStream := None |} Hrun)
    as [(H & _) | [(Herror & Htype & Hcontent) | (H & _)]].
  - discriminate H.
  - split; [exact Herror|]. split; [exact Htype | exact Hcontent].
  - discriminate H.
Defined.

Lemma dereferenceInternal_fragment_lookup_witness :
  exists content,
    fst (dereferenceInternal registry
           "did:kilt:light:0140a0b0c#authentication" [])
    = Ok {| i_contentStream := content;
            i_contentMetadata := emptyDocumentMetadata |}
    /\ forall d, content <> Some (ResDocument d).
Proof.
  edestruct (dereferenceInternal_fragment_lookup registry
               "did:kilt:light:0140a0b0c#authentication" "#authentication")
    with (log := @nil Query)
    as (content & Hrun & _ & _ & Hnever & _).
  - vm_compute. reflexivity.
  - reflexivity.
  - vm_compute. reflexivity.
  - reflexivity.
  - reflexivity.
  - exists content. rewrite Hrun. split; [reflexivity | exact Hnever].
Defined.

Lemma dereference_fragment_of_id_only_document_throws_witness :
  fst (dereference migratedChain "did:kilt:light:0140a0b0c#authentication"
         (Some "application/did+json") [])
  = Throw (TypeError "Cannot read properties of undefined (reading 'find')").
Proof.
  erewrite (dereference_fragment_of_id_only_document_throws migratedChain
              "did:kilt:light:0140a0b0c#authentication" "#authentication").
  - reflexivity.
  - vm_compute. reflexivity.
  - vm_compute. reflexivity.
  - reflexivity.
  - vm_compute. reflexivity.
  - reflexivity.
  - reflexivity.
Defined.

Lemma dereference_without_fragment_witness :
  exists result,
    dereference registry deletedFull (Some "application/did+json") []
    = (Ok result, bothQueries deletedFull)
    /\ contentMetadata result
       = {| deactivated := Some true; canonicalId := None |}
    /\ dm_error (dereferencingMetadata result) = Some notFound.
Proof.
  pose proof (dereference_without_fragment registry deletedFull
                {| p_did := deletedFull;
                   p_address := "4dead";
                   p_version := Some 1;
                   p_encodedDetails := None;
                   p_fragment := None;
                   p_type := full;
                   p_authKeyTypeEncoding := None |}
                (Some "application/did+json") []) as H.
  assert (Hresolved : resolve registry deletedFull []
                      = (Ok deactivatedResult, bothQueries deletedFull))
    by (vm_compute; reflexivity).
  cbn [p_did] in H. rewrite Hresolved in H.
  destruct H as (result & Hrun & Hmeta & Hnone & _).
  - vm_compute. reflexivity.
  - vm_compute. reflexivity.
  - reflexivity.
  - exists result. split; [exact Hrun|]. split; [exact Hmeta|].
    exact (proj1 (Hnone eq_refl)).
Defined.

Lemma batch_search_depends_on_flattened_calls_witness :
  findCredentialInExtrinsic membershipId (extrinsic twiceTx)
  = findCredentialInExtrinsic membershipId (Utility forceBatch regroupedCalls).
Proof.
  apply (batch_search_depends_on_flattened_calls membershipId batchAll
           forceBatch).
  reflexivity.
Defined.

Lemma batch_without_did_call_yields_nothing_witness :
  findCredentialInExtrinsic membershipId (Utility batch looseCalls)
  = Ok (None, None).
Proof.
  apply (batch_without_did_call_yields_nothing membershipId batch looseCalls).
  intros c [<- | [<- | [<- | []]]]; reflexivity.
Defined.

Lemma block_search_finds_the_winning_extrinsic_witness :
  exists winner,
    winnerOf membershipId {| extrinsics := [failedTx; twiceTx] |} winner
    /\ retrievePublicCredentialCreationExtrinsicFromBlock
         ledger membershipId 7 []
       = (Ok (option_map extrinsic winner), [QueryBlockByNumber 7]).
Proof.
  apply (block_search_finds_the_winning_extrinsic ledger membershipId 7
           {| extrinsics := [failedTx; twiceTx] |} []).
  reflexivity.
Defined.

Lemma returned_credential_comes_from_a_candidate_witness :
  exists block tx candidates c input,
    derive_chain_getBlockByNumber ledger 7 = Ok block
    /\ isWinningExtrinsic membershipId block tx
    /\ candidateCalls (extrinsic tx) = Some candidates
    /\ In (c, alice) candidates
    /\ credentialInputFromChain c = Ok input
    /\ membershipCredential = assembled input alice (entryAt 7).
Proof.
  apply (returned_credential_comes_from_a_candidate ledger membershipId
           (entryAt 7) membershipCredential [] [QueryBlockByNumber 7]).
  vm_compute. reflexivity.
Defined.

Lemma undecodable_candidate_fails_reconstruction_witness :
  credentialFromChain ledger membershipId (Some (entryAt 8)) []
  = (Throw (ForeignError "Failed to decode CBOR"), [QueryBlockByNumber 8]).
Proof.
  apply (undecodable_candidate_fails_reconstruction ledger membershipId
           (entryAt 8) {| extrinsics := [withGarbageTx] |} withGarbageTx
           [(membership, alice); (membership, alice)] []
           garbage alice (ForeignError "Failed to decode CBOR") []).
  - reflexivity.
  - exists [], []. repeat split; try reflexivity. contradiction.
  - vm_compute. reflexivity.
  - intros candidate [<- | [<- | []]]; eexists; vm_compute; reflexivity.
  - vm_compute. reflexivity.
Defined.

Lemma credentialsFromChain_reconstructs_every_entry_witness :
  exists outcomes,
    PublicCredentialChain.credentialsFromChain ledger
      (IsOk [(membershipId, entryAt 7)]) []
    = (Reconstructions outcomes, [QueryBlockByNumber 7])
    /\ outcomes = [Ok membershipCredential]
    /\ map (fun credential =>
              (pc_id credential,
               {| blockNumber := pc_blockNumber credential;
                  revoked := pc_revoked credential |}))
           [membershipCredential]
       = [(membershipId, entryAt 7)].
Proof.
  destruct (credentialsFromChain_reconstructs_every_entry ledger
              [(membershipId, entryAt 7)] [])
    as (_ & outcomes & Hrun & _ & Hall).
  assert (Houtcomes : outcomes = [Ok membershipCredential]).
  { vm_compute in Hrun. inversion Hrun. reflexivity. }
  exists outcomes. split; [exact Hrun|]. split; [exact Houtcomes|].
  apply Hall. rewrite Houtcomes. reflexivity.
Defined.

Lemma toChain_is_read_back_witness :
  exists stored,
    asStoredOnChain (PublicCredentialChain.toChain membershipInput)
    = Some stored
    /\ ec_claims stored = cborEncode (claims membershipInput)
    /\ credentialInputFromChain stored = Ok membershipInput.
Proof.
  apply (toChain_is_read_back membershipInput).
  - reflexivity.
  - reflexivity.
Defined.

Lemma queryById_record_witness :
  DidChain.r_key_agreement_key aliceRecord
  = DidChain.decodePublicKey demoToHex (DidChain.auth_key aliceDetails)
  /\ DidChain.r_key_agreement_key aliceRecord
     <> DidChain.decodePublicKey demoToHex
          (DidChain.key_agreement_key aliceDetails).
Proof.
  destruct (queryById_record didStorage demoToHex demoToNumber
              demoDidFromIdentifier "4alice" aliceDetails aliceRecord)
    as (Hagreement & _).
  - reflexivity.
  - vm_compute. reflexivity.
  - split; [exact Hagreement|]. discriminate.
Defined.
